(** * managerai: the scrape / email / nice-data pipeline

    A shallow embedding of the JavaScript sources [scrape.js], [scrape.ts],
    [email.js] (the later of its two versions, the one that prints the
    averages) and [updateNiceData.js].

    Conventions of the model.
    - JavaScript numbers that hold line counts and star counts are integers
      far below 2^53, so they are modelled as [Z]; [Math.round (a / n)] on
      such values is [round_div a n] below.
    - JavaScript strings are modelled as [string]; one character of the model
      stands for one code unit of the source string, and the model holds the
      strings whose code units are below 256.
    - A property that may be absent ([undefined]) or [null] is an [option].
    - Calls to the record store, to the repository service and to the text
      completion service are answered by a [World] of oracles; every oracle
      sees the calls made so far, so two calls with equal arguments may be
      answered differently.  The platform's URL parser is part of the world.
    - An [async] function is a computation in [M]: state passing over the
      table, the calls made and the lines of [console.error], with
      exceptions.  The output of [console.log] is not modelled.
    - The company id of a stage is the number [parseInt(companyId)]. *)

From Stdlib Require Import ZArith String Ascii List Lia.
From stdpp Require Import base option list strings pretty gmap.

Local Open Scope string_scope.
Local Open Scope Z_scope.

(** ** Data model *)

(** [commitDetails.stats]: additions, deletions, total. *)
Record Stats := mkStats {
  additions : Z;
  deletions : Z;
  total : Z
}.

(** An element of [commitsData]: scrape.js pushes
    [{ message, author, diff, stats }]; scrape.ts pushes [{ author, diff }]. *)
Record CommitData := mkCommit {
  message : option string;
  author : string;
  diff : string;
  stats : option Stats
}.

(** What GitHub's [getCommit] answers for one changed file; [patch] is
    missing for a binary or an oversized file. *)
Record FileChange := mkFile {
  filename : string;
  patch : option string
}.

(** The fields of a [getCommit] answer that scrape.js reads:
    [author?.login], [commit.author?.name], [commit.message], [files],
    [stats]. *)
Record CommitDetails := mkDetails {
  author_login : option string;
  commit_author_name : option string;
  commit_message : string;
  files : option (list FileChange);
  details_stats : option Stats
}.

(** An element of the column [scraped_data].  scrape.js writes all seven
    properties, scrape.ts (interface [RepoData]) the first five, both with an
    array for [commits]; the readers guard against an element whose
    [commits] is missing, which is [repo_commits = None] here. *)
Record RepoData := mkRepoData {
  name : string;
  link : string;
  stars : Z;
  top50contributors : list string;
  repo_commits : option (list CommitData);
  averageAdditions : option Z;
  averageDeletions : option Z
}.

(** The elements of [repo.commits], none when it is missing: what a reader
    gets behind the guard [repo.commits && ...]. *)
Definition commits (repo : RepoData) : list CommitData :=
  match repo_commits repo with
  | Some commitsData => commitsData
  | None => []
  end.

(** An element of [results]: [commits] is the array [commitsData]. *)
Definition mkRepo (name link : string) (stars : Z) (contributors : list string)
    (commitsData : list CommitData) (averageAdditions averageDeletions : option Z)
  : RepoData :=
  {| name := name; link := link; stars := stars;
     top50contributors := contributors;
     repo_commits := Some commitsData;
     averageAdditions := averageAdditions;
     averageDeletions := averageDeletions |}.

(** ** Strings *)

Definition LF : ascii := ascii_of_nat 10.
Definition nl : string := String LF "".

(** A string is truthy when it is not empty. *)
Definition truthy (s : string) : bool := negb (String.eqb s "").

(** [a || b] on a possibly missing string [a]. *)
Definition or_else (a : option string) (b : string) : string :=
  match a with
  | Some s => if truthy s then s else b
  | None => b
  end.

(** [`${n}`] for an integer. *)
Definition show (n : Z) : string := pretty n.

Definition dq : string := String (ascii_of_nat 34) "".

(** The characters [trim] removes, among those below 256: the tab, the line
    feed, the vertical tab, the form feed, the carriage return, the space and
    the no-break space.  The other white space and line terminators of
    JavaScript (U+FEFF, U+2028, U+2029 and the space separators from U+1680
    on) lie above. *)
Definition is_space (c : ascii) : bool :=
  let n := nat_of_ascii c in
  ((9 <=? n)%nat && (n <=? 13)%nat) || (n =? 32)%nat || (n =? 160)%nat.

Fixpoint trimStart (s : string) : string :=
  match s with
  | String c s' => if is_space c then trimStart s' else s
  | "" => ""
  end.

(** [trimEnd]: a space is dropped when nothing but spaces follows. *)
Fixpoint trimEnd (s : string) : string :=
  match s with
  | String c s' =>
      match trimEnd s' with
      | "" => if is_space c then "" else String c ""
      | rest => String c rest
      end
  | "" => ""
  end.

(** [s.trim()]. *)
Definition trim (s : string) : string := trimEnd (trimStart s).

(** [s.slice(0, n)]. *)
Fixpoint str_slice0 (n : nat) (s : string) : string :=
  match n, s with
  | S n', String c s' => String c (str_slice0 n' s')
  | _, _ => ""
  end.

(** [s.replace(/\n/g, ' ')]. *)
Fixpoint replace_newlines (s : string) : string :=
  match s with
  | "" => ""
  | String c s' =>
      String (if Ascii.eqb c LF then " "%char else c) (replace_newlines s')
  end.

(** [s.split(sep)] for a separator of one character: the pieces between the
    separators, empty pieces kept; the empty string gives one empty piece. *)
Fixpoint split_on (sep : ascii) (s : string) : list string :=
  match s with
  | "" => [""]
  | String c s' =>
      if Ascii.eqb c sep then "" :: split_on sep s'
      else match split_on sep s' with
           | p :: ps => String c p :: ps
           | [] => [String c ""]
           end
  end.

(** [parts.join(sep)]. *)
Fixpoint join (sep : string) (parts : list string) : string :=
  match parts with
  | [] => ""
  | [p] => p
  | p :: ps => p +:+ sep +:+ join sep ps
  end.

(** [parts.filter(Boolean)] on strings. *)
Definition filter_Boolean (parts : list string) : list string :=
  List.filter truthy parts.

(** ** Numbers *)

(** [Math.round (a / n)] for integers [a] and [n > 0]: the nearest integer,
    a tie going up ([Math.round 2.5 = 3], [Math.round (-2.5) = -2]). *)
Definition round_div (a n : Z) : Z := (2 * a + n) / (2 * n).

(** ** scrape.js, lines 505-518: the averages of a repository *)

(** The three accumulators of the [forEach] loop. *)
Record Totals := mkTotals {
  totalAdditions : Z;
  totalDeletions : Z;
  countStats : Z
}.

(** The body of the [forEach] callback: [if (commit.stats) { ... }]. *)
Definition addStats (t : Totals) (commit : CommitData) : Totals :=
  match stats commit with
  | Some st =>
      {| totalAdditions := totalAdditions t + additions st;
         totalDeletions := totalDeletions t + deletions st;
         countStats := countStats t + 1 |}
  | None => t
  end.

(** [arr.slice(0, n)]. *)
Definition slice0 {A} (n : nat) (arr : list A) : list A := take n arr.

Definition sumStats (cs : list CommitData) : Totals :=
  fold_left addStats cs (mkTotals 0 0 0).

(** [averageAdditions] and [averageDeletions] of [repoData]. *)
Definition averages (commitsData : list CommitData) : Z * Z :=
  let top3Commits := slice0 3 commitsData in
  let t := sumStats top3Commits in
  ( (if decide (countStats t > 0) then round_div (totalAdditions t) (countStats t) else 0),
    (if decide (countStats t > 0) then round_div (totalDeletions t) (countStats t) else 0) ).

(** ** scrape.js, lines 469-489: one commit of [commitsData] *)

(** [commitDetails.author?.login || commitDetails.commit.author?.name
    || 'Unknown']. *)
Definition commitAuthor (d : CommitDetails) : string :=
  or_else (author_login d) (or_else (commit_author_name d) "Unknown").

(** The callback of [commitDetails.files.map]. *)
Definition renderFile (file : FileChange) : string :=
  match patch file with
  | Some p =>
      if truthy p then "File: " +:+ filename file +:+ nl +:+ p +:+ nl
      else "File: " +:+ filename file +:+ " (no patch available)" +:+ nl
  | None => "File: " +:+ filename file +:+ " (no patch available)" +:+ nl
  end.

(** [diffText]. *)
Definition diffText (d : CommitDetails) : string :=
  match files d with
  | Some (f :: fs) => join nl (map renderFile (f :: fs))
  | _ => "No file changes found for this commit."
  end.

(** [commitDetails.stats || { additions: 0, deletions: 0, total: 0 }];
    an object is truthy. *)
Definition statsOrZero (d : CommitDetails) : Stats :=
  match details_stats d with
  | Some st => st
  | None => mkStats 0 0 0
  end.

(** The object pushed on [commitsData] by scrape.js. *)
Definition commitRecord (d : CommitDetails) : CommitData :=
  {| message := Some (commit_message d);
     author := commitAuthor d;
     diff := diffText d;
     stats := Some (statsOrZero d) |}.

(** The object pushed on [commitsData] by scrape.ts. *)
Definition commitRecord_ts (d : CommitDetails) : CommitData :=
  {| message := None;
     author := commitAuthor d;
     diff := diffText d;
     stats := None |}.

(** ** Arrays: [sort] and the heap

    [Array.prototype.sort] sorts the array it is called on and returns that
    same array.  The sort is stable; [compare a b <= 0] keeps [a] before
    [b].  An insertion sort that puts each element in front of the sorted
    rest is such a sort. *)

Fixpoint sort_insert {A} (compare : A -> A -> Z) (a : A) (sorted : list A) : list A :=
  match sorted with
  | [] => [a]
  | b :: rest =>
      if decide (compare a b <= 0) then a :: b :: rest
      else b :: sort_insert compare a rest
  end.

Fixpoint Array_sort {A} (compare : A -> A -> Z) (arr : list A) : list A :=
  match arr with
  | [] => []
  | a :: rest => sort_insert compare a (Array_sort compare rest)
  end.

(** [(a, b) => b.stars - a.stars]. *)
Definition byStars (a b : RepoData) : Z := stars b - stars a.

(** A value handed to [summarizeScrapedData]: the column [scraped_data] of a
    company is [null], or an array, or some other JSON value.  An array is
    a reference into the heap; [sortedRepos] and the caller's [scrapedData]
    are the same reference. *)
Definition loc := nat.

Inductive JsValue :=
| JsUndefined
| JsNull
| JsOther          (* a truthy value that is not an array *)
| JsArray (l : loc).

Abbreviation Heap := (gmap loc (list RepoData)).

(** ** The record store, the services and the effects of a stage *)

(** An element of [newRepo.commits] in updateNiceData.js. *)
Record NiceCommit := mkNiceCommit {
  nice_message : option string;
  messageSummary : string;
  nice_author : string;
  summary : string;
  nice_stats : option Stats
}.

(** An element of [newRepo.people]; the object pushed by the [catch] branch
    has no [name]. *)
Record Person := mkPerson {
  username : string;
  person_name : option string;
  technologies : list string
}.

(** [newRepo] in updateNiceData.js. *)
Record NiceRepo := mkNiceRepo {
  nice_name : string;
  nice_link : string;
  nice_stars : Z;
  nice_top50contributors : list string;
  nice_commits : list NiceCommit;
  nice_averageAdditions : option Z;
  nice_averageDeletions : option Z;
  people : list Person
}.

(** A row of the table [data]. *)
Record Company := mkCompany {
  company_name : string;
  website : string;
  manager_name : option string;
  scraped_data : option (list RepoData);
  nice_data : option (list NiceRepo);
  email : option string
}.

(** What the repository service answers. *)
Record OrgRepo := mkOrgRepo {
  repo_name : string;
  html_url : string;
  stargazers_count : Z
}.

Record User := mkUser {
  user_name : option string;
  bio : option string
}.

(** A call either gives a value or throws. *)
Inductive Result (A : Type) :=
| Ok (a : A)
| Thrown (err : string).
Arguments Ok {A} a.
Arguments Thrown {A} err.

(** The answer [{ data, error }] of [select('*').eq('id', id).single()]. *)
Record SelectAnswer := mkSelect {
  data : option Company;
  error : option string
}.

(** The calls that leave the process. *)
Inductive Call :=
| DbSelect (id : Z)
| DbUpdate (id : Z) (column : string)
| ListForOrg (org : string)
| ListContributors (owner repo : string)
| GetByUsername (user : string)
| ListCommits (owner repo : string)
| GetCommit (owner repo ref : string)
| ListForUser (user : string)
| ListLanguages (owner repo : string)
| ChatCompletion (prompt : string).

(** The world outside: the platform's URL parser ([None] when [new URL]
    throws, else [url.pathname]) and one oracle per service call.  An oracle
    is given the calls made before; [db_select] also sees the table. *)
Record World := mkWorld {
  URL_pathname : string -> option string;
  db_select : list Call -> gmap Z Company -> Z -> SelectAnswer;
  db_update : list Call -> Z -> string -> option string;
  listForOrg : list Call -> string -> Result (list OrgRepo);
  listContributors : list Call -> string -> string -> Result (list string);
  getByUsername : list Call -> string -> Result User;
  listCommits : list Call -> string -> string -> Result (list string);
  getCommit : list Call -> string -> string -> string -> Result CommitDetails;
  listForUser : list Call -> string -> Result (list string);
  listLanguages : list Call -> string -> string -> Result (list string);
  chatCompletion : list Call -> string -> Result (option string)
}.

(** The state a stage runs in: the table [data] keyed by [id], the calls made
    so far (oldest first) and the lines written by [console.error]. *)
Record State := mkState {
  store : gmap Z Company;
  calls : list Call;
  errors : list string
}.

(** Computations of a stage: state passing with exceptions. *)
Definition M (A : Type) : Type := State -> Result A * State.

Definition ret {A} (a : A) : M A := fun s => (Ok a, s).

Definition throw {A} (err : string) : M A := fun s => (Thrown err, s).

Definition bind {A B} (m : M A) (k : A -> M B) : M B :=
  fun s =>
    match m s with
    | (Ok a, s') => k a s'
    | (Thrown err, s') => (Thrown err, s')
    end.

(** [try { m } catch (err) { handler err }]. *)
Definition try_catch {A} (m : M A) (handler : string -> M A) : M A :=
  fun s =>
    match m s with
    | (Ok a, s') => (Ok a, s')
    | (Thrown err, s') => handler err s'
    end.

Declare Scope stage_scope.
Delimit Scope stage_scope with stage.
Notation "x <- m ;; k" := (bind m (fun x => k))
  (at level 100, m at next level, right associativity) : stage_scope.
Notation "m ;;; k" := (bind m (fun _ => k))
  (at level 100, right associativity) : stage_scope.
Local Open Scope stage_scope.

(** [console.error(line, ...)]; the objects printed after the line are left
    out. *)
Definition console_error (line : string) : M unit :=
  fun s => (Ok tt, {| store := store s; calls := calls s; errors := errors s ++ [line] |}).

(** [await] a service call: the call is recorded and the oracle answers. *)
Definition await {A} (c : Call) (answer : list Call -> Result A) : M A :=
  fun s => (answer (calls s),
            {| store := store s; calls := calls s ++ [c]; errors := errors s |}).

(** [for (const x of xs) { ... }] collecting what each round pushes. *)
Fixpoint for_of {A B} (body : A -> M (list B)) (xs : list A) : M (list B) :=
  match xs with
  | [] => ret []
  | x :: rest =>
      pushed <- body x ;;
      more <- for_of body rest ;;
      ret (pushed ++ more)%list
  end.

(** [(a, b) => b.stargazers_count - a.stargazers_count]. *)
Definition byStargazers (a b : OrgRepo) : Z := stargazers_count b - stargazers_count a.

(** The columns an [update] can set. *)
Inductive Column :=
| Scraped (results : list RepoData)
| Nice (niceData : list NiceRepo)
| Email (text : string).

Definition columnName (c : Column) : string :=
  match c with
  | Scraped _ => "scraped_data"
  | Nice _ => "nice_data"
  | Email _ => "email"
  end.

Definition setColumn (c : Column) (row : Company) : Company :=
  match c with
  | Scraped results =>
      {| company_name := company_name row; website := website row;
         manager_name := manager_name row; scraped_data := Some results;
         nice_data := nice_data row; email := email row |}
  | Nice niceData =>
      {| company_name := company_name row; website := website row;
         manager_name := manager_name row; scraped_data := scraped_data row;
         nice_data := Some niceData; email := email row |}
  | Email text =>
      {| company_name := company_name row; website := website row;
         manager_name := manager_name row; scraped_data := scraped_data row;
         nice_data := nice_data row; email := Some text |}
  end.

(** [supabase.from('data').select('*').eq('id', id).single()]. *)
Definition select_single (w : World) (id : Z) : M SelectAnswer :=
  fun s => (Ok (db_select w (calls s) (store s) id),
            {| store := store s; calls := calls s ++ [DbSelect id]; errors := errors s |}).

(** [supabase.from('data').update({ column: value }).eq('id', id)]: the
    answer is [{ error }]; without an error the rows with that [id] are
    changed. *)
Definition update_eq (w : World) (id : Z) (c : Column) : M (option string) :=
  fun s =>
    let updateError := db_update w (calls s) id (columnName c) in
    (Ok updateError,
     {| store := match updateError with
                 | Some _ => store s
                 | None => alter (setColumn c) id (store s)
                 end;
        calls := calls s ++ [DbUpdate id (columnName c)];
        errors := errors s |}).

(** ** scrape.js, lines 313-348: [summarizeScrapedData] *)

Definition noData : string := "No repository data available.".

(** The first two [summary] assignments. *)
Definition digestHeader (topRepo : RepoData) : string :=
  ("Top Repository:" +:+ nl) +:+
  ("Name: " +:+ name topRepo +:+ nl +:+
   "Stars: " +:+ show (stars topRepo) +:+ nl +:+
   "Link: " +:+ link topRepo +:+ nl +:+ nl).

(** [commit.diff.slice(0, 200).replace(/\n/g, ' ')]. *)
Definition diffExcerpt (commit : CommitData) : string :=
  replace_newlines (str_slice0 200 (diff commit)).

(** The text added to [summary] for the commit at [index]. *)
Definition commitBlock (index : nat) (commit : CommitData) : string :=
  "Commit " +:+ show (Z.of_nat index + 1) +:+ " by " +:+ author commit +:+ ":" +:+ nl +:+
  diffExcerpt commit +:+ "..." +:+ nl +:+ nl.

(** [arr.forEach((x, index) => ...)], the callback updating a state. *)
Fixpoint forEach_from {A St} (body : St -> A -> nat -> St) (index : nat)
    (arr : list A) (s : St) : St :=
  match arr with
  | [] => s
  | x :: rest => forEach_from body (S index) rest (body s x index)
  end.

Definition forEach {A St} (body : St -> A -> nat -> St) (arr : list A) (s : St) : St :=
  forEach_from body 0 arr s.

Definition averageLine (avgAdditions avgDeletions : Z) : string :=
  "Average changes per commit: +" +:+ show avgAdditions +:+ " lines, -" +:+
  show avgDeletions +:+ " lines." +:+ nl.

Module ScrapeJs.

(** The callback of [commitsToInclude.forEach]: the state is [summary]
    and the three counters. *)
Definition includeCommit (s : string * Totals) (commit : CommitData) (index : nat)
  : string * Totals :=
  (s.1 +:+ commitBlock index commit, addStats s.2 commit).

(** Everything after [const topRepo = sortedRepos[0]]. *)
Definition digest (topRepo : RepoData) : string :=
  let summary := digestHeader topRepo in
  match commits topRepo with
  | _ :: _ =>
      let summary := summary +:+ ("Top 3 Recent Commits:" +:+ nl) in
      let commitsToInclude := slice0 3 (commits topRepo) in
      let '(summary, t) := forEach includeCommit commitsToInclude (summary, mkTotals 0 0 0) in
      if decide (countStats t > 0) then
        let avgAdditions := round_div (totalAdditions t) (countStats t) in
        let avgDeletions := round_div (totalDeletions t) (countStats t) in
        summary +:+ averageLine avgAdditions avgDeletions
      else summary
  | [] => summary
  end.

(** The function: the heap after the call, and the string returned. *)
Definition summarizeScrapedData (h : Heap) (scrapedData : JsValue) : Heap * string :=
  match scrapedData with
  | JsArray l =>
      match h !! l with
      | Some (r :: rs) =>
          let sortedRepos := Array_sort byStars (r :: rs) in
          let topRepo := hd r sortedRepos in
          (<[l := sortedRepos]> h, digest topRepo)
      | _ => (h, noData)
      end
  | _ => (h, noData)
  end.

(** Lines 380-391: the organization named by the company's website.  Both
    the failure of [new URL] and the explicit [throw] end in the [catch]
    that logs and returns. *)
Definition orgNameOf (w : World) (website : string) : Result string :=
  match URL_pathname w website with
  | None => Thrown "Invalid URL"
  | Some pathname =>
      let pathParts := filter_Boolean (split_on "/" pathname) in
      match pathParts with
      | [] => Thrown "Invalid URL path. Could not extract organization name."
      | orgName :: _ => Ok orgName
      end
  end.

(** The callback of [contributorsResponse.data.map]; the callbacks of
    [Promise.all] are run in the order of the list. *)
Definition contributorName (w : World) (login : string) : M string :=
  try_catch
    (userResponse <- await (GetByUsername login) (fun h => getByUsername w h login) ;;
     ret (or_else (user_name userResponse) login))
    (fun _ =>
       console_error ("Error fetching profile for " +:+ login +:+ ":") ;;;
       ret login).

(** Lines 421-446. *)
Definition fetchContributors (w : World) (orgName repoName : string) : M (list string) :=
  try_catch
    (logins <- await (ListContributors orgName repoName)
                     (fun h => listContributors w h orgName repoName) ;;
     for_of (fun login => fullName <- contributorName w login ;; ret [fullName]) logins)
    (fun _ =>
       console_error ("Error fetching contributors for repository " +:+ repoName +:+ ":") ;;;
       ret []).

(** Lines 460-499: one round of the loop over [commitSummaries]. *)
Definition fetchCommit (w : World) (orgName repoName commitSha : string) : M (list CommitData) :=
  try_catch
    (commitDetails <- await (GetCommit orgName repoName commitSha)
                            (fun h => getCommit w h orgName repoName commitSha) ;;
     ret [commitRecord commitDetails])
    (fun _ =>
       console_error ("Error fetching details for commit " +:+ commitSha +:+
                      " in repo " +:+ repoName +:+ ":") ;;;
       ret []).

(** Lines 449-503. *)
Definition fetchCommits (w : World) (orgName repoName : string) : M (list CommitData) :=
  try_catch
    (commitSummaries <- await (ListCommits orgName repoName)
                              (fun h => listCommits w h orgName repoName) ;;
     for_of (fetchCommit w orgName repoName) commitSummaries)
    (fun _ =>
       console_error ("Error fetching commits for repository " +:+ repoName +:+ ":") ;;;
       ret []).

(** Lines 417-531: one round of the loop over [topRepos]. *)
Definition processRepo (w : World) (orgName : string) (repo : OrgRepo) : M (list RepoData) :=
  contributors <- fetchContributors w orgName (repo_name repo) ;;
  commitsData <- fetchCommits w orgName (repo_name repo) ;;
  ret [ {| name := repo_name repo;
           link := html_url repo;
           stars := stargazers_count repo;
           top50contributors := contributors;
           repo_commits := Some commitsData;
           averageAdditions := Some (averages commitsData).1;
           averageDeletions := Some (averages commitsData).2 |} ].

(** [main]; [companyId] is the number [parseInt(companyId)]. *)
Definition main (w : World) (companyId : Z) : M unit :=
  try_catch
    (answer <- select_single w companyId ;;
     match error answer with
     | Some _ => console_error "Error fetching company data:"
     | None =>
         match data answer with
         | None => console_error "No company data found."
         | Some row =>
             match orgNameOf w (website row) with
             | Thrown _ => console_error "Error parsing GitHub URL:"
             | Ok orgName =>
                 repos <- await (ListForOrg orgName) (fun h => listForOrg w h orgName) ;;
                 let sortedRepos := Array_sort byStargazers repos in
                 let topRepos := slice0 1 sortedRepos in
                 results <- for_of (processRepo w orgName) topRepos ;;
                 updateError <- update_eq w companyId (Scraped results) ;;
                 match updateError with
                 | Some _ => console_error "Error updating company record with scraped data:"
                 | None => ret tt
                 end
             end
         end
     end)
    (fun _ => console_error "Unexpected error:").

End ScrapeJs.

(** ** scrape.ts *)

Module ScrapeTs.

(** Lines 60-71. *)
Definition orgNameOf (w : World) (website : string) : Result string :=
  match URL_pathname w website with
  | None => Thrown "Invalid URL"
  | Some pathname =>
      let pathParts := filter_Boolean (split_on "/" pathname) in
      match pathParts with
      | [] => Thrown "Invalid URL path. Could not extract organization name."
      | orgName :: _ => Ok orgName
      end
  end.

(** Lines 102-112: the logins as they come. *)
Definition fetchContributors (w : World) (orgName repoName : string) : M (list string) :=
  try_catch
    (await (ListContributors orgName repoName)
           (fun h => listContributors w h orgName repoName))
    (fun _ =>
       console_error ("Error fetching contributors for repository " +:+ repoName +:+ ":") ;;;
       ret []).

Definition fetchCommit (w : World) (orgName repoName commitSha : string) : M (list CommitData) :=
  try_catch
    (commitDetails <- await (GetCommit orgName repoName commitSha)
                            (fun h => getCommit w h orgName repoName commitSha) ;;
     ret [commitRecord_ts commitDetails])
    (fun _ =>
       console_error ("Error fetching details for commit " +:+ commitSha +:+
                      " in repo " +:+ repoName +:+ ":") ;;;
       ret []).

Definition fetchCommits (w : World) (orgName repoName : string) : M (list CommitData) :=
  try_catch
    (commitSummaries <- await (ListCommits orgName repoName)
                              (fun h => listCommits w h orgName repoName) ;;
     for_of (fetchCommit w orgName repoName) commitSummaries)
    (fun _ =>
       console_error ("Error fetching commits for repository " +:+ repoName +:+ ":") ;;;
       ret []).

Definition processRepo (w : World) (orgName : string) (repo : OrgRepo) : M (list RepoData) :=
  contributors <- fetchContributors w orgName (repo_name repo) ;;
  commitsData <- fetchCommits w orgName (repo_name repo) ;;
  ret [ {| name := repo_name repo;
           link := html_url repo;
           stars := stargazers_count repo;
           top50contributors := contributors;
           repo_commits := Some commitsData;
           averageAdditions := None;
           averageDeletions := None |} ].

(** [main]: there is no test of [data]; reading [data.website] of a [null]
    throws into the outer [catch]. *)
Definition main (w : World) (companyId : Z) : M unit :=
  try_catch
    (answer <- select_single w companyId ;;
     match error answer with
     | Some _ => console_error "Error fetching company data:"
     | None =>
         match data answer with
         | None => throw "TypeError: Cannot read properties of null"
         | Some row =>
             match orgNameOf w (website row) with
             | Thrown _ => console_error "Error parsing GitHub URL:"
             | Ok orgName =>
                 repos <- await (ListForOrg orgName) (fun h => listForOrg w h orgName) ;;
                 let sortedRepos := Array_sort byStargazers repos in
                 let topRepos := slice0 4 sortedRepos in
                 results <- for_of (processRepo w orgName) topRepos ;;
                 updateError <- update_eq w companyId (Scraped results) ;;
                 match updateError with
                 | Some _ => console_error "Error updating company record with scraped data:"
                 | None => ret tt
                 end
             end
         end
     end)
    (fun _ => console_error "Unexpected error:").

End ScrapeTs.

(** ** email.js, lines 235-262: [summarizeScrapedData] *)

Module EmailJs.

Definition includeCommit (summary : string) (commit : CommitData) (index : nat) : string :=
  summary +:+ commitBlock index commit.

Definition digest (topRepo : RepoData) : string :=
  let summary := digestHeader topRepo in
  let summary :=
    match commits topRepo with
    | _ :: _ =>
        let summary := summary +:+ ("Top 3 Recent Commits:" +:+ nl) in
        let commitsToInclude := slice0 3 (commits topRepo) in
        forEach includeCommit commitsToInclude summary
    | [] => summary
    end in
  match averageAdditions topRepo, averageDeletions topRepo with
  | Some avgAdditions, Some avgDeletions =>
      summary +:+ averageLine avgAdditions avgDeletions
  | _, _ => summary
  end.

Definition summarizeScrapedData (h : Heap) (scrapedData : JsValue) : Heap * string :=
  match scrapedData with
  | JsArray l =>
      match h !! l with
      | Some (r :: rs) =>
          let sortedRepos := Array_sort byStars (r :: rs) in
          let topRepo := hd r sortedRepos in
          (<[l := sortedRepos]> h, digest topRepo)
      | _ => (h, noData)
      end
  | _ => (h, noData)
  end.

(** Lines 270-309: the prompt of [generateEmail]. *)
Definition emailPrompt (company : Company) (dataSummary : string) : string :=
  nl +:+
  "You are a friendly email copywriter who translates technical commit diffs and code metrics into clear, actionable insights for nontechnical managers." +:+ nl +:+
  nl +:+
  "Write a concise email that tells a short story. For example, your email might say:" +:+ nl +:+
  nl +:+
  dq +:+ "I noticed that last week your top repository, [Repo Name], received important updates—especially in areas like authentication and UI improvements. This indicates that your team is making significant progress." +:+ nl +:+
  nl +:+
  "Key insights:" +:+ nl +:+
  "- [Author 1]'s commits added impressive improvements (averaging +[avgAdditions] lines and -[avgDeletions] lines per commit)." +:+ nl +:+
  "- [Author 2] contributed meaningful fixes that enhance stability." +:+ nl +:+
  "- [Author 3] made critical updates that boost overall quality." +:+ nl +:+
  nl +:+
  "These automated insights help managers quickly understand technical progress. Check out odem.ai and let's schedule a call to see if our AI Manager Assistant can benefit your company." +:+ dq +:+ nl +:+
  nl +:+
  "Now, fill in the following:" +:+ nl +:+
  "- Company Name: " +:+ company_name company +:+ nl +:+
  "- Manager Name: " +:+ or_else (manager_name company) "[Manager Name]" +:+ nl +:+
  "- GitHub Data Summary:" +:+ nl +:+
  dataSummary +:+ nl +:+
  nl +:+
  "Generate a complete email (just the body, no subject) that replaces all placeholders with the appropriate information, provides clear and engaging insights, and ends with a call to action." +:+ nl.

(** [generateEmail]: [company] is the object built from the answer of the
    store, its [scraped_data] a fresh array at location 0. *)
Definition generateEmail (w : World) (company : Company) : M string :=
  let '(h, scrapedData) :=
    match scraped_data company with
    | Some arr => ({[ 0%nat := arr ]} : Heap, JsArray 0%nat)
    | None => (∅ : Heap, JsNull)
    end in
  let dataSummary := (summarizeScrapedData h scrapedData).2 in
  let prompt := emailPrompt company dataSummary in
  emailContent <- await (ChatCompletion prompt) (fun h => chatCompletion w h prompt) ;;
  ret (or_else emailContent "").

(** Lines 315-357: [main]. *)
Definition main (w : World) (companyId : Z) : M unit :=
  try_catch
    (answer <- select_single w companyId ;;
     match error answer with
     | Some _ => console_error "Error fetching company data:"
     | None =>
         match data answer with
         | None => console_error "No company data found."
         | Some row =>
             text <- generateEmail w row ;;
             updateError <- update_eq w companyId (Email text) ;;
             match updateError with
             | Some _ => console_error "Error updating company record with generated email:"
             | None => ret tt
             end
         end
     end)
    (fun _ => console_error "Unexpected error:").

End EmailJs.

(** ** updateNiceData.js *)

Module UpdateNiceData.

(** [content.trim() || fallback]; [content] may be [null], and [trim] of
    [null] throws. *)
Definition trimmedOr (content : option string) (fallback : string) : M string :=
  match content with
  | Some text => ret (or_else (Some (trim text)) fallback)
  | None => throw "TypeError: Cannot read properties of null"
  end.

(** Lines 85-103. *)
Definition summarizeCommitMessage (w : World) (commitMessage : string) : M string :=
  let prompt :=
    "Explain the following commit message in a few words (less than 20 words) for a non-technical person. Include the fully summarized message, not just the first few words. Also don't include any filler words:" +:+
    nl +:+ nl +:+ dq +:+ commitMessage +:+ dq +:+ nl +:+ nl +:+ "Summary:" in
  try_catch
    (content <- await (ChatCompletion prompt) (fun h => chatCompletion w h prompt) ;;
     trimmedOr content "No summary available.")
    (fun _ =>
       console_error "Error summarizing commit message:" ;;;
       ret "No summary available.").

(** Lines 110-126. *)
Definition summarizeCommitDiff (w : World) (diffText : string) : M string :=
  let prompt :=
    "Summarize the following commit diff in simple, nontechnical language suitable for a manager, highlighting the key improvements or changes:" +:+
    nl +:+ nl +:+ diffText +:+ nl +:+ nl +:+ "Summary:" in
  try_catch
    (content <- await (ChatCompletion prompt) (fun h => chatCompletion w h prompt) ;;
     trimmedOr content "Summary not available.")
    (fun _ =>
       console_error "Error summarizing diff:" ;;;
       ret "Summary not available.").

(** Line 162: the prompt of [getTechnologiesForContributor]. *)
Definition technologiesPrompt (bio repoInfo : string) : string :=
  "Based on the following GitHub bio and repository information, list the technologies this person appears proficient in. Return your answer as a comma-separated list." +:+
  nl +:+ nl +:+ "GitHub Bio: " +:+ bio +:+ nl +:+
  "Contributor Repository Info: " +:+ repoInfo +:+ nl +:+ nl +:+ "Technologies:".

(** Line 159. *)
Definition repoInfoOf (topRepo : string) (languageKeys : list string) : string :=
  "Repository: " +:+ topRepo +:+ ". Languages: " +:+ join ", " languageKeys +:+ ".".

(** Lines 133-176. *)
Definition getTechnologiesForContributor (w : World) (author : string) : M (list string) :=
  try_catch
    (userResponse <- await (GetByUsername author) (fun h => getByUsername w h author) ;;
     let bio := or_else (bio userResponse) "" in
     reposResponse <- await (ListForUser author) (fun h => listForUser w h author) ;;
     repoInfo <-
       match reposResponse with
       | topRepo :: _ =>
           languagesResponse <- await (ListLanguages author topRepo)
                                      (fun h => listLanguages w h author topRepo) ;;
           ret (repoInfoOf topRepo languagesResponse)
       | [] => ret ""
       end ;;
     let prompt := technologiesPrompt bio repoInfo in
     content <- await (ChatCompletion prompt) (fun h => chatCompletion w h prompt) ;;
     match content with
     | Some text => ret (filter_Boolean (map trim (split_on "," (trim text))))
     | None => throw "TypeError: Cannot read properties of null"
     end)
    (fun _ =>
       console_error ("Error fetching technologies for " +:+ author +:+ ":") ;;;
       ret []).

(** Lines 217-228: one round of the loop over [repo.commits]. *)
Definition niceCommit (w : World) (commit : CommitData) : M (list NiceCommit) :=
  summary <- (if truthy (diff commit) then summarizeCommitDiff w (diff commit)
              else ret "No diff available.") ;;
  messageSummary <-
    match message commit with
    | Some text => if truthy text then summarizeCommitMessage w text
                   else ret "No message available."
    | None => ret "No message available."
    end ;;
  ret [ {| nice_message := message commit;
           messageSummary := messageSummary;
           nice_author := author commit;
           summary := summary;
           nice_stats := stats commit |} ].

(** [new Set(xs)] as the list of its elements in iteration order: every
    value once, at the place where it first occurs. *)
Definition Set_add (seen : list string) (x : string) : list string :=
  if decide (x ∈ seen) then seen else (seen ++ [x])%list.

Definition Set_of (xs : list string) : list string := fold_left Set_add xs [].

(** Lines 234-254: one round of the loop over [uniqueAuthors]. *)
Definition processAuthor (w : World) (author : string) : M (list Person) :=
  try_catch
    (techList <- getTechnologiesForContributor w author ;;
     userResponse <- await (GetByUsername author) (fun h => getByUsername w h author) ;;
     let fullName := or_else (user_name userResponse) author in
     ret [ {| username := author; person_name := Some fullName; technologies := techList |} ])
    (fun _ =>
       console_error ("Error processing contributor " +:+ author +:+ ":") ;;;
       ret [ {| username := author; person_name := None; technologies := [] |} ]).

(** Lines 203-257: one round of the loop over [scrapedData].  The loop over
    the commits stands behind the guard of line 216; line 232 reads
    [repo.commits.map] outside of it and outside of any [try]. *)
Definition niceRepo (w : World) (repo : RepoData) : M (list NiceRepo) :=
  newCommits <-
    match repo_commits repo with
    | Some commitsData => for_of (niceCommit w) commitsData
    | None => ret []
    end ;;
  authors <-
    match repo_commits repo with
    | Some commitsData => ret (map author commitsData)
    | None => throw "TypeError: Cannot read properties of undefined (reading 'map')"
    end ;;
  let uniqueAuthors := Set_of authors in
  newPeople <- for_of (processAuthor w) uniqueAuthors ;;
  ret [ {| nice_name := name repo;
           nice_link := link repo;
           nice_stars := stars repo;
           nice_top50contributors := top50contributors repo;
           nice_commits := newCommits;
           nice_averageAdditions := averageAdditions repo;
           nice_averageDeletions := averageDeletions repo;
           people := newPeople |} ].

(** Lines 184-272; there is no [try] around the body. *)
Definition updateNiceData (w : World) (companyId : Z) : M unit :=
  answer <- select_single w companyId ;;
  match error answer, data answer with
  | None, Some company =>
      match scraped_data company with
      | None => console_error "No scraped_data available in the company record."
      | Some scrapedData =>
          niceData <- for_of (niceRepo w) scrapedData ;;
          updateError <- update_eq w companyId (Nice niceData) ;;
          match updateError with
          | Some _ => console_error "Error updating company record with nice_data:"
          | None => ret tt
          end
      end
  | _, _ => console_error "Error fetching company data:"
  end.

End UpdateNiceData.

(** ** Notions used to state the properties *)

(** The stats tuples of those among the first three commits that carry
    one. *)
Fixpoint statsOf (cs : list CommitData) : list Stats :=
  match cs with
  | [] => []
  | c :: rest =>
      match stats c with
      | Some st => st :: statsOf rest
      | None => statsOf rest
      end
  end.

Definition qualifying (commitsData : list CommitData) : list Stats :=
  statsOf (slice0 3 commitsData).

Definition sumOf (field : Stats -> Z) (sts : list Stats) : Z :=
  foldr (fun st acc => field st + acc) 0 sts.

(** The blocks of the commits [cs], numbered from [index + 1]. *)
Fixpoint commitBlocks (index : nat) (cs : list CommitData) : string :=
  match cs with
  | [] => ""
  | c :: rest => commitBlock index c +:+ commitBlocks (S index) rest
  end.

(** The first non-empty segment of a path, read off the path from the left:
    leading slashes are skipped and the segment runs up to the next slash. *)
Fixpoint skipSlashes (path : string) : string :=
  match path with
  | String c rest => if Ascii.eqb c "/" then skipSlashes rest else path
  | "" => ""
  end.

Fixpoint uptoSlash (path : string) : string :=
  match path with
  | String c rest => if Ascii.eqb c "/" then "" else String c (uptoSlash rest)
  | "" => ""
  end.

Definition firstSegment (path : string) : option string :=
  match skipSlashes path with
  | "" => None
  | rest => Some (uptoSlash rest)
  end.

(** [true] when no character of [s] is a slash. *)
Fixpoint noSlash (s : string) : bool :=
  match s with
  | String c rest => negb (Ascii.eqb c "/") && noSlash rest
  | "" => true
  end.

(** Descending star counts, neighbour by neighbour. *)
Fixpoint descending (arr : list RepoData) : Prop :=
  match arr with
  | a :: (b :: _) as rest => stars a >= stars b /\ descending rest
  | _ => True
  end.

(** The character of [s] at [i]. *)
Definition charAt (i : nat) (s : string) : option ascii := String.get i s.

(** The suffix of [s] from position [n] on. *)
Fixpoint str_drop (n : nat) (s : string) : string :=
  match n, s with
  | S n', String _ s' => str_drop n' s'
  | _, _ => s
  end.

(** ** Sample worlds *)

(** A reader of plain URLs [scheme://authority/path?query#fragment]: the
    path up to the first [?] or [#], and [/] when there is none.  It stands
    in for the platform's parser on URLs that need no normalisation. *)
Fixpoint afterScheme (url : string) : option string :=
  match url with
  | String ":" (String "/" (String "/" rest)) => Some rest
  | String _ rest => afterScheme rest
  | "" => None
  end.

Fixpoint pathOf (afterAuthority : bool) (s : string) : string :=
  match s with
  | "" => ""
  | String c rest =>
      if Ascii.eqb c "?" || Ascii.eqb c "#" then ""
      else if afterAuthority then String c (pathOf true rest)
      else if Ascii.eqb c "/" then String c (pathOf true rest)
      else pathOf false rest
  end.

Definition plainPathname (url : string) : option string :=
  match afterScheme url with
  | None => None
  | Some rest =>
      match pathOf false rest with
      | "" => Some "/"
      | path => Some path
      end
  end.

(** [single()] on a table read without fault: the row, or an error when no
    row has the [id]. *)
Definition singleRow (table : gmap Z Company) (id : Z) : SelectAnswer :=
  match table !! id with
  | Some row => {| data := Some row; error := None |}
  | None => {| data := None; error := Some "PGRST116" |}
  end.

(** The store answers; every call to a service throws. *)
Definition servicesDown : World :=
  {| URL_pathname := plainPathname;
     db_select := fun _ table id => singleRow table id;
     db_update := fun _ _ _ => None;
     listForOrg := fun _ _ => Thrown "ECONNRESET";
     listContributors := fun _ _ _ => Thrown "ECONNRESET";
     getByUsername := fun _ _ => Thrown "ECONNRESET";
     listCommits := fun _ _ _ => Thrown "ECONNRESET";
     getCommit := fun _ _ _ _ => Thrown "ECONNRESET";
     listForUser := fun _ _ => Thrown "ECONNRESET";
     listLanguages := fun _ _ _ => Thrown "ECONNRESET";
     chatCompletion := fun _ _ => Thrown "ECONNRESET" |}.

Definition elastic : Company :=
  {| company_name := "Elastic"; website := "https://github.com/elastic/";
     manager_name := None; scraped_data := None; nice_data := None;
     email := None |}.

(** The services answer for one organization: three repositories with 10,
    50 and 5 stars, one contributor, four commits of which the third comes
    without stats and the fourth cannot be fetched. *)
Definition detailOf (commitSha : string) : Result CommitDetails :=
  if String.eqb commitSha "c1" then
    Ok (mkDetails (Some "ada") None "first" (Some [mkFile "a.js" (Some "+x")])
          (Some (mkStats 10 2 12)))
  else if String.eqb commitSha "c2" then
    Ok (mkDetails None (Some "Bob") "second" (Some [mkFile "b.png" None])
          (Some (mkStats 20 4 24)))
  else if String.eqb commitSha "c3" then
    Ok (mkDetails None None "third" None None)
  else Thrown "Not Found".

Definition servicesUp : World :=
  {| URL_pathname := plainPathname;
     db_select := fun _ table id => singleRow table id;
     db_update := fun _ _ _ => None;
     listForOrg := fun _ _ =>
       Ok [mkOrgRepo "kibana" "https://github.com/elastic/kibana" 10;
           mkOrgRepo "elasticsearch" "https://github.com/elastic/elasticsearch" 50;
           mkOrgRepo "logstash" "https://github.com/elastic/logstash" 5];
     listContributors := fun _ _ _ => Ok ["ada"];
     getByUsername := fun _ _ => Ok (mkUser (Some "Ada L") None);
     listCommits := fun _ _ _ => Ok ["c1"; "c2"; "c3"; "c4"];
     getCommit := fun _ _ _ commitSha => detailOf commitSha;
     listForUser := fun _ _ => Ok [];
     listLanguages := fun _ _ _ => Ok [];
     chatCompletion := fun _ _ => Ok (Some " Go, Rust ,, C ") |}.

(** A company whose website is not a URL. *)
Definition noWebsite : Company :=
  {| company_name := "Nowhere"; website := "n/a";
     manager_name := None; scraped_data := None; nice_data := None;
     email := None |}.

Definition start (table : gmap Z Company) : State :=
  {| store := table; calls := []; errors := [] |}.

(** A lookup behind [getTechnologiesForContributor author] fails, the calls
    made before being [h]: the profile fetch throws, or the repository fetch,
    or the fetch of the languages of the first repository, or the call to
    the generation service. *)
Inductive LookupFails (w : World) (author : string) (h : list Call) : Prop :=
| profile_fetch_fails (err : string) :
    getByUsername w h author = Thrown err ->
    LookupFails w author h
| repository_fetch_fails (user : User) (err : string) :
    getByUsername w h author = Ok user ->
    listForUser w (h ++ [GetByUsername author]) author = Thrown err ->
    LookupFails w author h
| languages_fetch_fails (user : User) (topRepo : string) (others : list string) (err : string) :
    getByUsername w h author = Ok user ->
    listForUser w (h ++ [GetByUsername author]) author = Ok (topRepo :: others) ->
    listLanguages w (h ++ [GetByUsername author; ListForUser author]) author topRepo
      = Thrown err ->
    LookupFails w author h
| generation_fails_without_repository (user : User) (err : string) :
    getByUsername w h author = Ok user ->
    listForUser w (h ++ [GetByUsername author]) author = Ok [] ->
    chatCompletion w (h ++ [GetByUsername author; ListForUser author])
      (UpdateNiceData.technologiesPrompt (or_else (bio user) "") "") = Thrown err ->
    LookupFails w author h
| generation_fails (user : User) (topRepo : string) (others keys : list string) (err : string) :
    getByUsername w h author = Ok user ->
    listForUser w (h ++ [GetByUsername author]) author = Ok (topRepo :: others) ->
    listLanguages w (h ++ [GetByUsername author; ListForUser author]) author topRepo
      = Ok keys ->
    chatCompletion w
      (h ++ [GetByUsername author; ListForUser author; ListLanguages author topRepo])
      (UpdateNiceData.technologiesPrompt (or_else (bio user) "")
         (UpdateNiceData.repoInfoOf topRepo keys)) = Thrown err ->
    LookupFails w author h.

(** A computation that does not throw, and one that leaves the table as it
    is. *)
Definition returns {A} (m : M A) : Prop :=
  forall s, exists a s', m s = (Ok a, s').

Definition keeps_store {A} (m : M A) : Prop :=
  forall s, store (m s).2 = store s.

(** Every commit of the repository carries stats. *)
Definition allWithStats (repo : RepoData) : Prop :=
  Forall (fun c => is_Some (stats c)) (commits repo).

(** ** The script that runs the three stages (run-all)

    [execSync(command, { stdio: 'inherit' })] throws when the command exits
    with a status other than 0.  The oracle [exits0] tells, for the commands
    run before and the command run now, whether it exits with 0. *)

Module RunAll.

Record Outcome := mkOutcome {
  exitCode : Z;
  ran : list string;
  logged : list string;
  complained : list string
}.

(** [`npm run ${script} -- ${companyId}`]. *)
Definition command (script companyId : string) : string :=
  "npm run " +:+ script +:+ " -- " +:+ companyId.

Definition failed (ranSoFar logs : list string) : Outcome :=
  {| exitCode := 1; ran := ranSoFar; logged := logs;
     complained := ["An error occurred while executing the scripts:"] |}.

(** The script; [companyId] is [process.argv[2]]. *)
Definition main (exits0 : list string -> string -> bool) (companyId : option string)
  : Outcome :=
  match companyId with
  | None =>
      {| exitCode := 1; ran := []; logged := [];
         complained := ["Please provide a company ID as an argument."] |}
  | Some id =>
      if truthy id then
        let scrape := command "scrape" id in
        let email := command "email" id in
        let nice := command "nice" id in
        if exits0 [] scrape then
          if exits0 [scrape] email then
            if exits0 [scrape; email] nice then
              {| exitCode := 0; ran := [scrape; email; nice];
                 logged := ["Starting scrape..."; "Sending emails...";
                            "Updating nice data..."; "All scripts executed successfully."];
                 complained := [] |}
            else failed [scrape; email; nice]
                   ["Starting scrape..."; "Sending emails..."; "Updating nice data..."]
          else failed [scrape; email] ["Starting scrape..."; "Sending emails..."]
        else failed [scrape] ["Starting scrape..."]
      else
        {| exitCode := 1; ran := []; logged := [];
           complained := ["Please provide a company ID as an argument."] |}
  end.

End RunAll.

(** ** Further notions used to state properties *)

(** Descending keys, neighbour by neighbour. *)
Fixpoint descendingBy {A} (key : A -> Z) (arr : list A) : Prop :=
  match arr with
  | a :: (b :: _) as rest => key a >= key b /\ descendingBy key rest
  | _ => True
  end.

(** The commits of the details a service answers for the given commits, the
    commits it does not answer for left out. *)
Fixpoint fetched (answer : string -> Result CommitDetails) (shas : list string)
  : list CommitData :=
  match shas with
  | [] => []
  | sha :: rest =>
      match answer sha with
      | Ok d => commitRecord d :: fetched answer rest
      | Thrown _ => fetched answer rest
      end
  end.

(** The lines logged for the commits a service does not answer for. *)
Fixpoint fetchFailures (answer : string -> Result CommitDetails) (repoName : string)
    (shas : list string) : list string :=
  match shas with
  | [] => []
  | sha :: rest =>
      match answer sha with
      | Ok _ => fetchFailures answer repoName rest
      | Thrown _ =>
          ("Error fetching details for commit " +:+ sha +:+ " in repo " +:+ repoName +:+ ":")
          :: fetchFailures answer repoName rest
      end
  end.

(** A commit with its diff cut after 200 characters. *)
Definition cutDiff (c : CommitData) : CommitData :=
  {| message := message c; author := author c;
     diff := str_slice0 200 (diff c); stats := stats c |}.

(** A repository with its commits replaced. *)
Definition withCommits (r : RepoData) (cs : list CommitData) : RepoData :=
  {| name := name r; link := link r; stars := stars r;
     top50contributors := top50contributors r; repo_commits := Some cs;
     averageAdditions := averageAdditions r; averageDeletions := averageDeletions r |}.

(** The calls a computation makes all satisfy [P]: it appends to the calls
    made before, and what it appends is in [P]. *)
Definition emits {A} (P : Call -> Prop) (m : M A) : Prop :=
  forall s, exists new, calls (m s).2 = (calls s ++ new)%list /\ Forall P new.

(** Calls to the repository service. *)
Definition isRepositoryCall (c : Call) : Prop :=
  match c with
  | ListForOrg _ | ListContributors _ _ | GetByUsername _ | ListCommits _ _
  | GetCommit _ _ _ | ListForUser _ | ListLanguages _ _ => True
  | _ => False
  end.

Definition isChat (c : Call) : Prop :=
  match c with ChatCompletion _ => True | _ => False end.

Definition isStoreCall (c : Call) : Prop :=
  match c with DbSelect _ | DbUpdate _ _ => True | _ => False end.

(** A repository of the service and the repository stored for it. *)
Definition storedFor (repo : OrgRepo) (r : RepoData) : Prop :=
  name r = repo_name repo /\ link r = html_url repo /\ stars r = stargazers_count repo.

(** A repository as scrape.ts stores it: no averages, and commits without
    message and stats. *)
Definition bare (r : RepoData) : Prop :=
  averageAdditions r = None /\ averageDeletions r = None
  /\ Forall (fun c => stats c = None /\ message c = None) (commits r).

(** The generation service gives no usable text for the call after the calls
    [h]: it throws, or its text is [null], or nothing but spaces. *)
Definition noText (w : World) (h : list Call) : Prop :=
  forall prompt,
    (exists err, chatCompletion w h prompt = Thrown err)
    \/ chatCompletion w h prompt = Ok None
    \/ exists text, chatCompletion w h prompt = Ok (Some text) /\ trim text = "".

(** The person stored for an author: of that name, built by one round of the
    loop over the authors, and with no technologies when a lookup behind
    [getTechnologiesForContributor] fails during that round. *)
Definition personFor (w : World) (author : string) (p : Person) : Prop :=
  username p = author
  /\ ((forall h, LookupFails w author h) -> technologies p = [])
  /\ exists s1 s2,
       UpdateNiceData.processAuthor w author s1 = (Ok [p], s2)
       /\ (LookupFails w author (calls s1) -> technologies p = []).

(** A repository of [scraped_data] and the one stored for it in [nice_data]:
    one person per distinct author of its commits, in the order of their
    first commits. *)
Definition enriched (w : World) (repo : RepoData) (newRepo : NiceRepo) : Prop :=
  let authors := map author (commits repo) in
  map username (people newRepo) = UpdateNiceData.Set_of authors
  /\ Forall2 (personFor w) (UpdateNiceData.Set_of authors) (people newRepo).

(** A call that is not an update of the table. *)
Definition noUpdate (c : Call) : Prop :=
  match c with
  | DbUpdate _ _ => False
  | _ => True
  end.

(** A commit and the commit stored for it in [nice_data]. *)
Definition niceFor (c : CommitData) (nc : NiceCommit) : Prop :=
  nice_message nc = message c /\ nice_author nc = author c /\ nice_stats nc = stats c
  /\ summary nc <> "" /\ messageSummary nc <> ""
  /\ (diff c = "" -> summary nc = "No diff available.")
  /\ (message c = None \/ message c = Some "" ->
      messageSummary nc = "No message available.").

(** The table [after] differs from the table [before] at most in the column
    [col] of the row [id]: no row is added or removed, the other rows are the
    same, and so are the other columns of the row. *)
Definition onlyColumn (col : string) (id : Z) (before after : gmap Z Company) : Prop :=
  (forall k, k <> id -> after !! k = before !! k)
  /\ match before !! id, after !! id with
     | Some b, Some a =>
         company_name a = company_name b /\ website a = website b
         /\ manager_name a = manager_name b
         /\ (col <> "scraped_data" -> scraped_data a = scraped_data b)
         /\ (col <> "nice_data" -> nice_data a = nice_data b)
         /\ (col <> "email" -> email a = email b)
     | None, None => True
     | _, _ => False
     end.

(** The calls each stage may make for the company [id]. *)
Definition scrapeCall (id : Z) (c : Call) : Prop :=
  match c with
  | DbSelect i => i = id
  | DbUpdate i col => i = id /\ col = "scraped_data"
  | ListForOrg _ | ListContributors _ _ | GetByUsername _ | ListCommits _ _
  | GetCommit _ _ _ => True
  | ListForUser _ | ListLanguages _ _ | ChatCompletion _ => False
  end.

Definition scrapeTsCall (id : Z) (c : Call) : Prop :=
  match c with
  | DbSelect i => i = id
  | DbUpdate i col => i = id /\ col = "scraped_data"
  | ListForOrg _ | ListContributors _ _ | ListCommits _ _ | GetCommit _ _ _ => True
  | GetByUsername _ | ListForUser _ | ListLanguages _ _ | ChatCompletion _ => False
  end.

Definition emailCall (id : Z) (c : Call) : Prop :=
  match c with
  | DbSelect i => i = id
  | DbUpdate i col => i = id /\ col = "email"
  | ChatCompletion _ => True
  | _ => False
  end.

Definition niceCall (id : Z) (c : Call) : Prop :=
  match c with
  | DbSelect i => i = id
  | DbUpdate i col => i = id /\ col = "nice_data"
  | GetByUsername _ | ListForUser _ | ListLanguages _ _ | ChatCompletion _ => True
  | ListForOrg _ | ListContributors _ _ | ListCommits _ _ | GetCommit _ _ _ => False
  end.

(** The digest [generateEmail] puts in its prompt for a company. *)
Definition dataSummaryOf (company : Company) : string :=
  match scraped_data company with
  | Some arr => (EmailJs.summarizeScrapedData {[ 0%nat := arr ]} (JsArray 0%nat)).2
  | None => "No repository data available."
  end.

(** Line 113: the prompt [summarizeCommitDiff] sends for a diff. *)
Definition diffPrompt (diffText : string) : string :=
  "Summarize the following commit diff in simple, nontechnical language suitable for a manager, highlighting the key improvements or changes:" +:+
  nl +:+ nl +:+ diffText +:+ nl +:+ nl +:+ "Summary:".

(** [true] when no character of [s] is a comma. *)
Fixpoint noComma (s : string) : bool :=
  match s with
  | String c rest => negb (Ascii.eqb c ",") && noComma rest
  | "" => true
  end.

(** A technology as it can be an entry of a comma-separated list: not empty,
    no space at either end, no comma. *)
Definition entry (t : string) : Prop :=
  t <> "" /\ trimStart t = t /\ trimEnd t = t /\ noComma t = true.

(** The services up, the generation service answering [text]. *)
Definition answering (text : string) : World :=
  {| URL_pathname := plainPathname;
     db_select := fun _ table id => singleRow table id;
     db_update := fun _ _ _ => None;
     listForOrg := listForOrg servicesUp;
     listContributors := listContributors servicesUp;
     getByUsername := getByUsername servicesUp;
     listCommits := listCommits servicesUp;
     getCommit := getCommit servicesUp;
     listForUser := fun _ _ => Ok ["notes"];
     listLanguages := fun _ _ _ => Ok ["Go"; "Shell"];
     chatCompletion := fun _ _ => Ok (Some text) |}.

(** * Properties *)

(** Reading the properties of a repository built with [mkRepo]. *)
Ltac open_repo :=
  unfold mkRepo, commits;
  cbn [repo_commits name link stars top50contributors averageAdditions averageDeletions].

(** ** Numbers and strings *)

Lemma round_div_nearest (a n : Z) :
  n > 0 -> - n < 2 * (n * round_div a n - a) <= n.
Proof.
  intros Hn. unfold round_div.
  pose proof (Z.mul_div_le (2 * a + n) (2 * n) ltac:(lia)).
  pose proof (Z.mul_succ_div_gt (2 * a + n) (2 * n) ltac:(lia)).
  lia.
Qed.

Lemma sumStats_from (cs : list CommitData) (t : Totals) :
  fold_left addStats cs t =
    {| totalAdditions := totalAdditions t + sumOf additions (statsOf cs);
       totalDeletions := totalDeletions t + sumOf deletions (statsOf cs);
       countStats := countStats t + Z.of_nat (length (statsOf cs)) |}.
Proof.
  revert t. induction cs as [|c cs IH]; intros t; simpl.
  - destruct t; simpl. f_equal; lia.
  - rewrite IH. unfold addStats. destruct (stats c) as [st|]; simpl.
    + f_equal; lia.
    + reflexivity.
Qed.

Lemma sumStats_qualifying (cs : list CommitData) :
  sumStats (slice0 3 cs) =
    {| totalAdditions := sumOf additions (qualifying cs);
       totalDeletions := sumOf deletions (qualifying cs);
       countStats := Z.of_nat (length (qualifying cs)) |}.
Proof. unfold sumStats. rewrite sumStats_from. reflexivity. Qed.

Lemma str_app_cons (ch : ascii) (a b : string) :
  String ch a +:+ b = String ch (a +:+ b).
Proof. reflexivity. Qed.

Lemma str_app_nil_l (b : string) : "" +:+ b = b.
Proof. reflexivity. Qed.

Lemma str_app_assoc (a b c : string) : (a +:+ b) +:+ c = a +:+ (b +:+ c).
Proof.
  induction a as [|ch a IH]; [reflexivity|].
  rewrite !str_app_cons. f_equal. exact IH.
Qed.

Lemma str_app_nil_r (a : string) : a +:+ "" = a.
Proof.
  induction a as [|ch a IH]; [reflexivity|].
  rewrite str_app_cons. f_equal. exact IH.
Qed.

Lemma str_length_app (a b : string) :
  String.length (a +:+ b) = (String.length a + String.length b)%nat.
Proof.
  induction a as [|ch a IH]; [reflexivity|].
  rewrite str_app_cons. simpl. f_equal. exact IH.
Qed.

Lemma str_drop_app (a b : string) : str_drop (String.length a) (a +:+ b) = b.
Proof.
  induction a as [|ch a IH]; [now destruct b|].
  rewrite str_app_cons. simpl. exact IH.
Qed.

(** A string that ends with [t] has [t] as the suffix of that length. *)
Lemma str_suffix_drop (s a t : string) :
  s = a +:+ t -> str_drop (String.length s - String.length t) s = t.
Proof.
  intros ->. rewrite str_length_app.
  replace (String.length a + String.length t - String.length t)%nat
    with (String.length a) by lia.
  apply str_drop_app.
Qed.

Lemma str_slice0_length (n : nat) (s : string) :
  String.length (str_slice0 n s) = Nat.min n (String.length s).
Proof.
  revert s. induction n as [|n IH]; intros [|c s]; simpl; try reflexivity.
  now rewrite IH.
Qed.

Lemma replace_newlines_length (s : string) :
  String.length (replace_newlines s) = String.length s.
Proof. induction s as [|c s IH]; simpl; [reflexivity | now rewrite IH]. Qed.

Lemma str_slice0_get (n i : nat) (s : string) :
  charAt i (str_slice0 n s) = if (i <? n)%nat then charAt i s else None.
Proof.
  unfold charAt. revert i s. induction n as [|n IH]; intros i s.
  - simpl. now destruct s.
  - destruct s as [|c s]; simpl.
    + now destruct (i <? S n)%nat.
    + destruct i as [|i]; [reflexivity|]. rewrite IH. reflexivity.
Qed.

Lemma replace_newlines_get (i : nat) (s : string) :
  charAt i (replace_newlines s) =
    (fun c => if Ascii.eqb c LF then " "%char else c) <$> charAt i s.
Proof.
  unfold charAt. revert i. induction s as [|c s IH]; intros i; simpl.
  - reflexivity.
  - destruct i as [|i]; [reflexivity | apply IH].
Qed.

(** ** Reasoning about stages *)

Create HintDb stage discriminated.

Lemma returns_ret {A} (a : A) : returns (ret a).
Proof. intros s. now exists a, s. Qed.

Lemma returns_console_error (line : string) : returns (console_error line).
Proof. intros s. now eexists _, _. Qed.

Lemma returns_bind {A B} (m : M A) (k : A -> M B) :
  returns m -> (forall a, returns (k a)) -> returns (bind m k).
Proof.
  intros Hm Hk s. destruct (Hm s) as (a & s1 & Hms).
  destruct (Hk a s1) as (b & s2 & Hks).
  exists b, s2. unfold bind. now rewrite Hms.
Qed.

Lemma returns_try_catch {A} (m : M A) (handler : string -> M A) :
  (forall err, returns (handler err)) -> returns (try_catch m handler).
Proof.
  intros Hh s. unfold try_catch. destruct (m s) as [[a|err] s1].
  - now exists a, s1.
  - apply Hh.
Qed.

Lemma returns_for_of {A B} (body : A -> M (list B)) (xs : list A) :
  (forall x, returns (body x)) -> returns (for_of body xs).
Proof.
  intros Hbody. induction xs as [|x rest IH]; simpl.
  - apply returns_ret.
  - apply returns_bind; [apply Hbody|]. intros pushed.
    apply returns_bind; [exact IH|]. intros more. apply returns_ret.
Qed.

Lemma keeps_ret {A} (a : A) : keeps_store (ret a).
Proof. now intros s. Qed.

Lemma keeps_throw {A} (err : string) : keeps_store (@throw A err).
Proof. now intros s. Qed.

Lemma keeps_console_error (line : string) : keeps_store (console_error line).
Proof. now intros s. Qed.

Lemma keeps_await {A} (c : Call) (answer : list Call -> Result A) :
  keeps_store (await c answer).
Proof. now intros s. Qed.

Lemma keeps_bind {A B} (m : M A) (k : A -> M B) :
  keeps_store m -> (forall a, keeps_store (k a)) -> keeps_store (bind m k).
Proof.
  intros Hm Hk s. unfold bind. specialize (Hm s).
  destruct (m s) as [[a|err] s1]; simpl in Hm |- *.
  - now rewrite Hk.
  - exact Hm.
Qed.

Lemma keeps_try_catch {A} (m : M A) (handler : string -> M A) :
  keeps_store m -> (forall err, keeps_store (handler err)) ->
  keeps_store (try_catch m handler).
Proof.
  intros Hm Hh s. unfold try_catch. specialize (Hm s).
  destruct (m s) as [[a|err] s1]; simpl in Hm |- *.
  - exact Hm.
  - now rewrite Hh.
Qed.

Lemma keeps_for_of {A B} (body : A -> M (list B)) (xs : list A) :
  (forall x, keeps_store (body x)) -> keeps_store (for_of body xs).
Proof.
  intros Hbody. induction xs as [|x rest IH]; simpl.
  - apply keeps_ret.
  - apply keeps_bind; [apply Hbody|]. intros pushed.
    apply keeps_bind; [exact IH|]. intros more. apply keeps_ret.
Qed.

#[local] Hint Resolve returns_ret returns_console_error returns_bind
  returns_try_catch returns_for_of keeps_ret keeps_throw keeps_console_error
  keeps_await keeps_bind keeps_try_catch keeps_for_of : stage.

(** One step of a computation. *)
Lemma bind_ret {A B} (a : A) (k : A -> M B) (s : State) : bind (ret a) k s = k a s.
Proof. reflexivity. Qed.

Lemma bind_bind {A B C} (m : M A) (f : A -> M B) (k : B -> M C) (s : State) :
  bind (bind m f) k s = bind m (fun a => bind (f a) k) s.
Proof. unfold bind. now destruct (m s) as [[a|err] s1]. Qed.

Lemma bind_await {A B} (c : Call) (answer : list Call -> Result A) (k : A -> M B)
    (s : State) :
  bind (await c answer) k s =
    match answer (calls s) with
    | Ok a => k a {| store := store s; calls := calls s ++ [c]; errors := errors s |}
    | Thrown err =>
        (Thrown err, {| store := store s; calls := calls s ++ [c]; errors := errors s |})
    end.
Proof. unfold bind, await. now destruct (answer (calls s)). Qed.

(** What a loop pushes satisfies what each round's pushes satisfy. *)
Lemma for_of_Forall {A B} (P : B -> Prop) (body : A -> M (list B)) (xs : list A) :
  (forall x s pushed s', body x s = (Ok pushed, s') -> Forall P pushed) ->
  forall s all s', for_of body xs s = (Ok all, s') -> Forall P all.
Proof.
  intros Hbody. induction xs as [|x rest IH]; intros s all s' Hrun; simpl in Hrun.
  - inversion Hrun. constructor.
  - unfold bind in Hrun. destruct (body x s) as [[pushed|err] s1] eqn:Hx; [|discriminate].
    destruct (for_of body rest s1) as [[more|err] s2] eqn:Hrest; [|discriminate].
    inversion Hrun; subst. apply Forall_app. split.
    + eapply Hbody, Hx.
    + eapply IH, Hrest.
Qed.

(** A loop whose rounds each push one element pushes one per round. *)
Lemma for_of_one_each {A B} (R : A -> B -> Prop) (body : A -> M (list B)) (xs : list A) :
  (forall x s, exists y s', body x s = (Ok [y], s') /\ R x y) ->
  forall s, exists ys s', for_of body xs s = (Ok ys, s') /\ Forall2 R xs ys.
Proof.
  intros Hbody. induction xs as [|x rest IH]; intros s; simpl.
  - exists [], s. split; [reflexivity | constructor].
  - destruct (Hbody x s) as (y & s1 & Hx & HR).
    destruct (IH s1) as (ys & s2 & Hrest & HRs).
    exists (y :: ys), s2. unfold bind. rewrite Hx, Hrest. split; [reflexivity|].
    now constructor.
Qed.

Lemma averages_of_qualifying (cs : list CommitData) :
  averages cs =
    (if decide (Z.of_nat (length (qualifying cs)) > 0)
     then (round_div (sumOf additions (qualifying cs)) (Z.of_nat (length (qualifying cs))),
           round_div (sumOf deletions (qualifying cs)) (Z.of_nat (length (qualifying cs))))
     else (0, 0)).
Proof.
  unfold averages. cbv zeta. rewrite sumStats_qualifying. simpl.
  destruct (decide _); reflexivity.
Qed.

(** A loop whose rounds push at most one element each. *)
Lemma for_of_length {A B} (body : A -> M (list B)) (xs : list A) :
  (forall x s pushed s', body x s = (Ok pushed, s') -> (length pushed <= 1)%nat) ->
  forall s all s', for_of body xs s = (Ok all, s') -> (length all <= length xs)%nat.
Proof.
  intros Hbody. induction xs as [|x rest IH]; intros s all s' Hrun; simpl in Hrun.
  - inversion Hrun. simpl. lia.
  - unfold bind in Hrun. destruct (body x s) as [[pushed|err] s1] eqn:Hx; [|discriminate].
    destruct (for_of body rest s1) as [[more|err] s2] eqn:Hrest; [|discriminate].
    inversion Hrun; subst. rewrite length_app. simpl.
    specialize (Hbody _ _ _ _ Hx). specialize (IH _ _ _ Hrest). lia.
Qed.

(** ** The averages of a repository *)

(** C1.  The averages of scrape.js are taken over the commits among the first
    three that carry stats: the sums of their additions and deletions divided
    by their number and rounded to the nearest integer, and (0, 0) when there
    is no such commit.  Commits (+10,-2), (+20,-4) and one without stats give
    (15, 3). *)
Theorem averages_over_qualifying (commitsData : list CommitData) :
  let q := qualifying commitsData in
  let n := Z.of_nat (length q) in
  let avg := averages commitsData in
  avg = (if decide (n > 0)
         then (round_div (sumOf additions q) n, round_div (sumOf deletions q) n)
         else (0, 0))
  /\ Z.abs (2 * (n * avg.1 - sumOf additions q)) <= n
  /\ Z.abs (2 * (n * avg.2 - sumOf deletions q)) <= n
  /\ averages commitsData = averages (slice0 3 commitsData)
  /\ (forall m1 m2 m3 a1 a2 a3 d1 d2 d3 t1 t2 later,
        averages (mkCommit m1 a1 d1 (Some (mkStats 10 2 t1))
                  :: mkCommit m2 a2 d2 (Some (mkStats 20 4 t2))
                  :: mkCommit m3 a3 d3 None :: later) = (15, 3)).
Proof.
  cbv zeta.
  pose proof (averages_of_qualifying commitsData) as Havg.
  set (q := qualifying commitsData) in *. set (n := Z.of_nat (length q)) in *.
  split; [exact Havg|]. rewrite Havg.
  split; [|split; [|split]].
  - destruct (decide (n > 0)) as [Hn|Hn]; simpl.
    + pose proof (round_div_nearest (sumOf additions q) n Hn). lia.
    + assert (n = 0) as Hz by lia. destruct q; [simpl; lia | simpl in n; lia].
  - destruct (decide (n > 0)) as [Hn|Hn]; simpl.
    + pose proof (round_div_nearest (sumOf deletions q) n Hn). lia.
    + assert (n = 0) as Hz by lia. destruct q; [simpl; lia | simpl in n; lia].
  - rewrite <- Havg. unfold averages, slice0. rewrite take_take. reflexivity.
  - intros. reflexivity.
Qed.

(** ** The diff text of a commit *)

(** C7, the counterexample.  A file whose patch is the empty string is
    rendered as a file without patch, not as [File: f], a line feed, the
    (empty) patch and a line feed. *)
Lemma empty_patch_rendered_as_missing :
  let d := mkDetails (Some "octocat") None "touch" (Some [mkFile "f" (Some "")]) None in
  diffText d = "File: f (no patch available)" +:+ nl
  /\ diffText d <> "File: " +:+ "f" +:+ nl +:+ "" +:+ nl.
Proof. split; [reflexivity | discriminate]. Qed.

(** C7, amended.  With at least one changed file the diff text is the blocks
    of the files joined by a line feed, which leaves an empty line between
    two blocks since each block ends with a line feed; the block of a file is
    [File: <filename>], a line feed, the patch and a line feed when the patch
    is a non-empty string, and [File: <filename> (no patch available)] and a
    line feed when the patch is missing or empty; without changed files the
    text is the sentinel. *)
Theorem diffText_blocks (d : CommitDetails) :
  (forall f fs, files d = Some (f :: fs) ->
     diffText d = join nl (map renderFile (f :: fs)))
  /\ (files d = None \/ files d = Some [] ->
      diffText d = "No file changes found for this commit.")
  /\ (forall file p, patch file = Some p -> p <> "" ->
      renderFile file = "File: " +:+ filename file +:+ nl +:+ p +:+ nl)
  /\ (forall file, patch file = None \/ patch file = Some "" ->
      renderFile file = "File: " +:+ filename file +:+ " (no patch available)" +:+ nl)
  /\ (forall b1 b2 bs, join nl (b1 :: b2 :: bs) = b1 +:+ nl +:+ join nl (b2 :: bs)).
Proof.
  repeat split.
  - intros f fs Hf. unfold diffText. now rewrite Hf.
  - intros [Hf|Hf]; unfold diffText; now rewrite Hf.
  - intros file p Hp Hne. unfold renderFile. rewrite Hp.
    destruct p; [congruence | reflexivity].
  - intros file [Hp|Hp]; unfold renderFile; now rewrite Hp.
Qed.

(** The example of the specification: a file with a patch and one without. *)
Lemma diffText_blocks_witness :
  diffText (mkDetails None (Some "Ada") "fix"
              (Some [mkFile "a.js" (Some "+x"); mkFile "b.png" None]) None)
  = "File: a.js" +:+ nl +:+ "+x" +:+ nl +:+ nl +:+
    "File: b.png (no patch available)" +:+ nl.
Proof.
  destruct (diffText_blocks (mkDetails None (Some "Ada") "fix"
              (Some [mkFile "a.js" (Some "+x"); mkFile "b.png" None]) None))
    as (Hjoin & _ & Hpatch & Hnone & Hsep).
  rewrite (Hjoin _ _ eq_refl). simpl map. rewrite Hsep.
  rewrite (Hpatch (mkFile "a.js" (Some "+x")) "+x" eq_refl ltac:(discriminate)).
  rewrite (Hnone (mkFile "b.png" None) (or_introl eq_refl)).
  reflexivity.
Defined.

(** ** The digest *)

Lemma forEach_includeCommit (cs : list CommitData) (index : nat) (text : string) (t : Totals) :
  forEach_from ScrapeJs.includeCommit index cs (text, t) =
    (text +:+ commitBlocks index cs, fold_left addStats cs t).
Proof.
  revert index text t. induction cs as [|c cs IH]; intros index text t; simpl.
  - now rewrite str_app_nil_r.
  - change (ScrapeJs.includeCommit (text, t) c index)
      with (text +:+ commitBlock index c, addStats t c).
    rewrite IH. now rewrite str_app_assoc.
Qed.

Lemma forEach_includeCommit_email (cs : list CommitData) (index : nat) (text : string) :
  forEach_from EmailJs.includeCommit index cs text = text +:+ commitBlocks index cs.
Proof.
  revert index text. induction cs as [|c cs IH]; intros index text; simpl.
  - now rewrite str_app_nil_r.
  - unfold EmailJs.includeCommit at 2. rewrite IH. now rewrite str_app_assoc.
Qed.

(** The digest of scrape.js, written from left to right. *)
Lemma digest_text (topRepo : RepoData) :
  ScrapeJs.digest topRepo =
    digestHeader topRepo +:+
    match commits topRepo with
    | [] => ""
    | _ :: _ =>
        "Top 3 Recent Commits:" +:+ nl +:+
        commitBlocks 0 (slice0 3 (commits topRepo)) +:+
        let q := qualifying (commits topRepo) in
        let n := Z.of_nat (length q) in
        if decide (n > 0)
        then averageLine (round_div (sumOf additions q) n) (round_div (sumOf deletions q) n)
        else ""
    end.
Proof.
  unfold ScrapeJs.digest. cbv zeta.
  destruct (commits topRepo) as [|c cs] eqn:Hcs; [now rewrite str_app_nil_r|].
  unfold forEach. rewrite forEach_includeCommit.
  fold (sumStats (slice0 3 (c :: cs))). rewrite sumStats_qualifying.
  simpl totalAdditions. simpl totalDeletions. simpl countStats.
  destruct (decide _).
  - now rewrite !str_app_assoc.
  - now rewrite !str_app_assoc, str_app_nil_r.
Qed.

(** The digest of email.js, written from left to right. *)
Lemma digest_text_email (topRepo : RepoData) :
  EmailJs.digest topRepo =
    digestHeader topRepo +:+
    match commits topRepo with
    | [] => ""
    | _ :: _ =>
        "Top 3 Recent Commits:" +:+ nl +:+ commitBlocks 0 (slice0 3 (commits topRepo))
    end +:+
    match averageAdditions topRepo, averageDeletions topRepo with
    | Some avgAdditions, Some avgDeletions => averageLine avgAdditions avgDeletions
    | _, _ => ""
    end.
Proof.
  unfold EmailJs.digest. cbv zeta.
  destruct (commits topRepo) as [|c cs] eqn:Hcs.
  - destruct (averageAdditions topRepo), (averageDeletions topRepo);
      now rewrite ?str_app_assoc, ?str_app_nil_r.
  - unfold forEach. rewrite forEach_includeCommit_email.
    destruct (averageAdditions topRepo), (averageDeletions topRepo);
      now rewrite ?str_app_assoc, ?str_app_nil_r.
Qed.

(** ** Sorting by stars *)

Lemma sort_insert_perm {A} (compare : A -> A -> Z) (a : A) (sorted : list A) :
  Permutation (a :: sorted) (sort_insert compare a sorted).
Proof.
  induction sorted as [|b rest IH]; simpl.
  - reflexivity.
  - destruct (decide (compare a b <= 0)); [reflexivity|].
    etransitivity; [apply perm_swap|]. now apply perm_skip.
Qed.

Lemma Array_sort_perm {A} (compare : A -> A -> Z) (arr : list A) :
  Permutation arr (Array_sort compare arr).
Proof.
  induction arr as [|a rest IH]; simpl.
  - reflexivity.
  - etransitivity; [|apply sort_insert_perm]. now apply perm_skip.
Qed.

Lemma sort_insert_descending (a : RepoData) (sorted : list RepoData) :
  descending sorted -> descending (sort_insert byStars a sorted).
Proof.
  induction sorted as [|b rest IH]; intros Hd; simpl.
  - exact I.
  - unfold byStars at 1. destruct (decide (stars b - stars a <= 0)) as [Hle|Hgt].
    + split; [lia | exact Hd].
    + destruct rest as [|c rest'].
      * simpl. split; [lia | exact I].
      * destruct Hd as [Hbc Hd]. specialize (IH Hd).
        simpl sort_insert in IH |- *.
        destruct (decide (byStars a c <= 0)) as [Hc|Hc]; unfold byStars in Hc.
        -- split; [lia | exact IH].
        -- split; [lia | exact IH].
Qed.

Lemma Array_sort_descending (arr : list RepoData) :
  descending (Array_sort byStars arr).
Proof.
  induction arr as [|a rest IH]; simpl; [exact I|].
  now apply sort_insert_descending.
Qed.

Lemma Array_sort_sorted_id (arr : list RepoData) :
  descending arr -> Array_sort byStars arr = arr.
Proof.
  induction arr as [|a rest IH]; intros Hd; [reflexivity|].
  simpl. destruct rest as [|b rest'].
  - reflexivity.
  - destruct Hd as [Hab Hd]. rewrite (IH Hd). simpl. unfold byStars.
    destruct (decide (stars b - stars a <= 0)); [reflexivity | lia].
Qed.

(** Repositories with equal stars keep their order. *)
Lemma sort_insert_stable (k : Z) (a : RepoData) (sorted : list RepoData) :
  List.filter (fun r => stars r =? k) (sort_insert byStars a sorted) =
  List.filter (fun r => stars r =? k) (a :: sorted).
Proof.
  induction sorted as [|b rest IH]; [reflexivity|].
  simpl sort_insert. unfold byStars at 1.
  destruct (decide (stars b - stars a <= 0)) as [Hle|Hgt]; [reflexivity|].
  simpl in IH |- *. rewrite IH.
  destruct (stars a =? k) eqn:Ha; [|reflexivity].
  destruct (stars b =? k) eqn:Hb; [lia | reflexivity].
Qed.

Lemma Array_sort_stable (k : Z) (arr : list RepoData) :
  List.filter (fun r => stars r =? k) (Array_sort byStars arr) =
  List.filter (fun r => stars r =? k) arr.
Proof.
  induction arr as [|a rest IH]; [reflexivity|].
  simpl Array_sort. rewrite sort_insert_stable. simpl. now rewrite IH.
Qed.

Lemma summarize_heap (h : Heap) (l : loc) (arr : list RepoData) :
  h !! l = Some arr ->
  (ScrapeJs.summarizeScrapedData h (JsArray l)).1 = <[l := Array_sort byStars arr]> h
  /\ (EmailJs.summarizeScrapedData h (JsArray l)).1 = <[l := Array_sort byStars arr]> h.
Proof.
  intros Hl. unfold ScrapeJs.summarizeScrapedData, EmailJs.summarizeScrapedData.
  rewrite Hl. destruct arr as [|r rs]; simpl.
  - rewrite insert_id by exact Hl. now split.
  - now split.
Qed.

(** The email stage writes the column [email] and no other: the sorting of
    the array it read does not reach the table. *)
Lemma email_stage_keeps_scraped_data (w : World) (companyId : Z) (s : State) (k : Z) :
  scraped_data <$> store (EmailJs.main w companyId s).2 !! k
  = scraped_data <$> store s !! k.
Proof.
  unfold EmailJs.main, try_catch, bind at 1, select_single. cbv beta iota.
  destruct (error _) as [e|]; [reflexivity|].
  destruct (data _) as [row|]; [|reflexivity].
  unfold bind at 1, EmailJs.generateEmail.
  destruct (scraped_data row) as [arr|]; cbv beta iota zeta;
    rewrite bind_await; cbn [calls];
    (destruct (chatCompletion w _ _) as [content|err]; [|reflexivity]);
    unfold ret, bind, update_eq; cbv beta iota;
    (destruct (db_update w _ companyId _) as [updateError|]; [reflexivity|]);
    cbn [snd store console_error];
    rewrite lookup_alter; (destruct (decide (companyId = k)) as [->|]; [|reflexivity]);
    now destruct (store s !! k).
Qed.

(** C4, the counterexample.  The array handed to [summarizeScrapedData] holds
    a repository with 1 star and then one with 2 stars; after the call it
    holds them in the other order. *)
Lemma summarize_reorders_input :
  let a := mkRepo "a" "https://github.com/o/a" 1 [] [] None None in
  let b := mkRepo "b" "https://github.com/o/b" 2 [] [] None None in
  let h : Heap := {[ 0%nat := [a; b] ]} in
  (ScrapeJs.summarizeScrapedData h (JsArray 0%nat)).1 !! 0%nat = Some [b; a]
  /\ (ScrapeJs.summarizeScrapedData h (JsArray 0%nat)).1 !! 0%nat <> h !! 0%nat.
Proof.
  cbv zeta. split.
  - vm_compute. reflexivity.
  - vm_compute. discriminate.
Qed.

(** C4, amended.  [summarizeScrapedData] sorts the array it is given in
    place: after the call the array holds the same repositories, each one
    unchanged, in descending order of stars, repositories with equal stars
    in their former order; an array that was in descending order is left as
    it was, and so is every other array of the heap.  The email stage, which
    calls the function on the array it read from the table, leaves
    [scraped_data] in the table as it was. *)
Theorem summarize_sorts_input_in_place (h : Heap) (l : loc) (arr : list RepoData) :
  h !! l = Some arr ->
  let h' := (ScrapeJs.summarizeScrapedData h (JsArray l)).1 in
  let after := Array_sort byStars arr in
  h' !! l = Some after
  /\ (EmailJs.summarizeScrapedData h (JsArray l)).1 = h'
  /\ Permutation arr after
  /\ descending after
  /\ (forall k, List.filter (fun r => stars r =? k) after =
                List.filter (fun r => stars r =? k) arr)
  /\ (descending arr -> h' = h)
  /\ (forall l', l' <> l -> h' !! l' = h !! l')
  /\ (forall w companyId s k,
        scraped_data <$> store (EmailJs.main w companyId s).2 !! k
        = scraped_data <$> store s !! k).
Proof.
  intros Hl. cbv zeta. destruct (summarize_heap h l arr Hl) as [-> ->].
  split; [apply lookup_insert_eq|].
  split; [reflexivity|].
  split; [apply Array_sort_perm|].
  split; [apply Array_sort_descending|].
  split; [intros k; apply Array_sort_stable|].
  split; [|split].
  - intros Hd. rewrite Array_sort_sorted_id by exact Hd. now apply insert_id.
  - intros l' Hne. now apply lookup_insert_ne.
  - apply email_stage_keeps_scraped_data.
Qed.

(** The array of the counterexample after the call. *)
Lemma summarize_sorts_input_in_place_witness :
  let a := mkRepo "a" "https://github.com/o/a" 1 [] [] None None in
  let b := mkRepo "b" "https://github.com/o/b" 2 [] [] None None in
  let h : Heap := {[ 0%nat := [a; b] ]} in
  (ScrapeJs.summarizeScrapedData h (JsArray 0%nat)).1 !! 0%nat
    = Some (Array_sort byStars [a; b])
  /\ Permutation [a; b] (Array_sort byStars [a; b])
  /\ descending (Array_sort byStars [a; b]).
Proof.
  cbv zeta.
  assert (({[ 0%nat := [mkRepo "a" "https://github.com/o/a" 1 [] [] None None;
                       mkRepo "b" "https://github.com/o/b" 2 [] [] None None] ]} : Heap)
            !! 0%nat
          = Some [mkRepo "a" "https://github.com/o/a" 1 [] [] None None;
                  mkRepo "b" "https://github.com/o/b" 2 [] [] None None])
    as Hl by (vm_compute; reflexivity).
  pose proof (summarize_sorts_input_in_place _ _ _ Hl) as H.
  cbv zeta in H. destruct H as (Hafter & _ & Hperm & Hdesc & _).
  split; [exact Hafter | split; [exact Hperm | exact Hdesc]].
Defined.

(** ** What the digest shows *)

Lemma summarize_single (h : Heap) (l : loc) (r : RepoData) :
  (ScrapeJs.summarizeScrapedData (<[l := [r]]> h) (JsArray l)).2 = ScrapeJs.digest r.
Proof.
  unfold ScrapeJs.summarizeScrapedData. rewrite lookup_insert_eq. reflexivity.
Qed.

Lemma summarize_single_email (h : Heap) (l : loc) (r : RepoData) :
  (EmailJs.summarizeScrapedData (<[l := [r]]> h) (JsArray l)).2 = EmailJs.digest r.
Proof.
  unfold EmailJs.summarizeScrapedData. rewrite lookup_insert_eq. reflexivity.
Qed.

(** C5.  [summarizeScrapedData] returns the sentinel for [undefined], [null],
    a value that is not an array and the empty array.  For one repository
    with five commits the text is the header, the line
    [Top 3 Recent Commits:] and the blocks of the first three commits in
    their order, numbered 1, 2, 3, each with the author and the excerpt of
    the diff; the fourth and fifth commit do not occur.  After the blocks
    scrape.js puts the line of averages when one of the three commits
    carries stats, email.js the line of the stored averages when there are
    any.  The excerpt has the length of the diff up to 200, and its
    character at each place is the one of the diff, a line feed turned into
    a space. *)
Theorem digest_of_five_commits
    (h : Heap) (l : loc) (nm lk : string) (st : Z) (contributors : list string)
    (avgA avgD : option Z) (c1 c2 c3 c4 c5 : CommitData) :
  let repo := mkRepo nm lk st contributors [c1; c2; c3; c4; c5] avgA avgD in
  let q := qualifying [c1; c2; c3] in
  let n := Z.of_nat (length q) in
  let shown :=
    ("Top Repository:" +:+ nl +:+
     "Name: " +:+ nm +:+ nl +:+
     "Stars: " +:+ show st +:+ nl +:+
     "Link: " +:+ lk +:+ nl +:+ nl) +:+
    "Top 3 Recent Commits:" +:+ nl +:+
    ("Commit 1 by " +:+ author c1 +:+ ":" +:+ nl +:+ diffExcerpt c1 +:+ "..." +:+ nl +:+ nl) +:+
    ("Commit 2 by " +:+ author c2 +:+ ":" +:+ nl +:+ diffExcerpt c2 +:+ "..." +:+ nl +:+ nl) +:+
    ("Commit 3 by " +:+ author c3 +:+ ":" +:+ nl +:+ diffExcerpt c3 +:+ "..." +:+ nl +:+ nl) in
  (ScrapeJs.summarizeScrapedData h JsUndefined).2 = "No repository data available."
  /\ (ScrapeJs.summarizeScrapedData h JsNull).2 = "No repository data available."
  /\ (ScrapeJs.summarizeScrapedData h JsOther).2 = "No repository data available."
  /\ (ScrapeJs.summarizeScrapedData (<[l := []]> h) (JsArray l)).2
      = "No repository data available."
  /\ (ScrapeJs.summarizeScrapedData (<[l := [repo]]> h) (JsArray l)).2
      = shown +:+
        (if decide (n > 0)
         then averageLine (round_div (sumOf additions q) n) (round_div (sumOf deletions q) n)
         else "")
  /\ (EmailJs.summarizeScrapedData h JsUndefined).2 = "No repository data available."
  /\ (EmailJs.summarizeScrapedData h JsNull).2 = "No repository data available."
  /\ (EmailJs.summarizeScrapedData h JsOther).2 = "No repository data available."
  /\ (EmailJs.summarizeScrapedData (<[l := []]> h) (JsArray l)).2
      = "No repository data available."
  /\ (EmailJs.summarizeScrapedData (<[l := [repo]]> h) (JsArray l)).2
      = shown +:+
        match avgA, avgD with
        | Some avgAdditions, Some avgDeletions => averageLine avgAdditions avgDeletions
        | _, _ => ""
        end
  /\ (forall c : CommitData,
        String.length (diffExcerpt c) = Nat.min 200 (String.length (diff c))
        /\ forall i : nat,
             charAt i (diffExcerpt c) =
               if (i <? 200)%nat
               then (fun ch => if Ascii.eqb ch LF then " "%char else ch) <$> charAt i (diff c)
               else None).
Proof.
  cbv zeta. repeat split.
  - unfold ScrapeJs.summarizeScrapedData. now rewrite lookup_insert_eq.
  - rewrite summarize_single, digest_text. open_repo. cbv beta iota zeta.
    change (slice0 3 [c1; c2; c3; c4; c5]) with [c1; c2; c3].
    change (qualifying [c1; c2; c3; c4; c5]) with (qualifying [c1; c2; c3]).
    unfold digestHeader. simpl name. simpl stars. simpl link.
    unfold commitBlocks, commitBlock.
    change (show (Z.of_nat 0 + 1)) with "1".
    change (show (Z.of_nat 1 + 1)) with "2".
    change (show (Z.of_nat 2 + 1)) with "3".
    rewrite !str_app_assoc. rewrite str_app_nil_l. reflexivity.
  - unfold EmailJs.summarizeScrapedData. now rewrite lookup_insert_eq.
  - rewrite summarize_single_email, digest_text_email. open_repo.
    cbv beta iota zeta.
    change (slice0 3 [c1; c2; c3; c4; c5]) with [c1; c2; c3].
    unfold digestHeader. simpl name. simpl stars. simpl link.
    simpl averageAdditions. simpl averageDeletions.
    unfold commitBlocks, commitBlock.
    change (show (Z.of_nat 0 + 1)) with "1".
    change (show (Z.of_nat 1 + 1)) with "2".
    change (show (Z.of_nat 2 + 1)) with "3".
    rewrite !str_app_assoc. rewrite str_app_nil_l. reflexivity.
  - unfold diffExcerpt. now rewrite replace_newlines_length, str_slice0_length.
  - intros i. unfold diffExcerpt.
    rewrite replace_newlines_get, str_slice0_get.
    now destruct (i <? 200)%nat.
Qed.

(** C3, the counterexample.  The one commit of the repository carries the
    stats (+10, -2) and the repository carries the averages 99 and 99.  The
    digest of email.js ends with the line of the stored averages; it does
    not end with the line of the averages of the commit. *)
Lemma email_digest_shows_stored_averages :
  let c := mkCommit (Some "m") "ada" "+x" (Some (mkStats 10 2 12)) in
  let r := mkRepo "core" "https://github.com/o/core" 7 [] [c] (Some 99) (Some 99) in
  let h : Heap := {[ 0%nat := [r] ]} in
  let text := (EmailJs.summarizeScrapedData h (JsArray 0%nat)).2 in
  averages [c] = (10, 2)
  /\ (exists body, text = body +:+ averageLine 99 99)
  /\ ~ (exists body, text = body +:+ averageLine 10 2).
Proof.
  cbv zeta. split; [reflexivity|]. split.
  - exists (digestHeader (mkRepo "core" "https://github.com/o/core" 7 [] [] None None)
            +:+ "Top 3 Recent Commits:" +:+ nl +:+
            commitBlocks 0 [mkCommit None "ada" "+x" None]).
    vm_compute. reflexivity.
  - intros [body Hbody]. apply str_suffix_drop in Hbody.
    vm_compute in Hbody. discriminate.
Qed.

(** C3, amended.  For an array whose first repository by stars has, among
    its first three commits, one with stats: the digest of scrape.js is the
    header, the blocks of those commits and the line of the averages taken
    over those of them that carry stats; the digest of email.js is the same
    header and blocks followed by the line of the averages stored on the
    repository when both are present, and by nothing otherwise.  The two
    digests are equal when the stored averages are the ones scrape.js
    computes from the commits. *)
Theorem digest_average_line (h : Heap) (l : loc) (r : RepoData) (rs : list RepoData) :
  h !! l = Some (r :: rs) ->
  let topRepo := hd r (Array_sort byStars (r :: rs)) in
  let included := slice0 3 (commits topRepo) in
  let q := statsOf included in
  let n := Z.of_nat (length q) in
  let body := digestHeader topRepo +:+ "Top 3 Recent Commits:" +:+ nl +:+
              commitBlocks 0 included in
  q <> [] ->
  (ScrapeJs.summarizeScrapedData h (JsArray l)).2 =
    body +:+ averageLine (round_div (sumOf additions q) n) (round_div (sumOf deletions q) n)
  /\ (EmailJs.summarizeScrapedData h (JsArray l)).2 =
      body +:+ match averageAdditions topRepo, averageDeletions topRepo with
               | Some avgAdditions, Some avgDeletions => averageLine avgAdditions avgDeletions
               | _, _ => ""
               end
  /\ (averageAdditions topRepo = Some (averages (commits topRepo)).1 ->
      averageDeletions topRepo = Some (averages (commits topRepo)).2 ->
      (EmailJs.summarizeScrapedData h (JsArray l)).2
      = (ScrapeJs.summarizeScrapedData h (JsArray l)).2).
Proof.
  intros Hl. cbv zeta. intros Hq.
  unfold ScrapeJs.summarizeScrapedData, EmailJs.summarizeScrapedData. rewrite Hl.
  cbv zeta. cbn [snd].
  set (topRepo := hd r (Array_sort byStars (r :: rs))) in *.
  rewrite digest_text, digest_text_email.
  destruct (commits topRepo) as [|c cs] eqn:Hcs; [now destruct Hq|].
  cbv zeta. fold (qualifying (c :: cs)) in Hq |- *.
  pose proof (averages_of_qualifying (c :: cs)) as Havg.
  destruct (decide (Z.of_nat (length (qualifying (c :: cs))) > 0)) as [Hn|Hn].
  - split; [|split]; [now rewrite !str_app_assoc | now rewrite !str_app_assoc |].
    intros -> ->. rewrite Havg. cbn [fst snd]. reflexivity.
  - destruct (qualifying (c :: cs)); [now destruct Hq | simpl in Hn; lia].
Qed.

(** The repository of the counterexample: 10 and 2 from its commit in the
    digest of scrape.js, the stored 99 and 99 in the digest of email.js. *)
Lemma digest_average_line_witness :
  let c := mkCommit (Some "m") "ada" "+x" (Some (mkStats 10 2 12)) in
  let r := mkRepo "core" "https://github.com/o/core" 7 [] [c] (Some 99) (Some 99) in
  let h : Heap := {[ 0%nat := [r] ]} in
  (ScrapeJs.summarizeScrapedData h (JsArray 0%nat)).2 =
    (digestHeader r +:+ "Top 3 Recent Commits:" +:+ nl +:+ commitBlocks 0 [c]) +:+
    averageLine 10 2
  /\ (EmailJs.summarizeScrapedData h (JsArray 0%nat)).2 =
    (digestHeader r +:+ "Top 3 Recent Commits:" +:+ nl +:+ commitBlocks 0 [c]) +:+
    averageLine 99 99.
Proof.
  cbv zeta.
  assert (({[ 0%nat := [mkRepo "core" "https://github.com/o/core" 7 []
                         [mkCommit (Some "m") "ada" "+x" (Some (mkStats 10 2 12))]
                         (Some 99) (Some 99)] ]} : Heap) !! 0%nat
          = Some [mkRepo "core" "https://github.com/o/core" 7 []
                    [mkCommit (Some "m") "ada" "+x" (Some (mkStats 10 2 12))]
                    (Some 99) (Some 99)])
    as Hl by (vm_compute; reflexivity).
  assert (statsOf (slice0 3 [mkCommit (Some "m") "ada" "+x" (Some (mkStats 10 2 12))])
          <> []) as Hq by (vm_compute; discriminate).
  destruct (digest_average_line _ _ _ _ Hl Hq) as (Hscrape & Hemail & _).
  split; [exact Hscrape | exact Hemail].
Defined.

(** ** The organization of a company *)

Lemma split_on_head (path : string) :
  exists others, split_on "/" path = uptoSlash path :: others.
Proof.
  induction path as [|c rest [others IH]]; simpl.
  - now exists [].
  - destruct (Ascii.eqb c "/").
    + now eexists.
    + rewrite IH. now eexists.
Qed.

Lemma pathParts_head (path : string) :
  head (filter_Boolean (split_on "/" path)) = firstSegment path.
Proof.
  unfold firstSegment, filter_Boolean.
  induction path as [|c rest IH]; [reflexivity|].
  simpl. destruct (Ascii.eqb c "/") eqn:Hc.
  - simpl. exact IH.
  - destruct (split_on_head rest) as [others ->]. simpl. now rewrite Hc.
Qed.

Lemma firstSegment_of_org (org tail : string) :
  org <> "" -> noSlash org = true ->
  firstSegment ("/" +:+ org) = Some org
  /\ firstSegment ("/" +:+ org +:+ "/" +:+ tail) = Some org.
Proof.
  intros Hne Hns.
  assert (forall rest, uptoSlash (org +:+ String "/" rest) = org) as Hupto.
  { intros rest. clear Hne. induction org as [|c org IH]; [reflexivity|].
    rewrite str_app_cons. simpl in Hns |- *.
    destruct (Ascii.eqb c "/"); [discriminate|]. simpl in Hns.
    now rewrite IH. }
  assert (uptoSlash org = org) as Hself.
  { clear Hne Hupto. induction org as [|c org IH]; [reflexivity|].
    simpl in Hns |- *. destruct (Ascii.eqb c "/"); [discriminate|].
    simpl in Hns. now rewrite IH. }
  destruct org as [|c org]; [congruence|].
  simpl in Hns. destruct (Ascii.eqb c "/") eqn:Hc; [discriminate|].
  unfold firstSegment. split.
  - change ("/" +:+ String c org) with (String "/" (String c org)).
    simpl skipSlashes. rewrite Hc. now rewrite Hself.
  - change ("/" +:+ String c org +:+ "/" +:+ tail)
      with (String "/" (String c (org +:+ String "/" tail))).
    simpl skipSlashes. rewrite Hc.
    change (String c (org +:+ String "/" tail)) with (String c org +:+ String "/" tail).
    now rewrite Hupto.
Qed.

(** C6.  The organization is the first non-empty segment of the path of the
    website's URL, in scrape.js and in scrape.ts alike: for a path
    [/org/extra...] it is [org].  Resolution fails when the URL does not
    parse and when its path has no non-empty segment; it is a function of
    the URL alone, and when it fails the stage logs the failure and returns
    having made no call but the lookup of the company. *)
Theorem orgNameOf_first_segment (w : World) (url : string) :
  ScrapeJs.orgNameOf w url =
    match URL_pathname w url with
    | None => Thrown "Invalid URL"
    | Some pathname =>
        match firstSegment pathname with
        | Some org => Ok org
        | None => Thrown "Invalid URL path. Could not extract organization name."
        end
    end
  /\ ScrapeTs.orgNameOf w url = ScrapeJs.orgNameOf w url
  /\ (forall org extra, org <> "" -> noSlash org = true ->
        URL_pathname w url = Some ("/" +:+ org +:+ "/" +:+ extra) ->
        ScrapeJs.orgNameOf w url = Ok org)
  /\ (forall companyId s row err,
        db_select w (calls s) (store s) companyId = mkSelect (Some row) None ->
        ScrapeJs.orgNameOf w (website row) = Thrown err ->
        ScrapeJs.main w companyId s =
          (Ok tt, {| store := store s;
                     calls := calls s ++ [DbSelect companyId];
                     errors := errors s ++ ["Error parsing GitHub URL:"] |})).
Proof.
  assert (forall u, ScrapeJs.orgNameOf w u =
    match URL_pathname w u with
    | None => Thrown "Invalid URL"
    | Some pathname =>
        match firstSegment pathname with
        | Some org => Ok org
        | None => Thrown "Invalid URL path. Could not extract organization name."
        end
    end) as Hres.
  { intros u. unfold ScrapeJs.orgNameOf.
    destruct (URL_pathname w u) as [path|]; [|reflexivity].
    rewrite <- pathParts_head. now destruct (filter_Boolean (split_on "/" path)). }
  split; [apply Hres|]. split; [reflexivity|]. split.
  - intros org extra Hne Hns Hpath. rewrite Hres, Hpath.
    destruct (firstSegment_of_org org extra Hne Hns) as [_ ->]. reflexivity.
  - intros companyId s row err Hsel Hfail.
    unfold ScrapeJs.main, try_catch, bind, select_single. rewrite Hsel. simpl.
    rewrite Hfail. reflexivity.
Qed.

(** The website of Elastic, [https://github.com/elastic/], names the
    organization [elastic]. *)
Lemma orgNameOf_first_segment_witness :
  ScrapeJs.orgNameOf servicesDown "https://github.com/elastic/" = Ok "elastic"
  /\ ScrapeJs.main servicesDown 7 (start {[ 7 := noWebsite ]}) =
       (Ok tt, {| store := {[ 7 := noWebsite ]};
                  calls := [DbSelect 7];
                  errors := ["Error parsing GitHub URL:"] |}).
Proof.
  destruct (orgNameOf_first_segment servicesDown "https://github.com/elastic/")
    as (_ & _ & Horg & Hstage).
  split.
  - apply (Horg "elastic" ""); [discriminate | reflexivity | reflexivity].
  - assert (db_select servicesDown (calls (start {[ 7 := noWebsite ]}))
              (store (start {[ 7 := noWebsite ]})) 7 = mkSelect (Some noWebsite) None)
      as Hrow by (vm_compute; reflexivity).
    assert (ScrapeJs.orgNameOf servicesDown (website noWebsite) = Thrown "Invalid URL")
      as Hurl by (vm_compute; reflexivity).
    exact (Hstage 7 (start {[ 7 := noWebsite ]}) noWebsite "Invalid URL" Hrow Hurl).
Defined.

(** ** Stages that stop early *)

(** C9.  When the lookup of the company answers with an error or without a
    row, each stage ([main] of scrape.js, of scrape.ts and of email.js, and
    [updateNiceData]) logs one line and returns: the lookup is the only call
    made, no update is issued and the table is as it was. *)
Theorem not_found_leaves_store (w : World) (companyId : Z) (s : State) :
  let answer := db_select w (calls s) (store s) companyId in
  let stopped line :=
    (Ok tt, {| store := store s;
               calls := calls s ++ [DbSelect companyId];
               errors := errors s ++ [line] |}) in
  error answer <> None \/ data answer = None ->
  (exists line, ScrapeJs.main w companyId s = stopped line)
  /\ (exists line, ScrapeTs.main w companyId s = stopped line)
  /\ (exists line, EmailJs.main w companyId s = stopped line)
  /\ (exists line, UpdateNiceData.updateNiceData w companyId s = stopped line).
Proof.
  cbv zeta. intros Hmissing.
  unfold ScrapeJs.main, ScrapeTs.main, EmailJs.main, UpdateNiceData.updateNiceData,
    try_catch, bind, select_single.
  simpl.
  destruct (error (db_select w (calls s) (store s) companyId)) as [e|].
  - repeat split; eexists; reflexivity.
  - destruct (data (db_select w (calls s) (store s) companyId)) as [row|].
    + destruct Hmissing; congruence.
    + repeat split; eexists; reflexivity.
Qed.

(** No company has the id 101 in an empty table. *)
Lemma not_found_leaves_store_witness :
  exists line,
    ScrapeJs.main servicesDown 101 (start ∅) =
      (Ok tt, {| store := ∅; calls := [DbSelect 101]; errors := [line] |}).
Proof.
  assert (error (db_select servicesDown (calls (start ∅)) (store (start ∅)) 101) <> None)
    as Herror by (vm_compute; discriminate).
  destruct (not_found_leaves_store servicesDown 101 (start ∅) (or_introl Herror))
    as [H _].
  exact H.
Defined.

(** C2, the counterexample.  The company 107 is in the table, its website
    names the organization [elastic], and the listing of the repositories
    throws: the stage does not store an empty result. *)
Lemma listing_failure_stores_nothing :
  ~ (forall w companyId s row orgName err,
       db_select w (calls s) (store s) companyId = mkSelect (Some row) None ->
       store s !! companyId = Some row ->
       ScrapeJs.orgNameOf w (website row) = Ok orgName ->
       listForOrg w (calls s ++ [DbSelect companyId]) orgName = Thrown err ->
       scraped_data <$> store (ScrapeJs.main w companyId s).2 !! companyId
         = Some (Some [])).
Proof.
  intros Hclaim.
  specialize (Hclaim servicesDown 107 (start {[ 107 := elastic ]}) elastic
                "elastic" "ECONNRESET").
  assert (scraped_data <$>
            store (ScrapeJs.main servicesDown 107 (start {[ 107 := elastic ]})).2 !! 107
          = Some (Some [])) as Hstored.
  { apply Hclaim; vm_compute; reflexivity. }
  vm_compute in Hstored. discriminate.
Qed.

(** C2, amended.  When the listing of the repositories throws, the scrape
    stage logs [Unexpected error:] and returns; it has made the lookup and
    the listing and no other call, it issues no update and the table is as it
    was.  scrape.ts does the same. *)
Theorem listing_failure_aborts (w : World) (companyId : Z) (s : State)
    (row : Company) (orgName err : string) :
  db_select w (calls s) (store s) companyId = mkSelect (Some row) None ->
  ScrapeJs.orgNameOf w (website row) = Ok orgName ->
  listForOrg w (calls s ++ [DbSelect companyId]) orgName = Thrown err ->
  let aborted :=
    (Ok tt, {| store := store s;
               calls := calls s ++ [DbSelect companyId; ListForOrg orgName];
               errors := errors s ++ ["Unexpected error:"] |}) in
  ScrapeJs.main w companyId s = aborted
  /\ ScrapeTs.main w companyId s = aborted.
Proof.
  intros Hsel Horg Hlist. cbv zeta.
  unfold ScrapeJs.main, ScrapeTs.main, try_catch, bind, select_single.
  rewrite Hsel. simpl.
  change (ScrapeTs.orgNameOf w (website row)) with (ScrapeJs.orgNameOf w (website row)).
  rewrite Horg. unfold await. simpl. rewrite Hlist. simpl.
  rewrite <- !app_assoc. simpl. split; reflexivity.
Qed.

(** The run of the counterexample. *)
Lemma listing_failure_aborts_witness :
  ScrapeJs.main servicesDown 107 (start {[ 107 := elastic ]}) =
    (Ok tt, {| store := {[ 107 := elastic ]};
               calls := [DbSelect 107; ListForOrg "elastic"];
               errors := ["Unexpected error:"] |}).
Proof.
  assert (db_select servicesDown (calls (start {[ 107 := elastic ]}))
            (store (start {[ 107 := elastic ]})) 107 = mkSelect (Some elastic) None)
    as Hrow by (vm_compute; reflexivity).
  assert (ScrapeJs.orgNameOf servicesDown (website elastic) = Ok "elastic")
    as Horg by (vm_compute; reflexivity).
  assert (listForOrg servicesDown (calls (start {[ 107 := elastic ]}) ++ [DbSelect 107])
            "elastic" = Thrown "ECONNRESET")
    as Hdown by (vm_compute; reflexivity).
  exact (proj1 (listing_failure_aborts servicesDown 107 (start {[ 107 := elastic ]})
                  elastic "elastic" "ECONNRESET" Hrow Horg Hdown)).
Defined.

(** ** The commits the scrape stage stores *)

Lemma fetchCommit_stats (w : World) (orgName repoName commitSha : string)
    (s s' : State) (pushed : list CommitData) :
  ScrapeJs.fetchCommit w orgName repoName commitSha s = (Ok pushed, s') ->
  Forall (fun c => is_Some (stats c)) pushed.
Proof.
  unfold ScrapeJs.fetchCommit, try_catch, bind, await. simpl.
  destruct (getCommit w (calls s) orgName repoName commitSha) as [d|err]; simpl;
    intros Hrun; inversion Hrun; subst.
  - constructor; [now eexists | constructor].
  - constructor.
Qed.

Lemma fetchCommits_stats (w : World) (orgName repoName : string)
    (s s' : State) (commitsData : list CommitData) :
  ScrapeJs.fetchCommits w orgName repoName s = (Ok commitsData, s') ->
  Forall (fun c => is_Some (stats c)) commitsData.
Proof.
  unfold ScrapeJs.fetchCommits, try_catch, bind.
  destruct (await _ _ s) as [[shas|err] s1]; simpl.
  - destruct (for_of _ shas s1) as [[cs|err] s2] eqn:Hloop; simpl;
      intros Hrun; inversion Hrun; subst.
    + eapply for_of_Forall; [|exact Hloop].
      intros sha t pushed t'. apply fetchCommit_stats.
    + constructor.
  - intros Hrun; inversion Hrun; subst. constructor.
Qed.

Lemma processRepo_stats (w : World) (orgName : string) (repo : OrgRepo)
    (s s' : State) (pushed : list RepoData) :
  ScrapeJs.processRepo w orgName repo s = (Ok pushed, s') ->
  Forall allWithStats pushed.
Proof.
  unfold ScrapeJs.processRepo, bind.
  destruct (ScrapeJs.fetchContributors _ _ _ s) as [[contributors|err] s1]; [|discriminate].
  destruct (ScrapeJs.fetchCommits _ _ _ s1) as [[commitsData|err] s2] eqn:Hcommits;
    [|discriminate].
  intros Hrun; inversion Hrun; subst.
  constructor; [|constructor]. unfold allWithStats. simpl.
  eapply fetchCommits_stats, Hcommits.
Qed.

Lemma processRepo_keeps_store (w : World) (orgName : string) (repo : OrgRepo) :
  keeps_store (ScrapeJs.processRepo w orgName repo).
Proof.
  unfold ScrapeJs.processRepo, ScrapeJs.fetchContributors, ScrapeJs.fetchCommits,
    ScrapeJs.fetchCommit, ScrapeJs.contributorName.
  auto 20 with stage.
Qed.

(** With stats on every commit, each of the first three is counted. *)
Lemma statsOf_all (cs : list CommitData) :
  Forall (fun c => is_Some (stats c)) cs -> length (statsOf cs) = length cs.
Proof.
  induction 1 as [|c cs [st Hst] _ IH]; simpl; [reflexivity|].
  rewrite Hst. simpl. now rewrite IH.
Qed.

(** The end of [main], from the loop over [topRepos] on. *)
Lemma store_results (w : World) (companyId : Z) (orgName : string)
    (topRepos : list OrgRepo) (s1 s' : State) (r : Result unit) :
  (results <- for_of (ScrapeJs.processRepo w orgName) topRepos ;;
   updateError <- update_eq w companyId (Scraped results) ;;
   match updateError with
   | Some _ => console_error "Error updating company record with scraped data:"
   | None => ret tt
   end) s1 = (r, s') ->
  store s' = store s1
  \/ exists results,
       store s' = alter (setColumn (Scraped results)) companyId (store s1)
       /\ Forall (fun repo =>
                    allWithStats repo
                    /\ length (qualifying (commits repo))
                       = length (slice0 3 (commits repo))) results
       /\ (length results <= length topRepos)%nat.
Proof.
  unfold bind at 1.
  pose proof (keeps_for_of (ScrapeJs.processRepo w orgName) topRepos
                (processRepo_keeps_store w orgName) s1) as Hkeep.
  destruct (for_of _ topRepos s1) as [[results|err] s2] eqn:Hloop;
    cbn [snd] in Hkeep.
  - assert (Forall (fun repo => allWithStats repo
              /\ length (qualifying (commits repo)) = length (slice0 3 (commits repo)))
              results) as Hresults.
    { eapply Forall_impl.
      - eapply for_of_Forall; [|exact Hloop].
        intros repo t pushed t'. apply processRepo_stats.
      - intros repo Hall. split; [exact Hall|]. unfold qualifying.
        apply statsOf_all. unfold slice0. now apply Forall_take. }
    unfold bind, update_eq.
    destruct (db_update w (calls s2) companyId (columnName (Scraped results)))
      as [updateError|]; intros Hrun; inversion Hrun; subst; cbn [store].
    + now left.
    + right. exists results. rewrite Hkeep. split; [reflexivity|].
      split; [exact Hresults|].
      eapply for_of_length; [|exact Hloop].
      intros repo t pushed t' Hpush. unfold ScrapeJs.processRepo, bind in Hpush.
      destruct (ScrapeJs.fetchContributors _ _ _ t) as [[contributors|e1] t1];
        [|discriminate].
      destruct (ScrapeJs.fetchCommits _ _ _ t1) as [[commitsData|e2] t2];
        [|discriminate].
      inversion Hpush. simpl. lia.
  - intros Hrun; inversion Hrun; subst. now left.
Qed.


(** What scrape.js stores is in descending order of stars: it is at most one
    repository. *)
Lemma scrape_stores_descending (w : World) (companyId : Z) (s s' : State)
    (r : Result unit) :
  ScrapeJs.main w companyId s = (r, s') ->
  store s' = store s
  \/ exists results,
       store s' = alter (setColumn (Scraped results)) companyId (store s)
       /\ descending results.
Proof.
  unfold ScrapeJs.main, try_catch, bind at 1, select_single. cbv beta iota.
  destruct (error _) as [e|]; [intros Hrun; inversion Hrun; now left|].
  destruct (data _) as [row|]; [|intros Hrun; inversion Hrun; now left].
  destruct (ScrapeJs.orgNameOf w (website row)) as [orgName|err];
    [|intros Hrun; inversion Hrun; now left].
  unfold bind at 1, await at 1. cbv beta iota.
  destruct (listForOrg w _ orgName) as [repos|err];
    [|intros Hrun; inversion Hrun; now left].
  match goal with
  | |- context [ bind ?m ?k ?st ] =>
      destruct (bind m k st) as [[[]|err] s2] eqn:Hrest;
      apply store_results in Hrest; cbn [store] in Hrest
  end;
    intros Hrun; inversion Hrun; subst; cbn [store console_error];
    (destruct Hrest as [Hsame | (results & Hstored & _ & Hlen)]; [now left|]);
    right; exists results; (split; [exact Hstored|]);
    unfold slice0 in Hlen; rewrite length_take in Hlen;
    pose proof (Nat.le_min_l 1 (length (Array_sort byStargazers repos))) as Hone;
    destruct results as [|r1 [|r2 rest]]; try exact I;
    cbn [length] in Hlen; lia.
Qed.

(** ** The people of a repository *)

Lemma Set_add_fold (xs acc : list string) :
  NoDup acc ->
  NoDup (fold_left UpdateNiceData.Set_add xs acc)
  /\ (forall x, x ∈ fold_left UpdateNiceData.Set_add xs acc <-> x ∈ acc \/ x ∈ xs).
Proof.
  revert acc. induction xs as [|y rest IH]; intros acc Hacc; simpl.
  - split; [exact Hacc|]. intros x. rewrite elem_of_nil. tauto.
  - unfold UpdateNiceData.Set_add at 2 4.
    destruct (decide (y ∈ acc)) as [Hin|Hnotin].
    + destruct (IH acc Hacc) as [Hnd Hsame]. split; [exact Hnd|].
      intros x. rewrite Hsame, elem_of_cons.
      split; [tauto|]. intros [H|[->|H]]; tauto.
    + assert (NoDup (acc ++ [y])) as Hacc'.
      { apply NoDup_app. split; [exact Hacc|]. split.
        - intros x Hx Hy. apply list_elem_of_singleton in Hy. now subst.
        - apply NoDup_singleton. }
      destruct (IH _ Hacc') as [Hnd Hsame]. split; [exact Hnd|].
      intros x. rewrite Hsame, elem_of_app, list_elem_of_singleton, elem_of_cons. tauto.
Qed.

Lemma Set_of_distinct (xs : list string) :
  NoDup (UpdateNiceData.Set_of xs)
  /\ (forall x, x ∈ UpdateNiceData.Set_of xs <-> x ∈ xs).
Proof.
  destruct (Set_add_fold xs [] (NoDup_nil_2)) as [Hnd Hsame].
  split; [exact Hnd|]. intros x. rewrite Hsame, elem_of_nil. tauto.
Qed.

Lemma getTechnologies_returns (w : World) (author : string) :
  returns (UpdateNiceData.getTechnologiesForContributor w author).
Proof.
  unfold UpdateNiceData.getTechnologiesForContributor. auto with stage.
Qed.

Lemma summarizeCommitDiff_returns (w : World) (diffText : string) :
  returns (UpdateNiceData.summarizeCommitDiff w diffText).
Proof. unfold UpdateNiceData.summarizeCommitDiff. auto with stage. Qed.

Lemma summarizeCommitMessage_returns (w : World) (text : string) :
  returns (UpdateNiceData.summarizeCommitMessage w text).
Proof. unfold UpdateNiceData.summarizeCommitMessage. auto with stage. Qed.

Lemma niceCommit_returns (w : World) (commit : CommitData) :
  returns (UpdateNiceData.niceCommit w commit).
Proof.
  unfold UpdateNiceData.niceCommit.
  apply returns_bind.
  - destruct (truthy (diff commit));
      [apply summarizeCommitDiff_returns | apply returns_ret].
  - intros summary. apply returns_bind; [|intros; apply returns_ret].
    destruct (message commit) as [text|]; [|apply returns_ret].
    destruct (truthy text); [apply summarizeCommitMessage_returns | apply returns_ret].
Qed.

(** A round of the loop over the authors pushes one person, of that name. *)
Lemma processAuthor_one (w : World) (author : string) (s : State) :
  exists p s',
    UpdateNiceData.processAuthor w author s = (Ok [p], s') /\ username p = author.
Proof.
  unfold UpdateNiceData.processAuthor, try_catch, bind at 1.
  destruct (getTechnologies_returns w author s) as (techList & s1 & ->).
  unfold bind, await.
  destruct (getByUsername w (calls s1) author) as [user|err];
    eexists _, _; split; reflexivity.
Qed.

(** When a lookup fails, the list of technologies is empty. *)
Lemma getTechnologies_fails (w : World) (author : string) (s : State) :
  LookupFails w author (calls s) ->
  exists s', UpdateNiceData.getTechnologiesForContributor w author s = (Ok [], s').
Proof.
  intros Hfail.
  unfold UpdateNiceData.getTechnologiesForContributor, try_catch.
  rewrite bind_await.
  destruct Hfail as [err H1 | user err H1 H2 | user topRepo others err H1 H2 H3
                    | user err H1 H2 H3 | user topRepo others keys err H1 H2 H3 H4];
    rewrite H1; [now eexists|..]; rewrite bind_await; cbn [calls]; rewrite H2.
  - now eexists.
  - rewrite bind_bind, bind_await. cbn [calls]. rewrite <- app_assoc. cbn [app].
    rewrite H3. now eexists.
  - rewrite bind_ret, bind_await. cbn [calls]. rewrite <- app_assoc. cbn [app].
    rewrite H3. now eexists.
  - rewrite bind_bind, bind_await. cbn [calls]. rewrite <- app_assoc. cbn [app].
    rewrite H3. rewrite bind_ret, bind_await. cbn [calls].
    rewrite <- app_assoc. cbn [app]. rewrite H4. now eexists.
Qed.

Lemma trimmedOr_keeps (content : option string) (fallback : string) :
  keeps_store (UpdateNiceData.trimmedOr content fallback).
Proof. destruct content; simpl; auto with stage. Qed.

Lemma summarizeCommitMessage_keeps (w : World) (text : string) :
  keeps_store (UpdateNiceData.summarizeCommitMessage w text).
Proof.
  unfold UpdateNiceData.summarizeCommitMessage. cbv zeta.
  apply keeps_try_catch; [|auto with stage].
  apply keeps_bind; [apply keeps_await | intros; apply trimmedOr_keeps].
Qed.

Lemma summarizeCommitDiff_keeps (w : World) (text : string) :
  keeps_store (UpdateNiceData.summarizeCommitDiff w text).
Proof.
  unfold UpdateNiceData.summarizeCommitDiff. cbv zeta.
  apply keeps_try_catch; [|auto with stage].
  apply keeps_bind; [apply keeps_await | intros; apply trimmedOr_keeps].
Qed.

Lemma niceCommit_keeps (w : World) (c : CommitData) :
  keeps_store (UpdateNiceData.niceCommit w c).
Proof.
  unfold UpdateNiceData.niceCommit.
  apply keeps_bind.
  - destruct (truthy (diff c)); [apply summarizeCommitDiff_keeps | apply keeps_ret].
  - intros summary. apply keeps_bind; [|intros; apply keeps_ret].
    destruct (message c) as [text|]; [|apply keeps_ret].
    destruct (truthy text); [apply summarizeCommitMessage_keeps | apply keeps_ret].
Qed.

Lemma getTechnologies_keeps (w : World) (author : string) :
  keeps_store (UpdateNiceData.getTechnologiesForContributor w author).
Proof.
  unfold UpdateNiceData.getTechnologiesForContributor.
  apply keeps_try_catch; [|auto with stage].
  apply keeps_bind; [apply keeps_await|]. intros user.
  apply keeps_bind; [apply keeps_await|]. intros repos.
  apply keeps_bind.
  - destruct repos; auto with stage.
  - intros repoInfo. apply keeps_bind; [apply keeps_await|].
    intros [text|]; auto with stage.
Qed.

Lemma processAuthor_keeps (w : World) (author : string) :
  keeps_store (UpdateNiceData.processAuthor w author).
Proof.
  unfold UpdateNiceData.processAuthor.
  apply keeps_try_catch; [|auto with stage].
  apply keeps_bind; [apply getTechnologies_keeps|]. auto with stage.
Qed.

Lemma niceRepo_keeps (w : World) (repo : RepoData) :
  keeps_store (UpdateNiceData.niceRepo w repo).
Proof.
  unfold UpdateNiceData.niceRepo.
  apply keeps_bind.
  { destruct (repo_commits repo); [apply keeps_for_of, niceCommit_keeps | apply keeps_ret]. }
  intros newCommits. apply keeps_bind.
  { destruct (repo_commits repo); auto with stage. }
  intros authors. apply keeps_bind; [apply keeps_for_of, processAuthor_keeps|].
  auto with stage.
Qed.

(** When a lookup fails, the person pushed has no technologies. *)
Lemma processAuthor_fails (w : World) (author : string) (s : State) :
  LookupFails w author (calls s) ->
  exists p s',
    UpdateNiceData.processAuthor w author s = (Ok [p], s')
    /\ username p = author /\ technologies p = [].
Proof.
  intros Hfail. destruct (getTechnologies_fails w author s Hfail) as (s1 & Htech).
  unfold UpdateNiceData.processAuthor, try_catch, bind at 1. rewrite Htech.
  rewrite bind_await.
  destruct (getByUsername w (calls s1) author) as [user|err];
    eexists _, _; repeat split; reflexivity.
Qed.

Lemma processAuthor_person (w : World) (author : string) (s : State) :
  exists p s',
    UpdateNiceData.processAuthor w author s = (Ok [p], s') /\ personFor w author p.
Proof.
  destruct (processAuthor_one w author s) as (p & s' & Hrun & Hname).
  assert (LookupFails w author (calls s) -> technologies p = []) as Hempty.
  { intros Hfail.
    destruct (processAuthor_fails w author s Hfail) as (q & t & Hq & _ & Hnone).
    congruence. }
  exists p, s'. split; [exact Hrun|]. split; [exact Hname|]. split.
  - intros Hall. apply Hempty, Hall.
  - now exists s, s'.
Qed.

(** A loop over elements that all satisfy [Q], each round pushing one
    element. *)
Lemma for_of_one_each_on {A B} (Q : A -> Prop) (R : A -> B -> Prop)
    (body : A -> M (list B)) (xs : list A) :
  (forall x s, Q x -> exists y s', body x s = (Ok [y], s') /\ R x y) ->
  Forall Q xs ->
  forall s, exists ys s', for_of body xs s = (Ok ys, s') /\ Forall2 R xs ys.
Proof.
  intros Hbody Hall. induction Hall as [|x rest Hx _ IH]; intros s; simpl.
  - exists [], s. split; [reflexivity | constructor].
  - destruct (Hbody x s Hx) as (y & s1 & Hrun & HR).
    destruct (IH s1) as (ys & s2 & Hrest & HRs).
    exists (y :: ys), s2. unfold bind. rewrite Hrun, Hrest. split; [reflexivity|].
    now constructor.
Qed.

Lemma niceRepo_people (w : World) (repo : RepoData) (s : State) :
  is_Some (repo_commits repo) ->
  exists newRepo s',
    UpdateNiceData.niceRepo w repo s = (Ok [newRepo], s') /\ enriched w repo newRepo.
Proof.
  intros [commitsData Hcommits].
  unfold enriched, commits, UpdateNiceData.niceRepo. rewrite Hcommits. cbv zeta.
  unfold bind at 1.
  destruct (returns_for_of (UpdateNiceData.niceCommit w) commitsData
              (niceCommit_returns w) s) as (newCommits & s1 & ->).
  rewrite bind_ret. unfold bind at 1.
  destruct (for_of_one_each (personFor w) (UpdateNiceData.processAuthor w)
              (UpdateNiceData.Set_of (map author commitsData))
              (processAuthor_person w) s1)
    as (newPeople & s2 & -> & Hpeople).
  eexists _, _. split; [reflexivity|]. cbn [people]. split; [|exact Hpeople].
  clear -Hpeople. induction Hpeople as [|a p authors ps [Hname _] _ IH]; simpl.
  - reflexivity.
  - now rewrite Hname, IH.
Qed.

(** Line 232 on a repository whose [commits] is missing. *)
Lemma niceRepo_throws (w : World) (repo : RepoData) (s : State) :
  repo_commits repo = None ->
  UpdateNiceData.niceRepo w repo s
  = (Thrown "TypeError: Cannot read properties of undefined (reading 'map')", s).
Proof. intros Hnone. unfold UpdateNiceData.niceRepo. now rewrite Hnone. Qed.

(** C8.  When every repository of [scraped_data] has its array of commits,
    the stage returns and the [nice_data] it writes holds, for each
    repository in turn, one person per distinct author of its commits, the
    authors compared as strings and taken in the order of their first commit,
    so that authors a, b, a, c give the three people a, b, c.  When the
    profile fetch, the repository fetch, the languages fetch or the generation
    call for an author throws, or the second profile fetch does, the person
    pushed for that author has an empty list of technologies, and the stage
    goes on: whatever the services answer, it does not throw. *)
Theorem enrichment_people (w : World) (companyId : Z) (s : State) (row : Company)
    (scrapedData : list RepoData) :
  db_select w (calls s) (store s) companyId = mkSelect (Some row) None ->
  scraped_data row = Some scrapedData ->
  Forall (fun repo => is_Some (repo_commits repo)) scrapedData ->
  (exists niceData s',
     UpdateNiceData.updateNiceData w companyId s = (Ok tt, s')
     /\ Forall2 (enriched w) scrapedData niceData
     /\ (store s' = store s
         \/ store s' = alter (setColumn (Nice niceData)) companyId (store s))
     /\ ((forall h, db_update w h companyId "nice_data" = None) ->
         store s' = alter (setColumn (Nice niceData)) companyId (store s)))
  /\ (forall authors,
        NoDup (UpdateNiceData.Set_of authors)
        /\ forall a, a ∈ UpdateNiceData.Set_of authors <-> a ∈ authors)
  /\ (forall a b c, a <> b -> a <> c -> b <> c ->
        UpdateNiceData.Set_of [a; b; a; c] = [a; b; c])
  /\ (forall author t,
        LookupFails w author (calls t) ->
        exists p t',
          UpdateNiceData.processAuthor w author t = (Ok [p], t')
          /\ username p = author /\ technologies p = [])
  /\ (forall author t techList t1 err,
        UpdateNiceData.getTechnologiesForContributor w author t = (Ok techList, t1) ->
        getByUsername w (calls t1) author = Thrown err ->
        exists t',
          UpdateNiceData.processAuthor w author t =
            (Ok [ {| username := author; person_name := None; technologies := [] |} ], t')).
Proof.
  intros Hselect Hscraped Harrays. split; [|split; [|split; [|split]]].
  - unfold UpdateNiceData.updateNiceData, bind at 1, select_single.
    rewrite Hselect. cbn [error data]. rewrite Hscraped.
    set (s0 := {| store := store s; calls := calls s ++ [DbSelect companyId];
                  errors := errors s |}).
    unfold bind at 1.
    pose proof (keeps_for_of (UpdateNiceData.niceRepo w) scrapedData
                  (niceRepo_keeps w) s0) as Hkeep.
    destruct (for_of_one_each_on (fun repo => is_Some (repo_commits repo)) (enriched w)
                (UpdateNiceData.niceRepo w) scrapedData
                (fun repo t => niceRepo_people w repo t) Harrays s0)
      as (niceData & s1 & Hloop & Hnice).
    rewrite Hloop in Hkeep |- *. cbn [snd] in Hkeep.
    change (store s0) with (store s) in Hkeep.
    unfold bind, update_eq. change (columnName (Nice niceData)) with "nice_data".
    destruct (db_update w (calls s1) companyId "nice_data") as [updateError|] eqn:Hupdate.
    + exists niceData. eexists. split; [reflexivity|]. split; [exact Hnice|].
      cbn [store]. split; [left; exact Hkeep|].
      intros Hnone. rewrite Hnone in Hupdate. discriminate.
    + exists niceData. eexists. split; [reflexivity|]. split; [exact Hnice|].
      cbn [store]. rewrite Hkeep. split; [now right | reflexivity].
  - intros authors. apply Set_of_distinct.
  - intros a b c Hab Hac Hbc. unfold UpdateNiceData.Set_of. simpl.
    unfold UpdateNiceData.Set_add at 4. rewrite decide_False by apply not_elem_of_nil.
    unfold UpdateNiceData.Set_add at 3. simpl.
    rewrite decide_False by (rewrite list_elem_of_singleton; congruence).
    unfold UpdateNiceData.Set_add at 2. simpl.
    rewrite decide_True by (apply elem_of_cons; now left).
    unfold UpdateNiceData.Set_add. simpl.
    rewrite decide_False; [reflexivity|].
    rewrite !elem_of_cons, elem_of_nil. intros [->|[->|[]]]; congruence.
  - intros a t Hfail. exact (processAuthor_fails w a t Hfail).
  - intros a t techList t1 err Htech Hprofile.
    unfold UpdateNiceData.processAuthor, try_catch, bind at 1. rewrite Htech.
    rewrite bind_await, Hprofile. now eexists.
Qed.

(** With the services down and commits by a, b, a and c in the one
    repository of the company, the stage returns and stores three people. *)
Lemma enrichment_people_witness :
  let c who := mkCommit (Some "m") who "+x" (Some (mkStats 1 0 1)) in
  let repo := mkRepo "core" "https://github.com/o/core" 7 []
                [c "a"; c "b"; c "a"; c "c"] (Some 1) (Some 0) in
  let row := {| company_name := "Elastic"; website := "https://github.com/elastic/";
                manager_name := None; scraped_data := Some [repo];
                nice_data := None; email := None |} in
  exists niceData s',
    UpdateNiceData.updateNiceData servicesDown 107 (start {[ 107 := row ]}) = (Ok tt, s')
    /\ Forall2 (enriched servicesDown) [repo] niceData.
Proof.
  intros c repo row.
  assert (db_select servicesDown (calls (start {[ 107 := row ]}))
            (store (start {[ 107 := row ]})) 107 = mkSelect (Some row) None)
    as Hselect by (vm_compute; reflexivity).
  assert (Forall (fun r => is_Some (repo_commits r)) [repo]) as Harrays.
  { apply Forall_cons_2; [now eexists | apply Forall_nil_2]. }
  destruct (enrichment_people servicesDown 107 (start {[ 107 := row ]}) row [repo]
              Hselect eq_refl Harrays)
    as ((niceData & s' & Hrun & Hnice & _) & _).
  exists niceData, s'. split; [exact Hrun | exact Hnice].
Defined.

(** Four commits by a, b, a and c, with every service down: the stage stores
    three people, each with an empty list of technologies. *)
Example enrichment_with_services_down :
  let c who := mkCommit (Some "m") who "+x" (Some (mkStats 1 0 1)) in
  let repo := mkRepo "core" "https://github.com/o/core" 7 []
                [c "a"; c "b"; c "a"; c "c"] (Some 1) (Some 0) in
  let row := {| company_name := "Elastic"; website := "https://github.com/elastic/";
                manager_name := None; scraped_data := Some [repo];
                nice_data := None; email := None |} in
  let after := (UpdateNiceData.updateNiceData servicesDown 107 (start {[ 107 := row ]})).2 in
  (map people <$> (store after !! 107 ≫= nice_data))
  = Some [[mkPerson "a" None []; mkPerson "b" None []; mkPerson "c" None []]].
Proof. vm_compute. reflexivity. Qed.

(** ** The stages on sample worlds *)

(** The scrape stage with the services up: the repository with most stars
    is stored, the commit that could not be fetched is left out, the commit
    without stats is stored with the stats (0, 0, 0) and counted in the
    averages. *)
Example scrape_with_services_up :
  let after := (ScrapeJs.main servicesUp 107 (start {[ 107 := elastic ]})).2 in
  store after !! 107 ≫= scraped_data =
    Some [ {| name := "elasticsearch";
              link := "https://github.com/elastic/elasticsearch";
              stars := 50;
              top50contributors := ["Ada L"];
              repo_commits := Some
                [ mkCommit (Some "first") "ada"
                    ("File: a.js" +:+ nl +:+ "+x" +:+ nl) (Some (mkStats 10 2 12));
                  mkCommit (Some "second") "Bob"
                    ("File: b.png (no patch available)" +:+ nl) (Some (mkStats 20 4 24));
                  mkCommit (Some "third") "Unknown"
                    "No file changes found for this commit." (Some (mkStats 0 0 0)) ];
              averageAdditions := Some 10;
              averageDeletions := Some 2 |} ]
  /\ errors after = ["Error fetching details for commit c4 in repo elasticsearch:"].
Proof. vm_compute. split; reflexivity. Qed.

(** The technologies read off an answer of the generation service. *)
Example technologies_with_services_up :
  (UpdateNiceData.getTechnologiesForContributor servicesUp "ada" (start ∅)).1
  = Ok ["Go"; "Rust"; "C"].
Proof. vm_compute. reflexivity. Qed.

(** * Further properties *)

(** ** The author of a commit *)

Lemma or_else_truthy (a : option string) (b : string) :
  b <> "" -> or_else a b <> "".
Proof.
  intros Hb. unfold or_else. destruct a as [s|]; [|exact Hb].
  destruct s; simpl; [exact Hb | discriminate].
Qed.

(** X1.  The author stored for a commit is the login of the linked profile
    when there is a non-empty one, else the name recorded in the commit when
    that is non-empty, else [Unknown]; it is never the empty string.
    scrape.js and scrape.ts store the same author. *)
Theorem commitAuthor_order (d : CommitDetails) :
  commitAuthor d <> ""
  /\ (forall login, author_login d = Some login -> login <> "" ->
       commitAuthor d = login)
  /\ (forall recorded,
       author_login d = None \/ author_login d = Some "" ->
       commit_author_name d = Some recorded -> recorded <> "" ->
       commitAuthor d = recorded)
  /\ (author_login d = None \/ author_login d = Some "" ->
      commit_author_name d = None \/ commit_author_name d = Some "" ->
      commitAuthor d = "Unknown")
  /\ author (commitRecord d) = commitAuthor d
  /\ author (commitRecord_ts d) = commitAuthor d.
Proof.
  split; [|split; [|split; [|split; [|split]]]]; try reflexivity.
  - unfold commitAuthor. apply or_else_truthy, or_else_truthy. discriminate.
  - intros login Hlogin Hne. unfold commitAuthor. rewrite Hlogin. simpl.
    destruct login; [congruence | reflexivity].
  - intros recorded Hlogin Hname Hne. unfold commitAuthor. rewrite Hname.
    destruct recorded as [|ch rest]; [congruence|].
    destruct Hlogin as [-> | ->]; reflexivity.
  - intros [H1|H1] [H2|H2]; unfold commitAuthor; rewrite H1, H2; reflexivity.
Qed.

(** A commit without linked profile, recorded under the name Bob. *)
Lemma commitAuthor_order_witness :
  commitAuthor (mkDetails None (Some "Bob") "second" None None) = "Bob"
  /\ commitAuthor (mkDetails (Some "ada") (Some "Ada L") "first" None None) = "ada"
  /\ commitAuthor (mkDetails (Some "") None "third" None None) = "Unknown".
Proof.
  split; [|split].
  - destruct (commitAuthor_order (mkDetails None (Some "Bob") "second" None None))
      as (_ & _ & Hname & _).
    apply Hname; [left; reflexivity | reflexivity | discriminate].
  - destruct (commitAuthor_order (mkDetails (Some "ada") (Some "Ada L") "first" None None))
      as (_ & Hlogin & _).
    apply Hlogin; [reflexivity | discriminate].
  - destruct (commitAuthor_order (mkDetails (Some "") None "third" None None))
      as (_ & _ & _ & Hunknown & _).
    apply Hunknown; [right; reflexivity | left; reflexivity].
Defined.

(** ** Bounds of the averages *)

Lemma round_div_between (a n lo hi : Z) :
  n > 0 -> n * lo <= a <= n * hi -> lo <= round_div a n <= hi.
Proof.
  intros Hn [Hlo Hhi]. unfold round_div. split.
  - apply Z.div_le_lower_bound; [lia|]. nia.
  - apply Z.lt_succ_r. apply Z.div_lt_upper_bound; [lia|]. nia.
Qed.

Lemma sumOf_between (field : Stats -> Z) (lo hi : Z) (sts : list Stats) :
  Forall (fun st => lo <= field st <= hi) sts ->
  Z.of_nat (length sts) * lo <= sumOf field sts <= Z.of_nat (length sts) * hi.
Proof.
  induction 1 as [|st sts Hst _ IH]; simpl; [lia|].
  rewrite Nat2Z.inj_succ in *. unfold sumOf in *. simpl. lia.
Qed.

Lemma statsOf_Forall (P : Stats -> Prop) (cs : list CommitData) :
  Forall (fun c => forall st, stats c = Some st -> P st) cs ->
  Forall P (statsOf cs).
Proof.
  induction 1 as [|c cs Hc _ IH]; simpl; [constructor|].
  destruct (stats c) as [st|]; [|exact IH]. constructor; [now apply Hc | exact IH].
Qed.

(** X2.  The averages lie between the bounds of what they average: when the
    additions (the deletions) of every commit with stats among the first
    three lie between [lo] and [hi], and [lo <= 0 <= hi] or one of the three
    carries stats, so does the average.  In particular the averages of
    counts that are not negative are not negative. *)
Theorem averages_between (commitsData : list CommitData) (lo hi : Z) :
  (lo <= 0 <= hi \/ qualifying commitsData <> []) ->
  (Forall (fun c => forall st, stats c = Some st -> lo <= additions st <= hi)
          (slice0 3 commitsData) ->
   lo <= (averages commitsData).1 <= hi)
  /\ (Forall (fun c => forall st, stats c = Some st -> lo <= deletions st <= hi)
            (slice0 3 commitsData) ->
     lo <= (averages commitsData).2 <= hi).
Proof.
  intros Hcase. rewrite averages_of_qualifying. unfold qualifying in *.
  set (q := statsOf (slice0 3 commitsData)) in *.
  destruct (decide (Z.of_nat (length q) > 0)) as [Hn|Hn]; cbn [fst snd].
  - split; intros Hall; apply round_div_between; try exact Hn;
      apply sumOf_between; now apply (statsOf_Forall (fun st => lo <= _ st <= hi)).
  - destruct Hcase as [Hzero|Hq]; [split; intros _; exact Hzero|].
    destruct q; [congruence | simpl in Hn; lia].
Qed.

(** Three commits with 10, 20 and 0 additions: the average is between 0 and
    20. *)
Lemma averages_between_witness :
  0 <= (averages [mkCommit None "a" "" (Some (mkStats 10 2 12));
                  mkCommit None "b" "" (Some (mkStats 20 4 24));
                  mkCommit None "c" "" (Some (mkStats 0 0 0))]).1 <= 20.
Proof.
  assert (0 <= 0 <= 20) as Hbounds by lia.
  destruct (averages_between
              [mkCommit None "a" "" (Some (mkStats 10 2 12));
               mkCommit None "b" "" (Some (mkStats 20 4 24));
               mkCommit None "c" "" (Some (mkStats 0 0 0))] 0 20
              (or_introl Hbounds)) as [Hadditions _].
  apply Hadditions. unfold slice0. simpl.
  repeat (apply Forall_cons_2; [intros st Hst; inversion Hst; subst; simpl; lia|]).
  apply Forall_nil_2.
Defined.

(** ** Sorting by a key *)

Section SortByKey.

Context {A : Type} (key : A -> Z) (compare : A -> A -> Z).
Hypothesis compare_key : forall a b, compare a b = key b - key a.

Lemma descendingBy_tail (a : A) (l : list A) :
  descendingBy key (a :: l) -> descendingBy key l.
Proof. destruct l as [|b l]; [intros _; exact I | now intros [_ H]]. Qed.

Lemma descendingBy_head_max (a : A) (l : list A) :
  descendingBy key (a :: l) -> Forall (fun b => key b <= key a) l.
Proof.
  revert a. induction l as [|b l IH]; intros a Hd; [constructor|].
  destruct Hd as [Hab Hd]. constructor; [lia|].
  eapply Forall_impl; [apply IH, Hd|]. simpl. intros c Hc. lia.
Qed.

(** In a descending list what comes later has no larger key. *)
Lemma descendingBy_app (l1 l2 : list A) :
  descendingBy key (l1 ++ l2) ->
  forall a b, a ∈ l1 -> b ∈ l2 -> key b <= key a.
Proof.
  induction l1 as [|a0 l1 IH]; intros Hd a b Ha Hb.
  - now apply elem_of_nil in Ha.
  - apply elem_of_cons in Ha as [->|Ha].
    + pose proof (descendingBy_head_max _ _ Hd) as Hmax.
      rewrite Forall_forall in Hmax. apply Hmax.
      apply elem_of_app. now right.
    + apply IH; [|exact Ha|exact Hb]. exact (descendingBy_tail _ _ Hd).
Qed.

Lemma descendingBy_take (n : nat) (l : list A) :
  descendingBy key l -> descendingBy key (take n l).
Proof.
  revert l. induction n as [|n IH]; intros l Hd; [exact I|].
  destruct l as [|a l]; [exact I|]. simpl.
  specialize (IH l (descendingBy_tail _ _ Hd)).
  destruct l as [|b l]; [now destruct n|].
  destruct n as [|n]; [exact I|]. simpl in IH |- *.
  destruct Hd as [Hab _]. split; [exact Hab | exact IH].
Qed.

Lemma sort_insert_descendingBy (a : A) (sorted : list A) :
  descendingBy key sorted -> descendingBy key (sort_insert compare a sorted).
Proof.
  induction sorted as [|b rest IH]; intros Hd; simpl; [exact I|].
  destruct (decide (compare a b <= 0)) as [Hle|Hgt]; rewrite compare_key in *.
  - split; [lia | exact Hd].
  - destruct rest as [|c rest'].
    + simpl. split; [lia | exact I].
    + destruct Hd as [Hbc Hd]. specialize (IH Hd).
      simpl sort_insert in IH |- *.
      destruct (decide (compare a c <= 0)) as [Hc|Hc]; rewrite compare_key in Hc.
      * split; [lia | exact IH].
      * split; [lia | exact IH].
Qed.

Lemma Array_sort_descendingBy (arr : list A) :
  descendingBy key (Array_sort compare arr).
Proof.
  induction arr as [|a rest IH]; simpl; [exact I|].
  now apply sort_insert_descendingBy.
Qed.

(** The first [n] of the sorted array are in descending order, and none of
    them has a smaller key than one of the others. *)
Lemma sorted_take_best (n : nat) (arr : list A) :
  descendingBy key (take n (Array_sort compare arr))
  /\ forall a b, a ∈ take n (Array_sort compare arr) ->
                 b ∈ drop n (Array_sort compare arr) -> key b <= key a.
Proof.
  split.
  - apply descendingBy_take, Array_sort_descendingBy.
  - apply descendingBy_app. rewrite take_drop. apply Array_sort_descendingBy.
Qed.

(** The first of the sorted array has the largest key of the array. *)
Lemma sorted_head_max (top : A) (others arr : list A) :
  Array_sort compare arr = top :: others ->
  forall b, b ∈ arr -> key b <= key top.
Proof.
  intros Hsorted b Hb.
  pose proof (Array_sort_descendingBy arr) as Hd. rewrite Hsorted in Hd.
  pose proof (descendingBy_head_max _ _ Hd) as Hmax. rewrite Forall_forall in Hmax.
  rewrite (Array_sort_perm compare arr), Hsorted in Hb.
  apply elem_of_cons in Hb as [->|Hb]; [lia | now apply Hmax].
Qed.

End SortByKey.

Lemma filter_head_split {A} (p : A -> bool) (l : list A) (x : A) (more : list A) :
  List.filter p l = x :: more ->
  exists before after,
    l = (before ++ x :: after)%list /\ Forall (fun y => p y = false) before.
Proof.
  induction l as [|a l IH]; simpl; [discriminate|].
  destruct (p a) eqn:Hpa.
  - intros Heq. inversion Heq; subst. exists [], l. split; [reflexivity | constructor].
  - intros Heq. destruct (IH Heq) as (before & after & -> & Hbefore).
    exists (a :: before), after. split; [reflexivity|]. now constructor.
Qed.

(** ** The repository of the digest *)

(** X3.  For a non-empty array the digest is the digest of a repository of
    the array with the most stars, and of the one that comes first in the
    array when several have that many: in both versions of
    [summarizeScrapedData]. *)
Theorem digest_top_repository (h : Heap) (l : loc) (r : RepoData) (rs : list RepoData) :
  h !! l = Some (r :: rs) ->
  exists top before after,
    r :: rs = (before ++ top :: after)%list
    /\ Forall (fun x => stars x < stars top) before
    /\ Forall (fun x => stars x <= stars top) after
    /\ (ScrapeJs.summarizeScrapedData h (JsArray l)).2 = ScrapeJs.digest top
    /\ (EmailJs.summarizeScrapedData h (JsArray l)).2 = EmailJs.digest top.
Proof.
  intros Hl.
  destruct (Array_sort byStars (r :: rs)) as [|top others] eqn:Hsorted.
  { pose proof (Array_sort_perm byStars (r :: rs)) as Hperm. rewrite Hsorted in Hperm.
    now apply Permutation_nil_r in Hperm. }
  pose proof (sorted_head_max stars byStars (fun a b => eq_refl) top others (r :: rs)
                Hsorted) as Hmax.
  pose proof (Array_sort_stable (stars top) (r :: rs)) as Hstable.
  rewrite Hsorted in Hstable.
  assert (List.filter (fun x => stars x =? stars top) (top :: others)
          = top :: List.filter (fun x => stars x =? stars top) others) as Hhead.
  { simpl. now rewrite Z.eqb_refl. }
  rewrite Hhead in Hstable. symmetry in Hstable.
  destruct (filter_head_split _ _ _ _ Hstable) as (before & after & Harr & Hbefore).
  exists top, before, after. split; [exact Harr|].
  assert (forall x, x ∈ before \/ x ∈ after -> stars x <= stars top) as Hle.
  { intros x Hx. apply Hmax. rewrite Harr. apply elem_of_app.
    destruct Hx as [Hx|Hx]; [now left|]. right. apply elem_of_cons. now right. }
  split; [|split; [|split]].
  - rewrite Forall_forall in Hbefore |- *. intros x Hx.
    specialize (Hbefore x Hx). simpl in Hbefore.
    specialize (Hle x (or_introl Hx)). lia.
  - rewrite Forall_forall. intros x Hx. apply Hle. now right.
  - unfold ScrapeJs.summarizeScrapedData. rewrite Hl. cbv zeta. now rewrite Hsorted.
  - unfold EmailJs.summarizeScrapedData. rewrite Hl. cbv zeta. now rewrite Hsorted.
Qed.

(** Repositories with 10, 50 and 50 stars: the digest is of the first with
    50. *)
Lemma digest_top_repository_witness :
  let repo nm st := mkRepo nm "https://github.com/o" st [] [] None None in
  let h : Heap := {[ 0%nat := [repo "a" 10; repo "b" 50; repo "c" 50] ]} in
  exists top before after,
    [repo "a" 10; repo "b" 50; repo "c" 50] = (before ++ top :: after)%list
    /\ Forall (fun x => stars x < stars top) before
    /\ Forall (fun x => stars x <= stars top) after
    /\ (ScrapeJs.summarizeScrapedData h (JsArray 0%nat)).2 = ScrapeJs.digest top
    /\ (EmailJs.summarizeScrapedData h (JsArray 0%nat)).2 = EmailJs.digest top.
Proof.
  cbv zeta.
  assert (({[ 0%nat := [mkRepo "a" "https://github.com/o" 10 [] [] None None;
                       mkRepo "b" "https://github.com/o" 50 [] [] None None;
                       mkRepo "c" "https://github.com/o" 50 [] [] None None] ]} : Heap)
            !! 0%nat
          = Some [mkRepo "a" "https://github.com/o" 10 [] [] None None;
                  mkRepo "b" "https://github.com/o" 50 [] [] None None;
                  mkRepo "c" "https://github.com/o" 50 [] [] None None])
    as Hl by (vm_compute; reflexivity).
  exact (digest_top_repository _ _ _ _ Hl).
Defined.

(** ** The repositories the scrape stage selects *)

Lemma fetchContributors_returns (w : World) (orgName repoName : string) :
  returns (ScrapeJs.fetchContributors w orgName repoName).
Proof. unfold ScrapeJs.fetchContributors. auto with stage. Qed.

Lemma fetchCommits_returns (w : World) (orgName repoName : string) :
  returns (ScrapeJs.fetchCommits w orgName repoName).
Proof. unfold ScrapeJs.fetchCommits. auto with stage. Qed.

Lemma fetchContributors_ts_returns (w : World) (orgName repoName : string) :
  returns (ScrapeTs.fetchContributors w orgName repoName).
Proof. unfold ScrapeTs.fetchContributors. auto with stage. Qed.

Lemma fetchCommits_ts_returns (w : World) (orgName repoName : string) :
  returns (ScrapeTs.fetchCommits w orgName repoName).
Proof. unfold ScrapeTs.fetchCommits. auto with stage. Qed.

Lemma processRepo_one (w : World) (orgName : string) (repo : OrgRepo) (s : State) :
  exists r s', ScrapeJs.processRepo w orgName repo s = (Ok [r], s') /\ storedFor repo r.
Proof.
  unfold ScrapeJs.processRepo, bind at 1.
  destruct (fetchContributors_returns w orgName (repo_name repo) s)
    as (contributors & s1 & ->).
  unfold bind at 1.
  destruct (fetchCommits_returns w orgName (repo_name repo) s1)
    as (commitsData & s2 & ->).
  eexists _, _. split; [reflexivity|]. now repeat split.
Qed.

Lemma processRepo_ts_one (w : World) (orgName : string) (repo : OrgRepo) (s : State) :
  exists r s', ScrapeTs.processRepo w orgName repo s = (Ok [r], s') /\ storedFor repo r.
Proof.
  unfold ScrapeTs.processRepo, bind at 1.
  destruct (fetchContributors_ts_returns w orgName (repo_name repo) s)
    as (contributors & s1 & ->).
  unfold bind at 1.
  destruct (fetchCommits_ts_returns w orgName (repo_name repo) s1)
    as (commitsData & s2 & ->).
  eexists _, _. split; [reflexivity|]. now repeat split.
Qed.

Lemma processRepo_ts_keeps_store (w : World) (orgName : string) (repo : OrgRepo) :
  keeps_store (ScrapeTs.processRepo w orgName repo).
Proof.
  unfold ScrapeTs.processRepo, ScrapeTs.fetchContributors, ScrapeTs.fetchCommits,
    ScrapeTs.fetchCommit.
  auto 20 with stage.
Qed.

Lemma storedFor_descending (repos : list OrgRepo) (results : list RepoData) :
  Forall2 storedFor repos results ->
  descendingBy stargazers_count repos -> descendingBy stars results.
Proof.
  induction 1 as [|repo r repos results (_ & _ & Hr) Hrest IH]; intros Hd; [exact I|].
  destruct Hrest as [|repo' r' repos' results' (_ & _ & Hr') Hrest'].
  - exact I.
  - destruct Hd as [Hge Hd]. split; [lia | now apply IH].
Qed.

(** X4.  scrape.js, once the listing of the repositories has answered,
    processes the first repository of the listing sorted by descending
    stars and no other: the stage returns, the result is that repository
    (name, link and stars as listed) or nothing when the listing is empty,
    no listed repository has more stars, and the table either is as it was
    (the update reported an error) or has the result as [scraped_data] of the
    company, which it has whenever updates report no error. *)
Theorem scrape_selects_most_starred (w : World) (companyId : Z) (s : State)
    (row : Company) (orgName : string) (repos : list OrgRepo) :
  db_select w (calls s) (store s) companyId = mkSelect (Some row) None ->
  ScrapeJs.orgNameOf w (website row) = Ok orgName ->
  listForOrg w (calls s ++ [DbSelect companyId]) orgName = Ok repos ->
  exists results s',
    ScrapeJs.main w companyId s = (Ok tt, s')
    /\ Forall2 storedFor (slice0 1 (Array_sort byStargazers repos)) results
    /\ length results = Nat.min 1 (length repos)
    /\ (forall r repo, r ∈ results -> repo ∈ repos -> stargazers_count repo <= stars r)
    /\ (store s' = store s
        \/ store s' = alter (setColumn (Scraped results)) companyId (store s))
    /\ ((forall h, db_update w h companyId "scraped_data" = None) ->
        store s' = alter (setColumn (Scraped results)) companyId (store s)).
Proof.
  intros Hsel Horg Hlist.
  unfold ScrapeJs.main, try_catch, bind at 1, select_single. rewrite Hsel.
  cbv beta iota. cbn [error data]. rewrite Horg.
  rewrite bind_await. cbn [calls]. rewrite Hlist. cbv zeta. unfold bind at 1.
  match goal with
  | |- context [ for_of ?body ?xs ?st ] =>
      destruct (for_of_one_each storedFor body xs (processRepo_one w orgName) st)
        as (results & s2 & Hloop & Hstored);
      pose proof (keeps_for_of body xs (processRepo_keeps_store w orgName) st) as Hkeep;
      rewrite Hloop in Hkeep |- *; cbn [snd store] in Hkeep
  end.
  exists results. unfold bind, update_eq. cbv beta iota.
  assert (length results = Nat.min 1 (length repos)) as Hlen.
  { rewrite <- (Forall2_length _ _ _ Hstored). unfold slice0. rewrite length_take.
    now rewrite <- (Permutation_length (Array_sort_perm byStargazers repos)). }
  assert (forall r repo, r ∈ results -> repo ∈ repos ->
                         stargazers_count repo <= stars r) as Hbest.
  { intros r repo Hr Hrepo.
    destruct (Array_sort byStargazers repos) as [|top others] eqn:Hsorted.
    - inversion Hstored; subst. now apply elem_of_nil in Hr.
    - unfold slice0 in Hstored. simpl in Hstored. rewrite take_0 in Hstored.
      inversion Hstored as [|? r0 ? ? (_ & _ & Hstars) Hnil]; subst.
      inversion Hnil; subst. apply list_elem_of_singleton in Hr. subst r0.
      rewrite Hstars.
      exact (sorted_head_max stargazers_count byStargazers (fun a b => eq_refl)
               top others repos Hsorted repo Hrepo). }
  destruct (db_update w (calls s2) companyId (columnName (Scraped results)))
    as [updateError|] eqn:Hupdate.
  - eexists. split; [reflexivity|]. split; [exact Hstored|]. split; [exact Hlen|].
    split; [exact Hbest|]. cbn [snd store console_error]. split; [now left|].
    intros Hnever. simpl in Hupdate. rewrite Hnever in Hupdate. discriminate.
  - eexists. split; [reflexivity|]. split; [exact Hstored|]. split; [exact Hlen|].
    split; [exact Hbest|]. cbn [snd store ret]. rewrite Hkeep. split; [now right|].
    reflexivity.
Qed.

(** Repositories with 10, 50 and 5 stars: the one with 50 is stored. *)
Lemma scrape_selects_most_starred_witness :
  exists results s',
    ScrapeJs.main servicesUp 107 (start {[ 107 := elastic ]}) = (Ok tt, s')
    /\ map stars results = [50]
    /\ store s' = alter (setColumn (Scraped results)) 107 {[ 107 := elastic ]}.
Proof.
  assert (db_select servicesUp (calls (start {[ 107 := elastic ]}))
            (store (start {[ 107 := elastic ]})) 107 = mkSelect (Some elastic) None)
    as Hrow by (vm_compute; reflexivity).
  assert (ScrapeJs.orgNameOf servicesUp (website elastic) = Ok "elastic")
    as Horg by (vm_compute; reflexivity).
  destruct (scrape_selects_most_starred servicesUp 107 (start {[ 107 := elastic ]})
              elastic "elastic" _ Hrow Horg eq_refl)
    as (results & s' & Hrun & Hstored & _ & _ & _ & Hupdate).
  exists results, s'. split; [exact Hrun|]. split.
  - unfold slice0 in Hstored. vm_compute in Hstored.
    inversion Hstored as [|? r ? ? (_ & _ & Hstars) Hnil]; subst.
    inversion Hnil; subst. simpl. f_equal. exact Hstars.
  - apply Hupdate. reflexivity.
Defined.

Lemma fetchCommits_ts_bare (w : World) (orgName repoName : string)
    (s s' : State) (commitsData : list CommitData) :
  ScrapeTs.fetchCommits w orgName repoName s = (Ok commitsData, s') ->
  Forall (fun c => stats c = None /\ message c = None) commitsData.
Proof.
  unfold ScrapeTs.fetchCommits, try_catch. rewrite bind_await.
  destruct (listCommits w (calls s) orgName repoName) as [shas|err].
  - destruct (for_of _ shas _) as [[cs|err] s2] eqn:Hloop;
      intros Hrun; inversion Hrun; subst; [|constructor].
    eapply for_of_Forall; [|exact Hloop].
    intros sha t pushed t'. unfold ScrapeTs.fetchCommit, try_catch.
    rewrite bind_await.
    destruct (getCommit w (calls t) orgName repoName sha) as [d|err];
      intros Hpush; inversion Hpush; subst; repeat constructor.
  - intros Hrun; inversion Hrun; subst. constructor.
Qed.

Lemma processRepo_ts_bare (w : World) (orgName : string) (repo : OrgRepo) (s : State) :
  exists r s',
    ScrapeTs.processRepo w orgName repo s = (Ok [r], s') /\ storedFor repo r /\ bare r.
Proof.
  unfold ScrapeTs.processRepo, bind at 1.
  destruct (fetchContributors_ts_returns w orgName (repo_name repo) s)
    as (contributors & s1 & ->).
  unfold bind at 1.
  destruct (fetchCommits_ts_returns w orgName (repo_name repo) s1)
    as (commitsData & s2 & Hcommits). rewrite Hcommits.
  eexists _, _. split; [reflexivity|]. split; [now repeat split|].
  split; [reflexivity|]. split; [reflexivity|].
  exact (fetchCommits_ts_bare _ _ _ _ _ _ Hcommits).
Qed.

(** X5.  scrape.ts, once the listing of the repositories has answered,
    processes the first four repositories of the listing sorted by
    descending stars: the stage returns, the result holds these repositories
    in descending order of stars (name, link and stars as listed), none of
    the repositories left out has more stars than one of them, and each is
    stored without averages and with commits that carry neither message nor
    stats.  The table either is as it was or has the result as
    [scraped_data] of the company. *)
Theorem scrape_ts_selects_four (w : World) (companyId : Z) (s : State)
    (row : Company) (orgName : string) (repos : list OrgRepo) :
  db_select w (calls s) (store s) companyId = mkSelect (Some row) None ->
  ScrapeTs.orgNameOf w (website row) = Ok orgName ->
  listForOrg w (calls s ++ [DbSelect companyId]) orgName = Ok repos ->
  exists results s',
    ScrapeTs.main w companyId s = (Ok tt, s')
    /\ Forall2 storedFor (slice0 4 (Array_sort byStargazers repos)) results
    /\ length results = Nat.min 4 (length repos)
    /\ descendingBy stars results
    /\ (forall r repo, r ∈ results -> repo ∈ drop 4 (Array_sort byStargazers repos) ->
         stargazers_count repo <= stars r)
    /\ Forall bare results
    /\ (store s' = store s
        \/ store s' = alter (setColumn (Scraped results)) companyId (store s)).
Proof.
  intros Hsel Horg Hlist.
  unfold ScrapeTs.main, try_catch, bind at 1, select_single. rewrite Hsel.
  cbv beta iota. cbn [error data]. rewrite Horg.
  rewrite bind_await. cbn [calls]. rewrite Hlist. cbv zeta. unfold bind at 1.
  match goal with
  | |- context [ for_of ?body ?xs ?st ] =>
      destruct (for_of_one_each (fun repo r => storedFor repo r /\ bare r)
                  body xs (processRepo_ts_bare w orgName) st)
        as (results & s2 & Hloop & Hboth);
      pose proof (keeps_for_of body xs (processRepo_ts_keeps_store w orgName) st) as Hkeep;
      rewrite Hloop in Hkeep |- *; cbn [snd store] in Hkeep
  end.
  assert (Forall2 storedFor (slice0 4 (Array_sort byStargazers repos)) results) as Hstored.
  { eapply Forall2_impl; [exact Hboth|]. now intros repo r [H _]. }
  assert (Forall bare results) as Hbare.
  { clear -Hboth. induction Hboth as [|repo r repos' results' [_ Hr] _ IH];
      constructor; assumption. }
  destruct (sorted_take_best stargazers_count byStargazers (fun a b => eq_refl) 4 repos)
    as [Hdesc Hbest].
  exists results. unfold bind, update_eq. cbv beta iota.
  assert (store s2 = store s \/
          alter (setColumn (Scraped results)) companyId (store s2)
          = alter (setColumn (Scraped results)) companyId (store s)) as Hs2
    by (right; now rewrite Hkeep).
  destruct (db_update w (calls s2) companyId (columnName (Scraped results)))
    as [updateError|]; eexists; (split; [reflexivity|]);
    (split; [exact Hstored|]); (split; [|split; [|split; [|split]]]).
  1,6: rewrite <- (Forall2_length _ _ _ Hstored); unfold slice0; rewrite length_take;
       now rewrite <- (Permutation_length (Array_sort_perm byStargazers repos)).
  1,5: exact (storedFor_descending _ _ Hstored Hdesc).
  1,4: intros r repo Hr Hrepo;
       destruct (proj1 (list_elem_of_lookup _ _) Hr) as [i Hi];
       destruct (Forall2_lookup_r _ _ _ _ _ Hstored Hi) as (top & Htop & _ & _ & Hstars);
       rewrite Hstars; apply Hbest; [|exact Hrepo];
       apply list_elem_of_lookup; now exists i.
  1,3: exact Hbare.
  - cbn [snd store console_error]. now left.
  - cbn [snd store ret]. right. now rewrite Hkeep.
Qed.

(** Repositories with 10, 50 and 5 stars: all three are stored, the one with
    50 first. *)
Lemma scrape_ts_selects_four_witness :
  exists results s',
    ScrapeTs.main servicesUp 107 (start {[ 107 := elastic ]}) = (Ok tt, s')
    /\ length results = 3%nat
    /\ descendingBy stars results
    /\ Forall bare results.
Proof.
  assert (db_select servicesUp (calls (start {[ 107 := elastic ]}))
            (store (start {[ 107 := elastic ]})) 107 = mkSelect (Some elastic) None)
    as Hrow by (vm_compute; reflexivity).
  assert (ScrapeTs.orgNameOf servicesUp (website elastic) = Ok "elastic")
    as Horg by (vm_compute; reflexivity).
  destruct (scrape_ts_selects_four servicesUp 107 (start {[ 107 := elastic ]})
              elastic "elastic" _ Hrow Horg eq_refl)
    as (results & s' & Hrun & _ & Hlen & Hdesc & _ & Hbare & _).
  exists results, s'. repeat split; assumption.
Defined.

(** ** The commits and the contributors of a repository *)

Lemma fetchCommit_loop (w : World) (orgName repoName : string)
    (answer : string -> Result CommitDetails) (shas : list string) (s : State) :
  (forall h sha, getCommit w h orgName repoName sha = answer sha) ->
  exists s',
    for_of (ScrapeJs.fetchCommit w orgName repoName) shas s
      = (Ok (fetched answer shas), s')
    /\ errors s' = (errors s ++ fetchFailures answer repoName shas)%list
    /\ store s' = store s.
Proof.
  intros Hanswer. revert s. induction shas as [|sha rest IH]; intros s.
  - exists s. cbn [for_of fetched fetchFailures]. rewrite app_nil_r. now repeat split.
  - cbn [for_of fetched fetchFailures]. unfold bind at 1.
    unfold ScrapeJs.fetchCommit at 1, try_catch. rewrite bind_await, Hanswer.
    destruct (answer sha) as [d|err].
    + unfold ret at 1. cbv beta iota. unfold bind at 1.
      match goal with
      | |- context [ for_of _ rest ?st ] => destruct (IH st) as (s' & Hrest & Herr & Hstore)
      end.
      rewrite Hrest. exists s'. split; [reflexivity|].
      split; [exact Herr | exact Hstore].
    + unfold bind at 1, console_error at 1. cbv beta iota. unfold ret at 1.
      cbv beta iota. unfold bind at 1.
      match goal with
      | |- context [ for_of _ rest ?st ] => destruct (IH st) as (s' & Hrest & Herr & Hstore)
      end.
      rewrite Hrest. exists s'. split; [reflexivity|].
      split; [|exact Hstore]. rewrite Herr. cbn [errors].
      now rewrite <- app_assoc.
Qed.

(** X6.  Against a commit service that answers a given commit always the same
    way, scrape.js stores the commits of the listing in the order of the
    listing, those whose details cannot be fetched left out and logged one
    line each; when the listing itself throws it stores no commit, logs one
    line and goes on. *)
Theorem fetchCommits_in_order (w : World) (orgName repoName : string)
    (answer : string -> Result CommitDetails) (s : State) :
  (forall h sha, getCommit w h orgName repoName sha = answer sha) ->
  (forall shas,
     listCommits w (calls s) orgName repoName = Ok shas ->
     exists s',
       ScrapeJs.fetchCommits w orgName repoName s = (Ok (fetched answer shas), s')
       /\ errors s' = (errors s ++ fetchFailures answer repoName shas)%list
       /\ store s' = store s)
  /\ (forall err,
       listCommits w (calls s) orgName repoName = Thrown err ->
       ScrapeJs.fetchCommits w orgName repoName s =
         (Ok [], {| store := store s;
                    calls := calls s ++ [ListCommits orgName repoName];
                    errors := errors s ++
                      ["Error fetching commits for repository " +:+ repoName +:+ ":"] |})).
Proof.
  intros Hanswer. split.
  - intros shas Hlist. unfold ScrapeJs.fetchCommits, try_catch.
    rewrite bind_await, Hlist.
    match goal with
    | |- context [ for_of _ shas ?st ] =>
        destruct (fetchCommit_loop w orgName repoName answer shas st Hanswer)
          as (s' & -> & Herr & Hstore)
    end.
    exists s'. split; [reflexivity|]. split; [exact Herr | exact Hstore].
  - intros err Hlist. unfold ScrapeJs.fetchCommits, try_catch.
    rewrite bind_await, Hlist. reflexivity.
Qed.

(** Four commits listed, the fourth not to be fetched: three are stored. *)
Lemma fetchCommits_in_order_witness :
  exists s',
    ScrapeJs.fetchCommits servicesUp "elastic" "kibana" (start ∅)
      = (Ok (fetched detailOf ["c1"; "c2"; "c3"; "c4"]), s')
    /\ map author (fetched detailOf ["c1"; "c2"; "c3"; "c4"]) = ["ada"; "Bob"; "Unknown"]
    /\ errors s' = ["Error fetching details for commit c4 in repo kibana:"].
Proof.
  destruct (fetchCommits_in_order servicesUp "elastic" "kibana" detailOf (start ∅)
              (fun h sha => eq_refl)) as [Hlisted _].
  destruct (Hlisted ["c1"; "c2"; "c3"; "c4"] eq_refl) as (s' & Hrun & Herr & _).
  exists s'. split; [exact Hrun|]. split; [vm_compute; reflexivity|].
  rewrite Herr. vm_compute. reflexivity.
Defined.

Lemma contributorName_resolves (w : World) (login : string) (s : State) :
  exists fullName s',
    ScrapeJs.contributorName w login s = (Ok fullName, s')
    /\ (fullName = login
        \/ fullName <> ""
           /\ exists user, getByUsername w (calls s) login = Ok user
                           /\ user_name user = Some fullName).
Proof.
  unfold ScrapeJs.contributorName, try_catch. rewrite bind_await.
  destruct (getByUsername w (calls s) login) as [user|err] eqn:Hprofile.
  - eexists _, _. split; [reflexivity|]. unfold or_else.
    destruct (user_name user) as [n|] eqn:Hname; [|now left].
    destruct n as [|ch n]; [now left|]. right. split; [discriminate|].
    exists user. now split.
  - eexists _, _. split; [reflexivity|]. now left.
Qed.

(** X7.  When the listing of the contributors answers, scrape.js stores one
    name per listed login, in the order of the listing: the display name of
    the profile when the profile fetch answers with a non-empty one, the
    login otherwise.  When the listing throws it stores no contributor, logs
    one line and goes on.  scrape.ts stores the logins as listed. *)
Theorem contributors_resolved (w : World) (orgName repoName : string) (s : State) :
  (forall logins,
     listContributors w (calls s) orgName repoName = Ok logins ->
     (exists names s',
        ScrapeJs.fetchContributors w orgName repoName s = (Ok names, s')
        /\ Forall2 (fun login fullName =>
                      fullName = login
                      \/ fullName <> ""
                         /\ exists h user, getByUsername w h login = Ok user
                                           /\ user_name user = Some fullName)
             logins names)
     /\ (ScrapeTs.fetchContributors w orgName repoName s).1 = Ok logins)
  /\ (forall err,
       listContributors w (calls s) orgName repoName = Thrown err ->
       ScrapeJs.fetchContributors w orgName repoName s =
         (Ok [], {| store := store s;
                    calls := calls s ++ [ListContributors orgName repoName];
                    errors := errors s ++
                      ["Error fetching contributors for repository " +:+ repoName +:+ ":"] |})).
Proof.
  split.
  - intros logins Hlist. split.
    + unfold ScrapeJs.fetchContributors, try_catch. rewrite bind_await, Hlist.
      match goal with
      | |- context [ for_of ?body logins ?st ] =>
          destruct (for_of_one_each
                      (fun login fullName =>
                         fullName = login
                         \/ fullName <> ""
                            /\ exists h user, getByUsername w h login = Ok user
                                              /\ user_name user = Some fullName)
                      body logins) with (s := st) as (names & s' & -> & Hnames)
      end.
      * intros login t. destruct (contributorName_resolves w login t)
          as (fullName & t' & Hrun & Hname).
        exists fullName, t'. unfold bind. rewrite Hrun. split; [reflexivity|].
        destruct Hname as [->|(Hne & user & Hprofile & Hname)]; [now left|].
        right. split; [exact Hne|]. now exists (calls t), user.
      * now exists names, s'.
    + unfold ScrapeTs.fetchContributors, try_catch, await. now rewrite Hlist.
  - intros err Hlist. unfold ScrapeJs.fetchContributors, try_catch.
    rewrite bind_await, Hlist. reflexivity.
Qed.

(** One contributor listed, with the display name Ada L. *)
Lemma contributors_resolved_witness :
  exists names s',
    ScrapeJs.fetchContributors servicesUp "elastic" "kibana" (start ∅) = (Ok names, s')
    /\ length names = 1%nat.
Proof.
  destruct (contributors_resolved servicesUp "elastic" "kibana" (start ∅)) as [Hlisted _].
  destruct (Hlisted ["ada"] eq_refl) as [(names & s' & Hrun & Hnames) _].
  exists names, s'. split; [exact Hrun|].
  now rewrite <- (Forall2_length _ _ _ Hnames).
Defined.

(** ** What the digest depends on *)

Lemma str_slice0_idem (n : nat) (s : string) :
  str_slice0 n (str_slice0 n s) = str_slice0 n s.
Proof.
  revert s. induction n as [|n IH]; intros [|c s]; simpl; try reflexivity.
  now rewrite IH.
Qed.

Lemma commitBlock_cutDiff (index : nat) (c : CommitData) :
  commitBlock index (cutDiff c) = commitBlock index c.
Proof.
  unfold commitBlock, diffExcerpt. cbn [cutDiff diff author].
  now rewrite str_slice0_idem.
Qed.

Lemma commitBlocks_cutDiff (index : nat) (cs : list CommitData) :
  commitBlocks index (map cutDiff cs) = commitBlocks index cs.
Proof.
  revert index. induction cs as [|c cs IH]; intros index; [reflexivity|].
  cbn [map commitBlocks]. now rewrite IH, commitBlock_cutDiff.
Qed.

Lemma statsOf_cutDiff (cs : list CommitData) : statsOf (map cutDiff cs) = statsOf cs.
Proof.
  induction cs as [|c cs IH]; simpl; [reflexivity|].
  rewrite IH. reflexivity.
Qed.

Lemma slice0_cut (cs : list CommitData) :
  slice0 3 (map cutDiff (slice0 3 cs)) = map cutDiff (slice0 3 cs).
Proof.
  unfold slice0. rewrite firstn_map, take_take. reflexivity.
Qed.

Lemma commits_withCommits (r : RepoData) (cs : list CommitData) :
  commits (withCommits r cs) = cs.
Proof. reflexivity. Qed.

(** X8.  The digest shows no more of the commits than the first three and of
    each diff no more than the first 200 characters: dropping the later
    commits and cutting the diffs leaves the digest as it is, in both versions
    of [summarizeScrapedData]. *)
Theorem digest_bounded (topRepo : RepoData) (later : list CommitData) :
  let cut := withCommits topRepo (map cutDiff (slice0 3 (commits topRepo))) in
  ScrapeJs.digest topRepo = ScrapeJs.digest cut
  /\ EmailJs.digest topRepo = EmailJs.digest cut
  /\ (length (slice0 3 (commits topRepo)) = 3%nat ->
      ScrapeJs.digest (withCommits topRepo (slice0 3 (commits topRepo) ++ later))
      = ScrapeJs.digest topRepo
      /\ EmailJs.digest (withCommits topRepo (slice0 3 (commits topRepo) ++ later))
         = EmailJs.digest topRepo).
Proof.
  cbv zeta.
  assert (forall cs, digestHeader (withCommits topRepo cs) = digestHeader topRepo)
    as Hheader by reflexivity.
  split; [|split].
  - rewrite !digest_text, Hheader. rewrite !commits_withCommits. unfold qualifying.
    rewrite slice0_cut, statsOf_cutDiff, commitBlocks_cutDiff.
    destruct (commits topRepo) as [|c cs]; reflexivity.
  - rewrite !digest_text_email, Hheader.
    rewrite !commits_withCommits.
      cbn [withCommits averageAdditions averageDeletions].
    rewrite slice0_cut, commitBlocks_cutDiff.
    destruct (commits topRepo) as [|c cs]; reflexivity.
  - intros Hthree.
    assert (slice0 3 (slice0 3 (commits topRepo) ++ later) = slice0 3 (commits topRepo))
      as Hsame.
    { unfold slice0 in *. rewrite take_app_length'; [reflexivity | now symmetry]. }
    split.
    + rewrite !digest_text, Hheader. rewrite !commits_withCommits. unfold qualifying.
      rewrite Hsame.
      destruct (commits topRepo) as [|c cs]; [discriminate | reflexivity].
    + rewrite !digest_text_email, Hheader.
      rewrite !commits_withCommits.
      cbn [withCommits averageAdditions averageDeletions]. rewrite Hsame.
      destruct (commits topRepo) as [|c cs]; [discriminate | reflexivity].
Qed.

(** Three commits: a fourth does not change the digest. *)
Lemma digest_bounded_witness :
  let c who := mkCommit (Some "m") who "+x" (Some (mkStats 1 0 1)) in
  let r cs := mkRepo "core" "https://github.com/o/core" 7 [] cs None None in
  ScrapeJs.digest (r [c "a"; c "b"; c "c"; c "d"]) = ScrapeJs.digest (r [c "a"; c "b"; c "c"]).
Proof.
  cbv zeta.
  destruct (digest_bounded
              (mkRepo "core" "https://github.com/o/core" 7 []
                 [mkCommit (Some "m") "a" "+x" (Some (mkStats 1 0 1));
                  mkCommit (Some "m") "b" "+x" (Some (mkStats 1 0 1));
                  mkCommit (Some "m") "c" "+x" (Some (mkStats 1 0 1))] None None)
              [mkCommit (Some "m") "d" "+x" (Some (mkStats 1 0 1))])
    as (_ & _ & Hlater).
  destruct (Hlater eq_refl) as [Hscrape _]. exact Hscrape.
Defined.

(** ** The digest of what scrape.js stores *)

(** X9.  For a repository as scrape.js stores it, the digest of email.js is
    the digest [summarizeScrapedData] of scrape.js computes, except that for
    a repository without commits email.js adds the line of the averages
    +0 and -0, which scrape.js leaves out. *)
Theorem digests_agree_on_stored (w : World) (orgName : string) (repo : OrgRepo)
    (s s' : State) (r : RepoData) :
  ScrapeJs.processRepo w orgName repo s = (Ok [r], s') ->
  EmailJs.digest r =
    ScrapeJs.digest r +:+
    match commits r with
    | [] => averageLine 0 0
    | _ :: _ => ""
    end.
Proof.
  intros Hrun.
  pose proof (processRepo_stats _ _ _ _ _ _ Hrun) as Hstats.
  inversion Hstats as [|? ? Hall _]; subst. unfold allWithStats in Hall.
  unfold ScrapeJs.processRepo, bind in Hrun.
  destruct (ScrapeJs.fetchContributors _ _ _ s) as [[contributors|e1] s1]; [|discriminate].
  destruct (ScrapeJs.fetchCommits _ _ _ s1) as [[commitsData|e2] s2]; [|discriminate].
  unfold ret in Hrun.
  assert (r = {| name := repo_name repo; link := html_url repo;
                 stars := stargazers_count repo; top50contributors := contributors;
                 repo_commits := Some commitsData;
                 averageAdditions := Some (averages commitsData).1;
                 averageDeletions := Some (averages commitsData).2 |}) as Hr
    by congruence.
  clear Hrun. subst r.
  rewrite digest_text, digest_text_email.
  unfold commits in *. cbn [repo_commits averageAdditions averageDeletions] in *.
  rewrite averages_of_qualifying.
  destruct commitsData as [|c cs].
  - cbn. now rewrite !str_app_nil_r.
  - assert (length (qualifying (c :: cs)) = length (slice0 3 (c :: cs))) as Hlen.
    { unfold qualifying. apply statsOf_all. unfold slice0. now apply Forall_take. }
    cbv zeta. destruct (decide (Z.of_nat (length (qualifying (c :: cs))) > 0)) as [Hn|Hn].
    + cbn [fst snd]. now rewrite !str_app_assoc, str_app_nil_r.
    + rewrite Hlen in Hn. simpl in Hn. lia.
Qed.

(** The repository stored with the services up. *)
Lemma digests_agree_on_stored_witness :
  exists r,
    (ScrapeJs.processRepo servicesUp "elastic"
       (mkOrgRepo "kibana" "https://github.com/elastic/kibana" 10) (start ∅)).1 = Ok [r]
    /\ EmailJs.digest r = ScrapeJs.digest r +:+ "".
Proof.
  destruct (ScrapeJs.processRepo servicesUp "elastic"
              (mkOrgRepo "kibana" "https://github.com/elastic/kibana" 10) (start ∅))
    as [[[|r [|r' rest]]|err] s'] eqn:Hrun; try (vm_compute in Hrun; discriminate).
  exists r. split; [reflexivity|].
  rewrite (digests_agree_on_stored _ _ _ _ _ _ Hrun).
  assert (commits r <> []) as Hcommits.
  { vm_compute in Hrun. inversion Hrun. discriminate. }
  destruct (commits r); [congruence | reflexivity].
Defined.

(** ** The summaries of a commit *)

Lemma trimmedOr_result (content : option string) (fallback : string) (s : State) :
  fallback <> "" ->
  (exists out, UpdateNiceData.trimmedOr content fallback s = (Ok out, s)
               /\ out <> ""
               /\ ((forall text, content = Some text -> trim text = "") -> out = fallback))
  \/ content = None
     /\ exists err, UpdateNiceData.trimmedOr content fallback s = (Thrown err, s).
Proof.
  intros Hfb. destruct content as [text|]; [left | right; split; [reflexivity | now eexists]].
  unfold UpdateNiceData.trimmedOr, ret, or_else.
  destruct (trim text) as [|ch rest] eqn:Htrim; simpl.
  - exists fallback. now repeat split.
  - eexists. split; [reflexivity|]. split; [discriminate|].
    intros Hblank. specialize (Hblank text eq_refl). congruence.
Qed.

(** X10.  [summarizeCommitMessage] and [summarizeCommitDiff] never throw and
    never return the empty string; each makes one call, to the generation
    service, and leaves the table as it is.  When the service throws, or
    answers with [null] or with nothing but spaces, the result is the
    sentinel [No summary available.], respectively [Summary not available.]. *)
Theorem commit_summaries_never_empty (w : World) (text : string) (s : State) :
  (exists out prompt s',
     UpdateNiceData.summarizeCommitMessage w text s = (Ok out, s')
     /\ out <> "" /\ store s' = store s
     /\ calls s' = (calls s ++ [ChatCompletion prompt])%list
     /\ (noText w (calls s) -> out = "No summary available."))
  /\ (exists out prompt s',
       UpdateNiceData.summarizeCommitDiff w text s = (Ok out, s')
       /\ out <> "" /\ store s' = store s
       /\ calls s' = (calls s ++ [ChatCompletion prompt])%list
       /\ (noText w (calls s) -> out = "Summary not available.")).
Proof.
  split.
  - unfold UpdateNiceData.summarizeCommitMessage. cbv zeta. unfold try_catch.
    rewrite bind_await.
    match goal with
    | |- context [ chatCompletion w (calls s) ?p ] =>
        set (prompt := p);
        destruct (chatCompletion w (calls s) prompt) as [content|err] eqn:Hchat
    end.
    + match goal with
      | |- context [ UpdateNiceData.trimmedOr content ?fb ?st ] =>
          destruct (trimmedOr_result content fb st ltac:(discriminate))
            as [(out & -> & Hne & Hfb) | (-> & err & ->)]
      end.
      * exists out, prompt. eexists. split; [reflexivity|]. split; [exact Hne|].
        split; [reflexivity|]. split; [reflexivity|].
        intros Hno. apply Hfb. intros t ->.
        destruct (Hno prompt) as [(e & He) | [He | (t' & He & Ht')]]; congruence.
      * exists "No summary available.", prompt. eexists. split; [reflexivity|].
        now repeat split.
    + exists "No summary available.", prompt. eexists. split; [reflexivity|].
      now repeat split.
  - unfold UpdateNiceData.summarizeCommitDiff. cbv zeta. unfold try_catch.
    rewrite bind_await.
    match goal with
    | |- context [ chatCompletion w (calls s) ?p ] =>
        set (prompt := p);
        destruct (chatCompletion w (calls s) prompt) as [content|err] eqn:Hchat
    end.
    + match goal with
      | |- context [ UpdateNiceData.trimmedOr content ?fb ?st ] =>
          destruct (trimmedOr_result content fb st ltac:(discriminate))
            as [(out & -> & Hne & Hfb) | (-> & err & ->)]
      end.
      * exists out, prompt. eexists. split; [reflexivity|]. split; [exact Hne|].
        split; [reflexivity|]. split; [reflexivity|].
        intros Hno. apply Hfb. intros t ->.
        destruct (Hno prompt) as [(e & He) | [He | (t' & He & Ht')]]; congruence.
      * exists "Summary not available.", prompt. eexists. split; [reflexivity|].
        now repeat split.
    + exists "Summary not available.", prompt. eexists. split; [reflexivity|].
      now repeat split.
Qed.

(** With the services down the summary of a message is the sentinel. *)
Lemma commit_summaries_never_empty_witness :
  (UpdateNiceData.summarizeCommitMessage servicesDown "fix typo" (start ∅)).1
  = Ok "No summary available.".
Proof.
  destruct (commit_summaries_never_empty servicesDown "fix typo" (start ∅))
    as [(out & prompt & s' & Hrun & _ & _ & _ & Hsentinel) _].
  rewrite Hrun. simpl. f_equal. apply Hsentinel.
  intros p. left. now exists "ECONNRESET".
Defined.

(** ** The technologies of a contributor *)

Lemma trimStart_head (s : string) :
  trimStart s = ""
  \/ exists c rest, trimStart s = String c rest /\ is_space c = false.
Proof.
  induction s as [|c s IH]; [now left|].
  simpl. destruct (is_space c) eqn:Hc; [exact IH|]. right. now exists c, s.
Qed.

Lemma trimStart_fixed (c : ascii) (rest : string) :
  is_space c = false -> trimStart (String c rest) = String c rest.
Proof. intros Hc. simpl. now rewrite Hc. Qed.

Lemma trimEnd_head (c : ascii) (rest : string) :
  is_space c = false -> exists rest', trimEnd (String c rest) = String c rest'.
Proof.
  intros Hc. simpl. destruct (trimEnd rest) as [|c' r'].
  - rewrite Hc. now exists "".
  - now eexists.
Qed.

Lemma trimEnd_idem (s : string) : trimEnd (trimEnd s) = trimEnd s.
Proof.
  induction s as [|c s IH]; [reflexivity|].
  simpl. destruct (trimEnd s) as [|c' r'] eqn:Hs.
  - destruct (is_space c) eqn:Hc; [reflexivity|]. simpl. now rewrite Hc.
  - change (trimEnd (String c (String c' r')))
      with (match trimEnd (String c' r') with
            | "" => if is_space c then "" else String c ""
            | String a b => String c (String a b)
            end).
    now rewrite IH.
Qed.

(** Trimming what is trimmed changes nothing. *)
Lemma trim_idem (s : string) : trim (trim s) = trim s.
Proof.
  unfold trim.
  destruct (trimStart_head s) as [-> | (c & rest & -> & Hc)]; [reflexivity|].
  destruct (trimEnd_head c rest Hc) as [rest' Hend].
  rewrite Hend at 1. rewrite (trimStart_fixed c rest' Hc), <- Hend.
  apply trimEnd_idem.
Qed.

Lemma parsed_clean (text : string) :
  Forall (fun t => t <> "" /\ trim t = t)
         (filter_Boolean (map trim (split_on "," (trim text)))).
Proof.
  rewrite Forall_forall. intros t Ht. unfold filter_Boolean in Ht.
  apply list_elem_of_In, filter_In in Ht. destruct Ht as [Hin Htruthy].
  split.
  - intros ->. discriminate.
  - apply in_map_iff in Hin. destruct Hin as (x & <- & _). apply trim_idem.
Qed.

(** X11.  [getTechnologiesForContributor] never throws and leaves the table
    as it is; the technologies it returns are not empty and carry no space at
    either end. *)
Theorem technologies_clean (w : World) (author : string) (s : State) :
  exists techs s',
    UpdateNiceData.getTechnologiesForContributor w author s = (Ok techs, s')
    /\ Forall (fun t => t <> "" /\ trim t = t) techs
    /\ store s' = store s.
Proof.
  unfold UpdateNiceData.getTechnologiesForContributor, try_catch.
  rewrite bind_await.
  destruct (getByUsername w (calls s) author) as [user|e1];
    [|eexists _, _; split; [reflexivity | split; [constructor | reflexivity]]].
  rewrite bind_await. cbn [calls].
  destruct (listForUser w _ author) as [[|topRepo others]|e2];
    [| |eexists _, _; split; [reflexivity | split; [constructor | reflexivity]]].
  - rewrite bind_ret, bind_await. cbn [calls].
    destruct (chatCompletion w _ _) as [[text|]|e3];
      eexists _, _; (split; [reflexivity|]); (split; [|reflexivity]);
      try constructor. apply parsed_clean.
  - rewrite bind_bind, bind_await. cbn [calls].
    destruct (listLanguages w _ author topRepo) as [keys|e3];
      [|eexists _, _; split; [reflexivity | split; [constructor | reflexivity]]].
    rewrite bind_ret, bind_await. cbn [calls].
    destruct (chatCompletion w _ _) as [[text|]|e4];
      eexists _, _; (split; [reflexivity|]); (split; [|reflexivity]);
      try constructor. apply parsed_clean.
Qed.

(** ** What [nice_data] keeps of [scraped_data] *)

Lemma summary_nonempty (w : World) (text : string) (s : State) :
  (exists out s', UpdateNiceData.summarizeCommitMessage w text s = (Ok out, s')
                  /\ out <> "")
  /\ (exists out s', UpdateNiceData.summarizeCommitDiff w text s = (Ok out, s')
                     /\ out <> "").
Proof.
  split.
  - unfold UpdateNiceData.summarizeCommitMessage. cbv zeta. unfold try_catch.
    rewrite bind_await.
    destruct (chatCompletion w (calls s) _) as [content|err];
      [|eexists _, _; split; [reflexivity | discriminate]].
    match goal with
    | |- context [ UpdateNiceData.trimmedOr content ?fb ?st ] =>
        destruct (trimmedOr_result content fb st ltac:(discriminate))
          as [(out & -> & Hne & _) | (-> & err & ->)]
    end.
    + now exists out; eexists.
    + eexists _, _; split; [reflexivity | discriminate].
  - unfold UpdateNiceData.summarizeCommitDiff. cbv zeta. unfold try_catch.
    rewrite bind_await.
    destruct (chatCompletion w (calls s) _) as [content|err];
      [|eexists _, _; split; [reflexivity | discriminate]].
    match goal with
    | |- context [ UpdateNiceData.trimmedOr content ?fb ?st ] =>
        destruct (trimmedOr_result content fb st ltac:(discriminate))
          as [(out & -> & Hne & _) | (-> & err & ->)]
    end.
    + now exists out; eexists.
    + eexists _, _; split; [reflexivity | discriminate].
Qed.

Lemma niceCommit_one (w : World) (c : CommitData) (s : State) :
  exists nc s', UpdateNiceData.niceCommit w c s = (Ok [nc], s') /\ niceFor c nc.
Proof.
  unfold UpdateNiceData.niceCommit, niceFor. unfold bind at 1.
  assert (exists sm s1,
            (if truthy (diff c) then UpdateNiceData.summarizeCommitDiff w (diff c)
             else ret "No diff available.") s = (Ok sm, s1)
            /\ sm <> "" /\ (diff c = "" -> sm = "No diff available."))
    as (sm & s1 & -> & Hsm & Hnodiff).
  { destruct (diff c) as [|ch rest]; simpl.
    - eexists _, _. split; [reflexivity|]. split; [discriminate | reflexivity].
    - destruct (proj2 (summary_nonempty w (String ch rest) s)) as (out & s1 & -> & Hne).
      exists out, s1. split; [reflexivity|]. split; [exact Hne | discriminate]. }
  unfold bind at 1.
  assert (exists ms s2,
            match message c with
            | Some text => if truthy text then UpdateNiceData.summarizeCommitMessage w text
                           else ret "No message available."
            | None => ret "No message available."
            end s1 = (Ok ms, s2)
            /\ ms <> ""
            /\ (message c = None \/ message c = Some "" -> ms = "No message available."))
    as (ms & s2 & -> & Hms & Hnomsg).
  { destruct (message c) as [[|ch rest]|]; simpl.
    - eexists _, _. split; [reflexivity|]. split; [discriminate | reflexivity].
    - destruct (proj1 (summary_nonempty w (String ch rest) s1)) as (out & s2 & -> & Hne).
      exists out, s2. split; [reflexivity|]. split; [exact Hne|].
      intros [H|H]; discriminate.
    - eexists _, _. split; [reflexivity|]. split; [discriminate | reflexivity]. }
  eexists _, _. split; [reflexivity|]. cbn. now repeat split.
Qed.

(** ** What a stage writes *)

Lemma setColumn_only (c : Column) (id : Z) (table : gmap Z Company) :
  onlyColumn (columnName c) id table (alter (setColumn c) id table).
Proof.
  split.
  - intros k Hk. now apply lookup_alter_ne.
  - rewrite lookup_alter_eq. destruct (table !! id) as [b|]; [|exact I].
    destruct c; cbn; repeat split; try reflexivity; intros H; now destruct H.
Qed.

Lemma unchanged_only (col : string) (id : Z) (table : gmap Z Company) :
  onlyColumn col id table table.
Proof.
  split; [reflexivity|]. destruct (table !! id); [now repeat split | exact I].
Qed.

(** A computation that keeps the table, then one update, then a line. *)
Lemma then_update {A} (w : World) (id : Z) (prefix : M A) (col : A -> Column)
    (line : string) (s s' : State) (r : Result unit) :
  keeps_store prefix ->
  (x <- prefix ;;
   updateError <- update_eq w id (col x) ;;
   match updateError with
   | Some _ => console_error line
   | None => ret tt
   end) s = (r, s') ->
  store s' = store s
  \/ exists x, store s' = alter (setColumn (col x)) id (store s).
Proof.
  intros Hkeep. unfold bind at 1. specialize (Hkeep s).
  destruct (prefix s) as [[x|err] s1]; cbn [snd] in Hkeep.
  - unfold bind, update_eq.
    destruct (db_update w (calls s1) id (columnName (col x))) as [updateError|];
      intros Hrun; inversion Hrun; subst; cbn [store].
    + now left.
    + right. exists x. now rewrite Hkeep.
  - intros Hrun; inversion Hrun; subst. now left.
Qed.

Lemma generateEmail_keeps (w : World) (company : Company) :
  keeps_store (EmailJs.generateEmail w company).
Proof.
  unfold EmailJs.generateEmail. destruct (scraped_data company); auto with stage.
Qed.

Lemma stage_only (col : string) (id : Z) (before after : gmap Z Company) :
  (after = before
   \/ exists c, columnName c = col /\ after = alter (setColumn c) id before) ->
  onlyColumn col id before after.
Proof.
  intros [-> | (c & <- & ->)]; [apply unchanged_only | apply setColumn_only].
Qed.

(** X13.  A stage writes at most its own column of the row of its company:
    [scraped_data] for scrape.js and scrape.ts, [email] for email.js,
    [nice_data] for updateNiceData.js.  It adds and removes no row, and what
    the table holds for the other companies and in the other columns is as
    it was, however the stage ends. *)
Theorem stages_write_one_column (w : World) (companyId : Z) (s : State) :
  onlyColumn "scraped_data" companyId (store s) (store (ScrapeJs.main w companyId s).2)
  /\ onlyColumn "scraped_data" companyId (store s) (store (ScrapeTs.main w companyId s).2)
  /\ onlyColumn "email" companyId (store s) (store (EmailJs.main w companyId s).2)
  /\ onlyColumn "nice_data" companyId (store s)
       (store (UpdateNiceData.updateNiceData w companyId s).2).
Proof.
  split; [|split; [|split]]; apply stage_only.
  - destruct (ScrapeJs.main w companyId s) as [r s'] eqn:Hrun.
    destruct (scrape_stores_descending _ _ _ _ _ Hrun) as [H | (results & H & _)];
      [now left|]. right. now exists (Scraped results).
  - destruct (ScrapeTs.main w companyId s) as [r s'] eqn:Hrun. cbn [snd].
    revert Hrun.
    unfold ScrapeTs.main, try_catch, bind at 1, select_single. cbv beta iota.
    destruct (error _) as [e|]; [intros Hrun; inversion Hrun; now left|].
    destruct (data _) as [row|]; [|intros Hrun; inversion Hrun; now left].
    destruct (ScrapeTs.orgNameOf w (website row)) as [orgName|err];
      [|intros Hrun; inversion Hrun; now left].
    unfold bind at 1, await at 1. cbv beta iota.
    destruct (listForOrg w _ orgName) as [repos|err];
      [|intros Hrun; inversion Hrun; now left].
    match goal with
    | |- context [ bind ?m ?k ?st ] =>
        destruct (bind m k st) as [[[]|err] s2] eqn:Hrest;
        apply (then_update w companyId _ Scraped) in Hrest;
        [| apply keeps_for_of, processRepo_ts_keeps_store
         | | apply keeps_for_of, processRepo_ts_keeps_store]
    end;
      intros Hrun; inversion Hrun; subst; cbn [store console_error] in *;
      (destruct Hrest as [H | (results & H)]; [now left|]);
      right; now exists (Scraped results).
  - destruct (EmailJs.main w companyId s) as [r s'] eqn:Hrun. cbn [snd].
    revert Hrun.
    unfold EmailJs.main, try_catch, bind at 1, select_single. cbv beta iota.
    destruct (error _) as [e|]; [intros Hrun; inversion Hrun; now left|].
    destruct (data _) as [row|]; [|intros Hrun; inversion Hrun; now left].
    match goal with
    | |- context [ bind ?m ?k ?st ] =>
        destruct (bind m k st) as [[[]|err] s2] eqn:Hrest;
        apply (then_update w companyId _ Email) in Hrest;
        [| apply generateEmail_keeps | | apply generateEmail_keeps]
    end;
      intros Hrun; inversion Hrun; subst; cbn [store console_error] in *;
      (destruct Hrest as [H | (text & H)]; [now left|]);
      right; now exists (Email text).
  - destruct (UpdateNiceData.updateNiceData w companyId s) as [r s'] eqn:Hrun. cbn [snd].
    revert Hrun.
    unfold UpdateNiceData.updateNiceData, bind at 1, select_single. cbv beta iota.
    destruct (error _) as [e|]; [intros Hrun; inversion Hrun; now left|].
    destruct (data _) as [row|]; [|intros Hrun; inversion Hrun; now left].
    destruct (scraped_data row) as [scrapedData|];
      [|intros Hrun; inversion Hrun; now left].
    intros Hrun. apply (then_update w companyId _ Nice) in Hrun;
      [|apply keeps_for_of, niceRepo_keeps].
    cbn [store] in Hrun. destruct Hrun as [H | (niceData & H)]; [now left|].
    right. now exists (Nice niceData).
Qed.

(** ** The calls of a stage *)

Lemma emits_ret {A} (P : Call -> Prop) (a : A) : emits P (ret a).
Proof. intros s. exists []. now rewrite app_nil_r. Qed.

Lemma emits_throw {A} (P : Call -> Prop) (err : string) : emits P (@throw A err).
Proof. intros s. exists []. now rewrite app_nil_r. Qed.

Lemma emits_console_error (P : Call -> Prop) (line : string) :
  emits P (console_error line).
Proof. intros s. exists []. now rewrite app_nil_r. Qed.

Lemma emits_await {A} (P : Call -> Prop) (c : Call) (answer : list Call -> Result A) :
  P c -> emits P (await c answer).
Proof. intros Hc s. exists [c]. split; [reflexivity | now constructor]. Qed.

Lemma emits_select (P : Call -> Prop) (w : World) (id : Z) :
  P (DbSelect id) -> emits P (select_single w id).
Proof. intros Hc s. exists [DbSelect id]. split; [reflexivity | now constructor]. Qed.

Lemma emits_update (P : Call -> Prop) (w : World) (id : Z) (c : Column) :
  P (DbUpdate id (columnName c)) -> emits P (update_eq w id c).
Proof.
  intros Hc s. exists [DbUpdate id (columnName c)]. split; [reflexivity | now constructor].
Qed.

Lemma emits_bind {A B} (P : Call -> Prop) (m : M A) (k : A -> M B) :
  emits P m -> (forall a, emits P (k a)) -> emits P (bind m k).
Proof.
  intros Hm Hk s. unfold bind. destruct (Hm s) as (new1 & Hcalls1 & Hnew1).
  destruct (m s) as [[a|err] s1]; cbn [snd] in *.
  - destruct (Hk a s1) as (new2 & Hcalls2 & Hnew2).
    exists (new1 ++ new2)%list. rewrite Hcalls2, Hcalls1, app_assoc.
    split; [reflexivity | now apply Forall_app].
  - now exists new1.
Qed.

Lemma emits_try_catch {A} (P : Call -> Prop) (m : M A) (handler : string -> M A) :
  emits P m -> (forall err, emits P (handler err)) -> emits P (try_catch m handler).
Proof.
  intros Hm Hh s. unfold try_catch. destruct (Hm s) as (new1 & Hcalls1 & Hnew1).
  destruct (m s) as [[a|err] s1]; cbn [snd] in *.
  - now exists new1.
  - destruct (Hh err s1) as (new2 & Hcalls2 & Hnew2).
    exists (new1 ++ new2)%list. rewrite Hcalls2, Hcalls1, app_assoc.
    split; [reflexivity | now apply Forall_app].
Qed.

Lemma emits_for_of {A B} (P : Call -> Prop) (body : A -> M (list B)) (xs : list A) :
  (forall x, emits P (body x)) -> emits P (for_of body xs).
Proof.
  intros Hbody. induction xs as [|x rest IH]; simpl.
  - apply emits_ret.
  - apply emits_bind; [apply Hbody|]. intros pushed.
    apply emits_bind; [exact IH|]. intros more. apply emits_ret.
Qed.

Ltac emits_step :=
  first
    [ apply emits_ret | apply emits_throw | apply emits_console_error
    | apply emits_await; exact I
    | apply emits_select; reflexivity
    | apply emits_update; now split
    | apply emits_for_of; intros ?
    | apply emits_try_catch; [|intros ?]
    | apply emits_bind; [|intros ?]
    | match goal with
      | |- emits _ (match ?x with _ => _ end) => destruct x
      | |- emits _ (if ?x then _ else _) => destruct x
      | |- emits _ (let '(_, _) := ?x in _) => destruct x
      end ].

(** X14.  Each stage only adds to the calls made, and adds only calls of its
    own kind: the scrape stage reads and updates [scraped_data] of its own
    company and calls the repository service, never the generation service;
    scrape.ts in addition fetches no profile; the email stage reads and
    updates [email] of its own company and calls the generation service,
    never the repository service; updateNiceData reads and updates
    [nice_data] of its own company, fetches profiles, repositories of users
    and their languages and calls the generation service, and lists no
    organization, contributors or commits. *)
Theorem stage_calls (w : World) (companyId : Z) :
  emits (scrapeCall companyId) (ScrapeJs.main w companyId)
  /\ emits (scrapeTsCall companyId) (ScrapeTs.main w companyId)
  /\ emits (emailCall companyId) (EmailJs.main w companyId)
  /\ emits (niceCall companyId) (UpdateNiceData.updateNiceData w companyId).
Proof.
  split; [|split; [|split]].
  - unfold ScrapeJs.main, ScrapeJs.processRepo, ScrapeJs.fetchContributors,
      ScrapeJs.fetchCommits, ScrapeJs.fetchCommit, ScrapeJs.contributorName.
    repeat emits_step.
  - unfold ScrapeTs.main, ScrapeTs.processRepo, ScrapeTs.fetchContributors,
      ScrapeTs.fetchCommits, ScrapeTs.fetchCommit.
    repeat emits_step.
  - unfold EmailJs.main, EmailJs.generateEmail.
    repeat emits_step.
  - unfold UpdateNiceData.updateNiceData, UpdateNiceData.niceRepo,
      UpdateNiceData.niceCommit, UpdateNiceData.processAuthor,
      UpdateNiceData.getTechnologiesForContributor,
      UpdateNiceData.summarizeCommitDiff, UpdateNiceData.summarizeCommitMessage,
      UpdateNiceData.trimmedOr.
    repeat emits_step.
Qed.

(** ** A repository of [scraped_data] without its array of commits *)

Lemma niceRepo_kept (w : World) (repo : RepoData) (commitsData : list CommitData)
    (s : State) :
  repo_commits repo = Some commitsData ->
  exists newRepo s',
    UpdateNiceData.niceRepo w repo s = (Ok [newRepo], s')
    /\ nice_name newRepo = name repo
    /\ nice_link newRepo = link repo
    /\ nice_stars newRepo = stars repo
    /\ nice_top50contributors newRepo = top50contributors repo
    /\ nice_averageAdditions newRepo = averageAdditions repo
    /\ nice_averageDeletions newRepo = averageDeletions repo
    /\ Forall2 niceFor commitsData (nice_commits newRepo)
    /\ store s' = store s.
Proof.
  intros Hcommits. pose proof (niceRepo_keeps w repo s) as Hkeep.
  unfold UpdateNiceData.niceRepo in *. rewrite Hcommits in *.
  unfold bind at 1 in Hkeep. unfold bind at 1.
  destruct (for_of_one_each niceFor (UpdateNiceData.niceCommit w) commitsData
              (niceCommit_one w) s) as (newCommits & s1 & Hloop & Hnice).
  rewrite Hloop in *. rewrite bind_ret in Hkeep. rewrite bind_ret.
  unfold bind at 1 in Hkeep. unfold bind at 1.
  assert (forall a, returns (UpdateNiceData.processAuthor w a)) as Hreturns.
  { intros a t. destruct (processAuthor_one w a t) as (person & t' & Hrun & _).
    now exists [person], t'. }
  destruct (returns_for_of (UpdateNiceData.processAuthor w)
              (UpdateNiceData.Set_of (map author commitsData)) Hreturns s1)
    as (newPeople & s2 & Hpeople).
  rewrite Hpeople in *. cbn [ret snd] in Hkeep.
  eexists _, _. split; [reflexivity|]. cbn. now repeat split.
Qed.

(** The loop over [scrapedData] throws at the first repository without
    commits. *)
Lemma niceData_throws (w : World) (scrapedData : list RepoData) :
  (exists repo, repo ∈ scrapedData /\ repo_commits repo = None) ->
  forall s, exists s',
    for_of (UpdateNiceData.niceRepo w) scrapedData s
    = (Thrown "TypeError: Cannot read properties of undefined (reading 'map')", s').
Proof.
  induction scrapedData as [|x rest IH]; intros (repo & Hin & Hnone) s.
  - now apply elem_of_nil in Hin.
  - cbn [for_of]. unfold bind at 1.
    destruct (repo_commits x) as [commitsData|] eqn:Hx.
    + destruct (niceRepo_kept w x commitsData s Hx) as (newRepo & s1 & -> & _).
      apply elem_of_cons in Hin as [-> | Hin]; [congruence|].
      destruct (IH (ex_intro _ repo (conj Hin Hnone)) s1) as (s' & Hrest).
      unfold bind. rewrite Hrest. now exists s'.
    + rewrite (niceRepo_throws w x s Hx). now exists s.
Qed.

Lemma niceData_calls (w : World) (scrapedData : list RepoData) :
  emits noUpdate (for_of (UpdateNiceData.niceRepo w) scrapedData).
Proof.
  unfold UpdateNiceData.niceRepo, UpdateNiceData.niceCommit,
    UpdateNiceData.processAuthor, UpdateNiceData.getTechnologiesForContributor,
    UpdateNiceData.summarizeCommitDiff, UpdateNiceData.summarizeCommitMessage,
    UpdateNiceData.trimmedOr.
  repeat emits_step.
Qed.

(** X12.  For a repository with its array of commits, [niceRepo] returns,
    leaves the table as it is and builds a repository with the name, link,
    stars, contributors and averages of the one it was given and one commit
    for each of its commits, in their order, with the same message, author
    and stats; the two summaries of a commit are never empty, and they are
    the sentinels [No diff available.] and [No message available.] for a
    commit without diff, respectively without message.  For a repository
    whose [commits] is missing, [niceRepo] throws a [TypeError] without a
    call, and so does the stage for a company with such a repository in its
    [scraped_data]: nothing catches the error, no update of the table is
    issued and the table is as it was. *)
Theorem niceRepo_keeps_commits (w : World) (repo : RepoData) :
  (forall commitsData s,
     repo_commits repo = Some commitsData ->
     exists newRepo s',
       UpdateNiceData.niceRepo w repo s = (Ok [newRepo], s')
       /\ nice_name newRepo = name repo
       /\ nice_link newRepo = link repo
       /\ nice_stars newRepo = stars repo
       /\ nice_top50contributors newRepo = top50contributors repo
       /\ nice_averageAdditions newRepo = averageAdditions repo
       /\ nice_averageDeletions newRepo = averageDeletions repo
       /\ Forall2 niceFor commitsData (nice_commits newRepo)
       /\ store s' = store s)
  /\ (forall s,
        repo_commits repo = None ->
        UpdateNiceData.niceRepo w repo s
        = (Thrown "TypeError: Cannot read properties of undefined (reading 'map')", s))
  /\ (forall companyId s row scrapedData,
        db_select w (calls s) (store s) companyId = mkSelect (Some row) None ->
        scraped_data row = Some scrapedData ->
        repo ∈ scrapedData ->
        repo_commits repo = None ->
        exists s' new,
          UpdateNiceData.updateNiceData w companyId s
          = (Thrown "TypeError: Cannot read properties of undefined (reading 'map')", s')
          /\ store s' = store s
          /\ calls s' = (calls s ++ DbSelect companyId :: new)%list
          /\ Forall noUpdate new).
Proof.
  split; [|split].
  - intros commitsData s Hcommits. exact (niceRepo_kept w repo commitsData s Hcommits).
  - intros s Hnone. exact (niceRepo_throws w repo s Hnone).
  - intros companyId s row scrapedData Hselect Hscraped Hin Hnone.
    unfold UpdateNiceData.updateNiceData, bind at 1, select_single.
    rewrite Hselect. cbn [error data]. rewrite Hscraped.
    set (s0 := {| store := store s; calls := calls s ++ [DbSelect companyId];
                  errors := errors s |}).
    unfold bind at 1.
    pose proof (keeps_for_of (UpdateNiceData.niceRepo w) scrapedData
                  (niceRepo_keeps w) s0) as Hkeep.
    destruct (niceData_calls w scrapedData s0) as (new & Hcalls & Hnew).
    destruct (niceData_throws w scrapedData (ex_intro _ repo (conj Hin Hnone)) s0)
      as (s' & Hloop).
    rewrite Hloop in *. cbn [snd] in Hkeep, Hcalls.
    exists s', new. split; [reflexivity|]. split; [exact Hkeep|].
    split; [|exact Hnew]. rewrite Hcalls. unfold s0. cbn [calls].
    now rewrite <- app_assoc.
Qed.

(** A company whose second repository has no commits: the stage throws after
    the first, and nothing is stored. *)
Lemma niceRepo_keeps_commits_witness :
  let broken := {| name := "b"; link := "https://github.com/o/b"; stars := 1;
                   top50contributors := []; repo_commits := None;
                   averageAdditions := None; averageDeletions := None |} in
  let whole := mkRepo "a" "https://github.com/o/a" 2 []
                 [mkCommit (Some "m") "ada" "+x" (Some (mkStats 1 0 1))] (Some 1) (Some 0) in
  let row := {| company_name := "Elastic"; website := "https://github.com/elastic/";
                manager_name := None; scraped_data := Some [whole; broken];
                nice_data := None; email := None |} in
  exists s',
    UpdateNiceData.updateNiceData servicesUp 107 (start {[ 107 := row ]})
    = (Thrown "TypeError: Cannot read properties of undefined (reading 'map')", s')
    /\ store s' = {[ 107 := row ]}.
Proof.
  intros broken whole row.
  assert (db_select servicesUp (calls (start {[ 107 := row ]}))
            (store (start {[ 107 := row ]})) 107 = mkSelect (Some row) None)
    as Hselect by (vm_compute; reflexivity).
  assert (scraped_data row = Some [whole; broken]) as Hscraped by reflexivity.
  assert (broken ∈ [whole; broken]) as Hin by (apply elem_of_cons; right; apply elem_of_cons; now left).
  assert (repo_commits broken = None) as Hnone by reflexivity.
  destruct (niceRepo_keeps_commits servicesUp broken) as (_ & _ & Hstage).
  destruct (Hstage 107 (start {[ 107 := row ]}) row [whole; broken]
              Hselect Hscraped Hin Hnone) as (s' & new & Hrun & Hstore & _).
  exists s'. split; [exact Hrun | exact Hstore].
Defined.

(** ** The email stage *)

Lemma generateEmail_step (w : World) (row : Company) (s : State) :
  EmailJs.generateEmail w row s =
    match chatCompletion w (calls s) (EmailJs.emailPrompt row (dataSummaryOf row)) with
    | Ok emailContent =>
        (Ok (or_else emailContent ""),
         {| store := store s;
            calls := calls s ++ [ChatCompletion (EmailJs.emailPrompt row (dataSummaryOf row))];
            errors := errors s |})
    | Thrown err =>
        (Thrown err,
         {| store := store s;
            calls := calls s ++ [ChatCompletion (EmailJs.emailPrompt row (dataSummaryOf row))];
            errors := errors s |})
    end.
Proof.
  unfold EmailJs.generateEmail, dataSummaryOf.
  destruct (scraped_data row) as [arr|]; cbv beta iota zeta; rewrite bind_await;
    destruct (chatCompletion w (calls s) _); reflexivity.
Qed.

(** X15.  Once the company is found, the email stage makes one call to the
    generation service, with the prompt built from the company and the
    digest of its [scraped_data].  When that call throws, the stage logs
    [Unexpected error:] and returns without an update.  Otherwise it issues
    one update of [email], with the text of the answer, or with the empty
    string when the answer carries no text; when the update reports an error
    the table is as before and one line is logged. *)
Theorem email_stage_steps (w : World) (companyId : Z) (s : State) (row : Company) :
  db_select w (calls s) (store s) companyId = mkSelect (Some row) None ->
  let prompt := EmailJs.emailPrompt row (dataSummaryOf row) in
  let asked := (calls s ++ [DbSelect companyId; ChatCompletion prompt])%list in
  (forall err,
     chatCompletion w (calls s ++ [DbSelect companyId]) prompt = Thrown err ->
     EmailJs.main w companyId s =
       (Ok tt, {| store := store s; calls := asked;
                  errors := errors s ++ ["Unexpected error:"] |}))
  /\ (forall emailContent,
       chatCompletion w (calls s ++ [DbSelect companyId]) prompt = Ok emailContent ->
       db_update w asked companyId "email" = None ->
       EmailJs.main w companyId s =
         (Ok tt, {| store := alter (setColumn (Email (or_else emailContent "")))
                               companyId (store s);
                    calls := asked ++ [DbUpdate companyId "email"];
                    errors := errors s |}))
  /\ (forall emailContent updateError,
       chatCompletion w (calls s ++ [DbSelect companyId]) prompt = Ok emailContent ->
       db_update w asked companyId "email" = Some updateError ->
       EmailJs.main w companyId s =
         (Ok tt, {| store := store s;
                    calls := asked ++ [DbUpdate companyId "email"];
                    errors := errors s ++
                      ["Error updating company record with generated email:"] |})).
Proof.
  intros Hsel. cbv zeta.
  assert (forall r : Result unit * State,
            (let (r0, s') :=
               (text <- EmailJs.generateEmail w row ;;
                updateError <- update_eq w companyId (Email text) ;;
                match updateError with
                | Some _ =>
                    console_error "Error updating company record with generated email:"
                | None => ret tt
                end)
                 {| store := store s; calls := calls s ++ [DbSelect companyId];
                    errors := errors s |} in
             match r0 with
             | Ok a => (Ok a, s')
             | Thrown _ => console_error "Unexpected error:" s'
             end) = r ->
            EmailJs.main w companyId s = r) as Hmain.
  { intros r <-. unfold EmailJs.main, try_catch, bind at 1, select_single.
    rewrite Hsel. reflexivity. }
  split; [|split].
  - intros err Hchat. apply Hmain. unfold bind at 1.
    rewrite generateEmail_step. cbn [calls store errors]. rewrite Hchat.
    cbn. now rewrite <- app_assoc.
  - intros emailContent Hchat Hupdate. apply Hmain. unfold bind at 1.
    rewrite generateEmail_step. cbn [calls store errors]. rewrite Hchat.
    unfold bind, update_eq.
    cbn [calls store errors columnName]. rewrite <- app_assoc. cbn [app].
    rewrite Hupdate. cbn. reflexivity.
  - intros emailContent updateError Hchat Hupdate. apply Hmain. unfold bind at 1.
    rewrite generateEmail_step. cbn [calls store errors]. rewrite Hchat.
    unfold bind, update_eq.
    cbn [calls store errors columnName]. rewrite <- app_assoc. cbn [app].
    rewrite Hupdate. cbn. reflexivity.
Qed.

(** The services are down: the generation call throws and nothing is
    stored. *)
Lemma email_stage_steps_witness :
  (EmailJs.main servicesDown 107 (start {[ 107 := elastic ]})).2 =
    {| store := {[ 107 := elastic ]};
       calls := [DbSelect 107;
                 ChatCompletion (EmailJs.emailPrompt elastic (dataSummaryOf elastic))];
       errors := ["Unexpected error:"] |}.
Proof.
  assert (db_select servicesDown (calls (start {[ 107 := elastic ]}))
            (store (start {[ 107 := elastic ]})) 107 = mkSelect (Some elastic) None)
    as Hrow by (vm_compute; reflexivity).
  destruct (email_stage_steps servicesDown 107 (start {[ 107 := elastic ]}) elastic Hrow)
    as [Hthrown _].
  rewrite (Hthrown "ECONNRESET" eq_refl). reflexivity.
Defined.

(** ** The script that runs the stages *)

(** X16.  The run-all script runs the commands of the scrape, the email and
    the nice stage for the given company in this order, each only when the
    ones before have exited with 0, and stops at the first that does not.  It
    ends with 0 when all three have exited with 0 and with 1 otherwise;
    without a company id it runs nothing and ends with 1.  It complains
    exactly when it ends with 1. *)
Theorem run_all_in_order (exits0 : list string -> string -> bool)
    (companyId : option string) :
  let outcome := RunAll.main exits0 companyId in
  (RunAll.exitCode outcome = 0 \/ RunAll.exitCode outcome = 1)
  /\ (RunAll.exitCode outcome = 0 <-> RunAll.complained outcome = [])
  /\ (companyId = None \/ companyId = Some "" ->
      RunAll.ran outcome = [] /\ RunAll.exitCode outcome = 1)
  /\ (forall id, companyId = Some id -> id <> "" ->
       let scrape := RunAll.command "scrape" id in
       let email := RunAll.command "email" id in
       let nice := RunAll.command "nice" id in
       RunAll.ran outcome `prefix_of` [scrape; email; nice]
       /\ RunAll.ran outcome <> []
       /\ ((2 <= length (RunAll.ran outcome))%nat <-> exits0 [] scrape = true)
       /\ ((3 <= length (RunAll.ran outcome))%nat <->
           exits0 [] scrape = true /\ exits0 [scrape] email = true)
       /\ (RunAll.exitCode outcome = 0 <->
           exits0 [] scrape = true /\ exits0 [scrape] email = true
           /\ exits0 [scrape; email] nice = true)).
Proof.
  cbv zeta. unfold RunAll.main.
  destruct companyId as [[|ch rest]|].
  - cbn. repeat split; try (intros; congruence); try (now right); try discriminate.
  - change (truthy (String ch rest)) with true. cbv iota.
    set (scrape := RunAll.command "scrape" (String ch rest)).
    set (email := RunAll.command "email" (String ch rest)).
    set (nice := RunAll.command "nice" (String ch rest)).
    destruct (exits0 [] scrape) eqn:H1;
      [destruct (exits0 [scrape] email) eqn:H2;
       [destruct (exits0 [scrape; email] nice) eqn:H3|]|];
      cbn [RunAll.exitCode RunAll.ran RunAll.complained RunAll.failed];
      (split; [first [now left | now right]|]);
      (split; [split; intros H; first [reflexivity | discriminate]|]);
      (split; [intros [H|H]; discriminate|]);
      intros id Hid Hne; injection Hid as <-;
      fold scrape email nice; rewrite ?H1, ?H2, ?H3;
      (split; [first [ now exists [] | now exists [nice] | now exists [email; nice] ]|]);
      (split; [discriminate|]);
      cbn [length];
      repeat split; intros; try lia; try tauto; try discriminate;
      try (destruct H; discriminate);
      try (match goal with H : _ /\ _ |- _ => destruct H as (? & ? & ?) end; discriminate);
      try (match goal with H : _ /\ _ |- _ => destruct H as (? & ?) end; discriminate).
  - cbn. repeat split; try (intros; congruence); try (now right); try discriminate.
Qed.

(** The email stage exits with 1: the nice stage is not run. *)
Lemma run_all_in_order_witness :
  let exits0 (before : list string) (command : string) :=
    String.eqb command "npm run scrape -- 107" in
  RunAll.ran (RunAll.main exits0 (Some "107"))
    `prefix_of` ["npm run scrape -- 107"; "npm run email -- 107"; "npm run nice -- 107"]
  /\ ~ (3 <= length (RunAll.ran (RunAll.main exits0 (Some "107"))))%nat.
Proof.
  cbv zeta.
  destruct (run_all_in_order
              (fun before command => String.eqb command "npm run scrape -- 107")
              (Some "107")) as (_ & _ & _ & Hid).
  cbv zeta in Hid.
  assert ("107" <> "") as Hne by discriminate.
  destruct (Hid "107" eq_refl Hne) as (Hprefix & _ & _ & Hthree & _).
  split; [exact Hprefix|].
  intros Hlen. apply Hthree in Hlen. destruct Hlen as [_ Hemail].
  vm_compute in Hemail. discriminate.
Defined.

(** ** The diff text is never empty *)

Lemma renderFile_head (file : FileChange) :
  exists rest, renderFile file = String "F" rest.
Proof.
  unfold renderFile. destruct (patch file) as [p|]; [destruct (truthy p)|];
    eexists; reflexivity.
Qed.

Lemma join_head (sep : string) (c : ascii) (rest : string) (parts : list string) :
  exists rest', join sep (String c rest :: parts) = String c rest'.
Proof. destruct parts; simpl; eexists; reflexivity. Qed.

Lemma diffText_nonempty (d : CommitDetails) : diffText d <> "".
Proof.
  unfold diffText. destruct (files d) as [[|f fs]|]; try discriminate.
  cbn [map]. destruct (renderFile_head f) as [rest ->].
  destruct (join_head nl "F" rest (map renderFile fs)) as [rest' ->]. discriminate.
Qed.

Lemma summarizeCommitDiff_call (w : World) (text : string) (s : State) :
  exists out s',
    UpdateNiceData.summarizeCommitDiff w text s = (Ok out, s')
    /\ calls s' = (calls s ++ [ChatCompletion (diffPrompt text)])%list.
Proof.
  unfold UpdateNiceData.summarizeCommitDiff. cbv zeta. unfold try_catch.
  rewrite bind_await. fold (diffPrompt text).
  destruct (chatCompletion w (calls s) (diffPrompt text)) as [content|err].
  - destruct content as [t|]; cbn; eexists _, _; split; reflexivity.
  - cbn. eexists _, _; split; reflexivity.
Qed.

(** X17.  The diff text scrape.js stores for a commit is never the empty
    string: it is the sentinel or begins with the block of the first file.
    So for every commit stored by scrape.js updateNiceData.js asks the
    generation service for a summary of the diff: the first call it makes for
    the commit carries the prompt of [summarizeCommitDiff] with the stored
    diff, so the sentinel branch [No diff available.] is not taken. *)
Theorem stored_diff_is_summarized (w : World) (d : CommitDetails) (s : State) :
  diff (commitRecord d) <> ""
  /\ (diff (commitRecord d) = "No file changes found for this commit."
      \/ exists file rest, files d = Some (file :: rest)
           /\ exists tail, diff (commitRecord d)
                           = "File: " +:+ filename file +:+ tail)
  /\ exists later,
       calls (UpdateNiceData.niceCommit w (commitRecord d) s).2
       = (calls s ++ ChatCompletion (diffPrompt (diff (commitRecord d))) :: later)%list.
Proof.
  split; [apply diffText_nonempty|]. split.
  - cbn [diff commitRecord]. unfold diffText.
    destruct (files d) as [[|f fs]|]; [now left | | now left].
    right. exists f, fs. split; [reflexivity|]. cbn [map].
    assert (exists tail, renderFile f = "File: " +:+ filename f +:+ tail) as [tail Hf].
    { unfold renderFile. destruct (patch f) as [p|]; [destruct (truthy p)|];
        eexists; reflexivity. }
    rewrite Hf. destruct (map renderFile fs) as [|b bs].
    + now exists tail.
    + exists (tail +:+ nl +:+ join nl (b :: bs)).
      cbn [join]. now rewrite !str_app_assoc.
  - unfold UpdateNiceData.niceCommit. unfold bind at 1.
    assert (truthy (diff (commitRecord d)) = true) as ->.
    { pose proof (diffText_nonempty d) as Hne. cbn [diff commitRecord].
      destruct (diffText d); [congruence | reflexivity]. }
    destruct (summarizeCommitDiff_call w (diff (commitRecord d)) s)
      as (out & s1 & -> & Hcalls).
    match goal with
    | |- context [ bind ?m ?k s1 ] =>
        assert (emits (fun _ => True) (bind m k)) as Hemits
    end.
    { unfold UpdateNiceData.summarizeCommitMessage, UpdateNiceData.trimmedOr.
      repeat emits_step. }
    destruct (Hemits s1) as (later & Hlater & _).
    exists later. rewrite Hlater, Hcalls, <- app_assoc. reflexivity.
Qed.

(** ** Reading back a comma-separated list *)

Lemma trimStart_length (s : string) :
  (String.length (trimStart s) <= String.length s)%nat.
Proof.
  induction s as [|c s IH]; [reflexivity|].
  simpl. destruct (is_space c); simpl; lia.
Qed.

Lemma trimStart_fixed_head (c : ascii) (rest : string) :
  trimStart (String c rest) = String c rest -> is_space c = false.
Proof.
  simpl. destruct (is_space c); [|reflexivity]. intros Heq.
  pose proof (trimStart_length rest) as Hlen. rewrite Heq in Hlen. simpl in Hlen. lia.
Qed.

Lemma trimEnd_app (a b : string) :
  b <> "" -> trimEnd b = b -> trimEnd (a +:+ b) = a +:+ b.
Proof.
  intros Hne Hb. induction a as [|c a IH]; [exact Hb|].
  rewrite str_app_cons. cbn [trimEnd]. rewrite IH.
  destruct (a +:+ b) as [|c' r] eqn:Hab; [|reflexivity].
  destruct a; [rewrite str_app_nil_l in Hab; congruence
             | rewrite str_app_cons in Hab; discriminate].
Qed.

Lemma entry_trim (t : string) : entry t -> trim t = t.
Proof. intros (_ & Hstart & Hend & _). unfold trim. now rewrite Hstart. Qed.

Lemma entry_after_space (t : string) : entry t -> trim (" " +:+ t) = t.
Proof.
  intros (_ & Hstart & Hend & _). unfold trim.
  change (" " +:+ t) with (String " " t). cbn [trimStart].
  change (is_space " ") with true. cbv iota. now rewrite Hstart.
Qed.

Lemma split_on_no_comma (a : string) : noComma a = true -> split_on "," a = [a].
Proof.
  induction a as [|c a IH]; [reflexivity|].
  simpl. destruct (Ascii.eqb c ","); [discriminate|]. simpl.
  intros Ha. now rewrite (IH Ha).
Qed.

Lemma split_on_comma (a b : string) :
  noComma a = true -> split_on "," (a +:+ String "," b) = a :: split_on "," b.
Proof.
  induction a as [|c a IH]; [reflexivity|].
  rewrite str_app_cons. simpl. destruct (Ascii.eqb c ","); [discriminate|]. simpl.
  intros Ha. now rewrite (IH Ha).
Qed.

Lemma noComma_app (a b : string) :
  noComma a = true -> noComma b = true -> noComma (a +:+ b) = true.
Proof.
  intros Ha Hb. induction a as [|c a IH]; [exact Hb|].
  rewrite str_app_cons. simpl in *. destruct (Ascii.eqb c ","); [discriminate|].
  simpl in *. now apply IH.
Qed.

Lemma split_joined (before t : string) (ts : list string) :
  noComma before = true -> Forall entry (t :: ts) ->
  split_on "," (before +:+ join ", " (t :: ts))
  = (before +:+ t) :: map (fun x => " " +:+ x) ts.
Proof.
  revert before t. induction ts as [|t' ts IH]; intros before t Hbefore Hall.
  - cbn [join map]. apply split_on_no_comma. apply noComma_app; [exact Hbefore|].
    inversion Hall as [|? ? (_ & _ & _ & Ht) _]; subst. exact Ht.
  - inversion Hall as [|? ? (_ & _ & _ & Ht) Hrest]; subst.
    change (join ", " (t :: t' :: ts)) with (t +:+ ", " +:+ join ", " (t' :: ts)).
    rewrite <- str_app_assoc.
    change (", " +:+ join ", " (t' :: ts))
      with (String "," (" " +:+ join ", " (t' :: ts))).
    rewrite split_on_comma by (now apply noComma_app).
    rewrite (IH " " t' eq_refl Hrest). reflexivity.
Qed.

Lemma joined_trimmed (t : string) (ts : list string) :
  Forall entry (t :: ts) -> trim (join ", " (t :: ts)) = join ", " (t :: ts).
Proof.
  intros Hall.
  assert (exists c rest, join ", " (t :: ts) = String c rest /\ is_space c = false)
    as (c & rest & Hjoin & Hc).
  { inversion Hall as [|? ? (Hne & Hstart & _) _]; subst.
    destruct t as [|c r]; [congruence|].
    destruct (join_head ", " c r ts) as [rest' Hj].
    exists c, rest'. split; [exact Hj|]. now apply trimStart_fixed_head in Hstart. }
  assert (trimEnd (join ", " (t :: ts)) = join ", " (t :: ts)) as Hend.
  { clear c rest Hjoin Hc. revert t Hall.
    induction ts as [|t' ts IH]; intros t Hall.
    - inversion Hall as [|? ? (_ & _ & Hend & _) _]; subst. exact Hend.
    - inversion Hall as [|? ? _ Hrest]; subst.
      change (join ", " (t :: t' :: ts)) with (t +:+ ", " +:+ join ", " (t' :: ts)).
      rewrite <- str_app_assoc. apply trimEnd_app; [|now apply IH].
      inversion Hrest as [|? ? (Hne & _) _]; subst.
      destruct t' as [|c r]; [congruence|].
      destruct (join_head ", " c r ts) as [rest' ->]. discriminate. }
  unfold trim. rewrite Hjoin, (trimStart_fixed c rest Hc), <- Hjoin. exact Hend.
Qed.

Lemma filter_entries (ts : list string) :
  Forall entry ts -> filter_Boolean ts = ts.
Proof.
  induction 1 as [|t ts (Hne & _) _ IH]; [reflexivity|].
  unfold filter_Boolean in *. simpl. rewrite IH.
  destruct t; [congruence | reflexivity].
Qed.

(** X18.  A comma-separated list is read back as its entries: when the
    generation service answers with entries joined by a comma and a space,
    each entry not empty, without space at either end and without comma, the
    technologies [getTechnologiesForContributor] returns are these entries in
    their order (given that the profile and repository fetches answer). *)
Theorem technologies_round_trip (techs : list string) :
  Forall entry techs ->
  filter_Boolean (map trim (split_on "," (trim (join ", " techs)))) = techs
  /\ forall w author s user repos keys,
       (forall h, getByUsername w h author = Ok user) ->
       (forall h, listForUser w h author = Ok repos) ->
       (forall h topRepo, listLanguages w h author topRepo = Ok keys) ->
       (forall h prompt, chatCompletion w h prompt = Ok (Some (join ", " techs))) ->
       (UpdateNiceData.getTechnologiesForContributor w author s).1 = Ok techs.
Proof.
  intros Hall.
  assert (filter_Boolean (map trim (split_on "," (trim (join ", " techs)))) = techs)
    as Hparse.
  { destruct techs as [|t ts]; [reflexivity|].
    rewrite (joined_trimmed t ts Hall).
    pose proof (split_joined "" t ts eq_refl Hall) as Hsplit.
    rewrite !str_app_nil_l in Hsplit. rewrite Hsplit. cbn [map].
    inversion Hall as [|? ? Ht Hts]; subst.
    rewrite (entry_trim t Ht), map_map.
    assert (map (fun x => trim (" " +:+ x)) ts = ts) as ->.
    { clear -Hts. induction Hts as [|x xs Hx _ IH]; [reflexivity|].
      cbn [map]. now rewrite (entry_after_space x Hx), IH. }
    now apply filter_entries. }
  split; [exact Hparse|].
  intros w author s user repos keys Hprofile Hrepos Hlanguages Hchat.
  unfold UpdateNiceData.getTechnologiesForContributor, try_catch.
  rewrite bind_await, Hprofile, bind_await, Hrepos.
  destruct repos as [|topRepo others].
  - rewrite bind_ret, bind_await, Hchat. cbn. now rewrite Hparse.
  - rewrite bind_bind, bind_await, Hlanguages, bind_ret, bind_await, Hchat.
    cbn. now rewrite Hparse.
Qed.

(** The answer [Go, Rust, C++] gives the three technologies. *)
Lemma technologies_round_trip_witness :
  (UpdateNiceData.getTechnologiesForContributor (answering "Go, Rust, C++") "ada"
     (start ∅)).1 = Ok ["Go"; "Rust"; "C++"].
Proof.
  assert (Forall entry ["Go"; "Rust"; "C++"]) as Hentries.
  { repeat (apply Forall_cons_2;
              [split; [discriminate | repeat split; reflexivity]|]).
    apply Forall_nil_2. }
  destruct (technologies_round_trip ["Go"; "Rust"; "C++"] Hentries) as [_ Hrun].
  apply (Hrun (answering "Go, Rust, C++") "ada" (start ∅)
           (mkUser (Some "Ada L") None) ["notes"] ["Go"; "Shell"]); reflexivity.
Defined.
